(** * bazel-buildbarn: the local build executor, the action cache and the
      input file exposer, embedded in Rocq.

    The Go sources are embedded shallowly.  Go strings are byte sequences
    ([string], converted to [list ascii] where the code indexes them),
    protocol messages are records, [error] values are an inductive type,
    and every call that leaves the package (CAS, operating system, process
    spawning) is an event of a small free monad whose answers are supplied
    by a handler. *)

From Stdlib Require Import ZArith Ascii String List Lia Bool.
From stdpp Require Import base gmap list strings.

Local Open Scope string_scope.
Local Open Scope list_scope.

(** ** Package [path] of the Go standard library

    [joinPathSafe] is built from [path.Join] and [path.Clean]; both are
    transcribed from the library's [path.go]. *)
Module path.

Abbreviation bytes := (list ascii) (only parsing).

Definition isSlash (c : ascii) : bool := Ascii.eqb c "/".
Definition isDot (c : ascii) : bool := Ascii.eqb c ".".

(** A [lazybuf] is a lazily constructed path buffer: it holds the input
    [s], the output written so far (the first [w] bytes of [s] itself as
    long as the output is a prefix of the input, of [buf] afterwards). *)
Record lazybuf := { s : bytes; buf : option bytes; w : nat }.

(** [func (b *lazybuf) index(i int) byte] *)
Definition lazybuf_index (b : lazybuf) (i : nat) : ascii :=
  match buf b with
  | Some bf => nth i bf zero
  | None => nth i (s b) zero
  end.

(** [func (b *lazybuf) append(c byte)]; [buf] is allocated with the length
    of [s], and a write past its end changes nothing here where Go would
    panic. *)
Definition lazybuf_append (b : lazybuf) (c : ascii) : lazybuf :=
  match buf b with
  | None =>
      if (w b <? length (s b))%nat && Ascii.eqb (nth (w b) (s b) zero) c then
        {| s := s b; buf := None; w := S (w b) |}
      else
        let bf := firstn (w b) (s b) ++ repeat zero (length (s b) - w b) in
        {| s := s b; buf := Some (<[w b := c]> bf); w := S (w b) |}
  | Some bf =>
      {| s := s b; buf := Some (<[w b := c]> bf); w := S (w b) |}
  end.

(** [func (b *lazybuf) string() string] *)
Definition lazybuf_string (b : lazybuf) : bytes :=
  match buf b with
  | None => firstn (w b) (s b)
  | Some bf => firstn (w b) bf
  end.

(** [for out.w > dotdot && out.index(out.w) != '/' { out.w-- }], reading
    the buffer through [index]. *)
Fixpoint scanBack (index : nat -> ascii) (dotdot w : nat) : nat :=
  match w with
  | 0 => 0
  | S w' =>
      if (dotdot <? w)%nat && negb (isSlash (index w))
      then scanBack index dotdot w'
      else w
  end.

(** [for ; r < n && path[r] != '/'; r++ { out.append(path[r]) }]: the
    buffer afterwards and the unread rest. *)
Fixpoint copyElement (rest : bytes) (out : lazybuf) : lazybuf * bytes :=
  match rest with
  | [] => (out, [])
  | c :: rest' =>
      if isSlash c then (out, rest)
      else copyElement rest' (lazybuf_append out c)
  end.

(** The main loop [for r < n] of [Clean]; [rest] is [path[r:]].  One unit
    of fuel per iteration. *)
Fixpoint cleanLoop (fuel : nat) (rooted : bool) (rest : bytes) (out : lazybuf)
    (dotdot : nat) : lazybuf :=
  match fuel with
  | 0 => out
  | S fuel' =>
      match rest with
      | [] => out
      | c0 :: r1 =>
          if isSlash c0 then
            (* empty path element *)
            cleanLoop fuel' rooted r1 out dotdot
          else if isDot c0 &&
                  match r1 with [] => true | c1 :: _ => isSlash c1 end then
            (* . element *)
            cleanLoop fuel' rooted r1 out dotdot
          else if isDot c0 &&
                  match r1 with
                  | [] => false
                  | c1 :: r2 =>
                      isDot c1 &&
                      match r2 with [] => true | c2 :: _ => isSlash c2 end
                  end then
            (* .. element: remove to last / *)
            let r2 := tl r1 in
            if (dotdot <? w out)%nat then
              (* can backtrack *)
              let out1 :=
                {| s := s out; buf := buf out;
                   w := scanBack (lazybuf_index out) dotdot (w out - 1) |} in
              cleanLoop fuel' rooted r2 out1 dotdot
            else if negb rooted then
              (* cannot backtrack, but not rooted, so append .. element *)
              let out1 := if (0 <? w out)%nat then lazybuf_append out "/" else out in
              let out2 := lazybuf_append (lazybuf_append out1 ".") "." in
              cleanLoop fuel' rooted r2 out2 (w out2)
            else
              cleanLoop fuel' rooted r2 out dotdot
          else
            (* real path element; add slash if needed, copy element *)
            let out1 :=
              if (rooted && negb (w out =? 1)%nat) ||
                 (negb rooted && negb (w out =? 0)%nat)
              then lazybuf_append out "/" else out in
            let (out2, r') := copyElement rest out1 in
            cleanLoop fuel' rooted r' out2 dotdot
      end
  end.

(** [func Clean(path string) string], on byte lists. *)
Definition cleanBytes (p : bytes) : bytes :=
  match p with
  | [] => ["."%char]
  | c0 :: p' =>
      let rooted := isSlash c0 in
      let n := length p in
      let out := {| s := p; buf := None; w := 0 |} in
      let out :=
        if rooted then cleanLoop n rooted p' (lazybuf_append out "/") 1
        else cleanLoop n rooted p out 0 in
      (* Turn empty string into "." *)
      if (w out =? 0)%nat then ["."%char] else lazybuf_string out
  end.

Definition Clean (p : string) : string :=
  string_of_list_ascii (cleanBytes (list_ascii_of_string p)).

(** [strings.Join(elems, "/")] *)
Fixpoint joinSlash (elems : list string) : string :=
  match elems with
  | [] => ""
  | [e] => e
  | e :: es => e ++ "/" ++ joinSlash es
  end.

(** [func Join(elem ...string) string]: the first non-empty element and
    everything after it, joined with slashes and cleaned; the empty string
    when every element is empty. *)
Fixpoint Join (elem : list string) : string :=
  match elem with
  | [] => ""
  | e :: es => if String.eqb e "" then Join es else Clean (joinSlash elem)
  end.

(** [func Split(path string) (dir, file string)]: split after the final
    slash. *)
Fixpoint splitBytes (p : bytes) : bytes * bytes :=
  match p with
  | [] => ([], [])
  | c :: p' =>
      let (d, f) := splitBytes p' in
      if isSlash c then (c :: d, f)
      else match d with
           | [] => ([], c :: f)
           | _ => (c :: d, f)
           end
  end.

(** [func Dir(path string) string { dir, _ := Split(path); return Clean(dir) }] *)
Definition Dir (p : string) : string :=
  Clean (string_of_list_ascii (fst (splitBytes (list_ascii_of_string p)))).

End path.


(** ** Component view of [path.Clean]

    The loop of [Clean] reads the path one slash-separated element at a
    time and keeps a stack of elements; these definitions state that view,
    against which the byte-level loop is proved. *)
Module pathspec.
Import path.

(** *** The loop on the written output

    The same loop on the bytes written so far, [out] being what the
    lazybuf holds in its first [w] bytes. *)

(** The [..] case when [out.w > dotdot]: [out.w--], then the scan. *)
Definition backtrack (out : bytes) (dotdot : nat) : bytes :=
  firstn (scanBack (fun i => nth i out zero) dotdot (length out - 1)) out.

(** The copied element and the unread rest. *)
Fixpoint copyElem (rest : bytes) : bytes * bytes :=
  match rest with
  | [] => ([], [])
  | c :: rest' =>
      if isSlash c then ([], rest)
      else let (e, r) := copyElem rest' in (c :: e, r)
  end.

Fixpoint prefixLoop (fuel : nat) (rooted : bool) (rest out : bytes)
    (dotdot : nat) : bytes :=
  match fuel with
  | 0 => out
  | S fuel' =>
      match rest with
      | [] => out
      | c0 :: r1 =>
          if isSlash c0 then prefixLoop fuel' rooted r1 out dotdot
          else if isDot c0 &&
                  match r1 with [] => true | c1 :: _ => isSlash c1 end then
            prefixLoop fuel' rooted r1 out dotdot
          else if isDot c0 &&
                  match r1 with
                  | [] => false
                  | c1 :: r2 =>
                      isDot c1 &&
                      match r2 with [] => true | c2 :: _ => isSlash c2 end
                  end then
            let r2 := tl r1 in
            if (dotdot <? length out)%nat then
              prefixLoop fuel' rooted r2 (backtrack out dotdot) dotdot
            else if negb rooted then
              let out1 := if (0 <? length out)%nat then out ++ ["/"%char] else out in
              let out2 := out1 ++ ["."%char; "."%char] in
              prefixLoop fuel' rooted r2 out2 (length out2)
            else
              prefixLoop fuel' rooted r2 out dotdot
          else
            let out1 :=
              if (rooted && negb (length out =? 1)%nat) ||
                 (negb rooted && negb (length out =? 0)%nat)
              then out ++ ["/"%char] else out in
            let (e, r') := copyElem rest in
            prefixLoop fuel' rooted r' (out1 ++ e) dotdot
      end
  end.

Definition cleanPrefix (p : bytes) : bytes :=
  match p with
  | [] => ["."%char]
  | c0 :: p' =>
      let rooted := isSlash c0 in
      let n := length p in
      let out :=
        if rooted then prefixLoop n rooted p' ["/"%char] 1
        else prefixLoop n rooted p [] 0 in
      if (length out =? 0)%nat then ["."%char] else out
  end.

(** The input still to be read starts a new element: it is empty or
    starts with a slash. *)
Definition sepHead (r : bytes) : Prop :=
  match r with [] => True | c :: _ => isSlash c = true end.

(** A slash is due before the next element. *)
Definition pending (rooted : bool) (w : nat) : bool :=
  (rooted && negb (w =? 1)%nat) || (negb rooted && negb (w =? 0)%nat).

(** What holds of the lazybuf at the head of the loop, [n] being the
    length of the path: the buffer has the length of the input, and
    there is room for what is still to be written. *)
Definition roomy (n : nat) (rooted : bool) (rest : bytes) (b : lazybuf) : Prop :=
  length (s b) = n /\
  (forall bf, buf b = Some bf -> length bf = n) /\
  w b + length rest <= n /\
  (pending rooted (w b) = true -> sepHead rest \/ w b + length rest < n).

(** The buffer, once allocated, has the length of the input. *)
Definition sized (n : nat) (b : lazybuf) : Prop :=
  length (s b) = n /\ forall bf, buf b = Some bf -> length bf = n.

(** *** The elements of a path *)

Fixpoint splitSlash (s : bytes) : list bytes :=
  match s with
  | [] => [[]]
  | c :: s' =>
      if isSlash c then [] :: splitSlash s'
      else match splitSlash s' with
           | h :: t => (c :: h) :: t
           | [] => [[c]]
           end
  end.

Fixpoint joinB (l : list bytes) : bytes :=
  match l with
  | [] => []
  | [c] => c
  | c :: l' => c ++ "/"%char :: joinB l'
  end.

Definition isDotElem (e : bytes) : bool :=
  match e with [c] => isDot c | _ => false end.
Definition isDotDotElem (e : bytes) : bool :=
  match e with [c1; c2] => isDot c1 && isDot c2 | _ => false end.

(** Elements kept so far: [dd] leading [..] elements, then the real
    elements, most recent first. *)
Record stack := Stack { dd : nat; elems : list bytes }.

Definition step (rooted : bool) (st : stack) (e : bytes) : stack :=
  match e with
  | [] => st
  | _ =>
    if isDotElem e then st
    else if isDotDotElem e then
      match elems st with
      | _ :: rc => Stack (dd st) rc
      | [] => if rooted then st else Stack (S (dd st)) []
      end
    else Stack (dd st) (e :: elems st)
  end.

Definition dots : bytes := ["."%char; "."%char].

Definition contents (st : stack) : list bytes :=
  repeat dots (dd st) ++ rev (elems st).

Definition render (rooted : bool) (l : list bytes) : bytes :=
  (if rooted then ["/"%char] else []) ++ joinB l.

Definition dotdotOf (rooted : bool) (n : nat) : nat :=
  if rooted then 1 else length (joinB (repeat dots n)).

Definition noSlash (e : bytes) : Prop := Forall (fun c => isSlash c = false) e.
Definition good (e : bytes) : Prop := e <> [] /\ noSlash e.
Definition normal (e : bytes) : Prop :=
  good e /\ isDotElem e = false /\ isDotDotElem e = false.

Definition wfStack (rooted : bool) (st : stack) : Prop :=
  (rooted = true -> dd st = 0) /\ Forall normal (elems st).

End pathspec.


(** ** Go errors and results *)

Module codes.
(** [google.golang.org/grpc/codes] *)
Inductive Code :=
  | OK | Canceled | Unknown | InvalidArgument | DeadlineExceeded | NotFound
  | AlreadyExists | PermissionDenied | ResourceExhausted | FailedPrecondition
  | Aborted | OutOfRange | Unimplemented | Internal | Unavailable | DataLoss
  | Unauthenticated.
End codes.

Definition ENOENT : Z := 2.
Definition EEXIST : Z := 17.

(** The dynamic types an [error] value has in these packages. *)
Inductive error :=
  | errorString (s : string)               (* errors.New, fmt.Errorf *)
  | PathError (op path : string) (errno : Z) (* *os.PathError around a syscall.Errno *)
  | ExitError (ws : Z)                     (* *exec.ExitError, with its syscall.WaitStatus *)
  | statusError (c : codes.Code) (msg : string). (* an error made by grpc/status *)

(** A Go pair [(T, error)] whose value is meaningful only when the error
    is nil.  A lone [error] result is an [option error]: [None] is [nil]. *)
Inductive result (A : Type) :=
  | Ok (a : A)
  | Err (e : error).
Arguments Ok {A} a.
Arguments Err {A} e.

(** [os.IsNotExist] *)
Definition os_IsNotExist (err : error) : bool :=
  match err with
  | PathError _ _ errno => (errno =? ENOENT)%Z
  | _ => false
  end.

(** [status.Code]: the code of a status error, [Unknown] for any other
    non-nil error. *)
Definition status_Code (err : error) : codes.Code :=
  match err with
  | statusError c _ => c
  | _ => codes.Unknown
  end.

(** ** Protocol messages ([remoteexecution]); pointer fields are options *)

Record Digest := { Hash : string; SizeBytes : Z }.

Record Action := {
  CommandDigest : option Digest;
  InputRootDigest : option Digest;
  DoNotCache : bool }.

Record EnvironmentVariable := { Name : string; Value : string }.

Record Command := {
  Arguments : list string;
  EnvironmentVariables : list EnvironmentVariable;
  OutputFiles : list string;
  OutputDirectories : list string;
  WorkingDirectory : string }.

Record FileNode := {
  FileNode_Name : string;
  FileNode_Digest : option Digest;
  FileNode_IsExecutable : bool }.

Record DirectoryNode := {
  DirectoryNode_Name : string;
  DirectoryNode_Digest : option Digest }.

Record SymlinkNode := {
  SymlinkNode_Name : string;
  SymlinkNode_Target : string }.

Record Directory := {
  Files : list FileNode;
  Directories : list DirectoryNode;
  Symlinks : list SymlinkNode }.

Record Tree := {
  Root : option Directory;
  Children : list (option Directory) }.

Record OutputFile := {
  OutputFile_Path : string;
  OutputFile_Digest : option Digest;
  OutputFile_IsExecutable : bool }.

Record OutputDirectory := {
  OutputDirectory_Path : string;
  OutputDirectory_TreeDigest : option Digest }.

Record ActionResult := {
  ResultOutputFiles : list OutputFile;
  ResultOutputDirectories : list OutputDirectory;
  ExitCode : Z;
  StdoutDigest : option Digest;
  StderrDigest : option Digest }.

Record ExecuteRequest := {
  InstanceName : string;
  ActionDigest : option Digest }.

(** [google.rpc.Status]; the message text is [err.Error()], for which the
    model keeps the error value. *)
Record Status := { Code : codes.Code; Cause : error }.

Record ExecuteResponse := {
  Result : option ActionResult;
  ResponseStatus : option Status }.

(** ** Programs over external calls

    A program is a tree: it returns, or issues an event and continues with
    the answer, or has run out of the fuel given to its recursion. *)
Inductive prog (E : Type -> Type) (A : Type) : Type :=
  | Ret (a : A)
  | Vis {X : Type} (e : E X) (k : X -> prog E A)
  | OutOfFuel.
Arguments Ret {E A} a.
Arguments Vis {E A X} e k.
Arguments OutOfFuel {E A}.

Fixpoint bind {E A B} (p : prog E A) (f : A -> prog E B) : prog E B :=
  match p with
  | Ret a => f a
  | Vis e k => Vis e (fun x => bind (k x) f)
  | OutOfFuel => OutOfFuel
  end.

Definition call {E X} (e : E X) : prog E X := Vis e Ret.

Notation "'let*' x ':=' p 'in' k" := (bind p (fun x => k))
  (at level 10, x pattern, p at level 100, k at level 200).

(** [for _, a := range l { ... }] over a loop state [s]: the body returns
    the next state, or the error with which the enclosing function
    returns. *)
Fixpoint rangeLoop {E A S} (l : list A) (s : S)
    (body : A -> S -> prog E (result S)) : prog E (result S) :=
  match l with
  | [] => Ret (Ok s)
  | a :: l' =>
      let* r := body a s in
      match r with
      | Ok s' => rangeLoop l' s' body
      | Err e => Ret (Err e)
      end
  end.

(** One recorded call: the event and the answer it received. *)
Inductive callRecord (E : Type -> Type) : Type :=
  | Call {X : Type} (e : E X) (x : X).
Arguments Call {E X} e x.

Definition trace (E : Type -> Type) := list (callRecord E).

(** The outside world: a state and the answer to every event. *)
Definition handler (E : Type -> Type) (W : Type) := forall X, E X -> W -> X * W.

(** Running a program against a world gives its value, the final world
    and the calls made, or nothing when the fuel ran out. *)
Fixpoint run {E A W} (h : handler E W) (p : prog E A) (w : W)
    : option (A * W * trace E) :=
  match p with
  | Ret a => Some (a, w, [])
  | Vis e k =>
      let (x, w1) := h _ e w in
      match run h (k x) w1 with
      | Some (a, w2, t) => Some (a, w2, Call e x :: t)
      | None => None
      end
  | OutOfFuel => None
  end.

(** Every event a program can issue, whatever the answers, satisfies [P]. *)
Fixpoint allEvents {E A} (P : forall X, E X -> Prop) (p : prog E A) : Prop :=
  match p with
  | Ret _ => True
  | Vis e k => P _ e /\ forall x, allEvents P (k x)
  | OutOfFuel => True
  end.

(** A program ends, with a value, world and trace that satisfy [Q]. *)
Definition outcome {E W A} (h : handler E W) (p : prog E A) (w : W)
    (Q : A -> W -> trace E -> Prop) : Prop :=
  exists a w' t, run h p w = Some (a, w', t) /\ Q a w' t.


(** ** Package [builder]: the local build executor *)
Module builder.

Definition pathTempRoot : string := "/tmp".
Definition pathBuildRoot : string := "/build".
Definition pathStdout : string := "/stdout".
Definition pathStderr : string := "/stderr".

(** Flags of [os.OpenFile] (Linux values) and the file type bits of
    [os.FileMode]. *)
Definition O_WRONLY : Z := 1.
Definition O_CREATE : Z := 64.
Definition O_EXCL : Z := 128.
Definition O_TRUNC : Z := 512.

Definition ModeDir : Z := Z.shiftl 1 31.
Definition ModeSymlink : Z := Z.shiftl 1 27.
Definition ModeDevice : Z := Z.shiftl 1 26.
Definition ModeNamedPipe : Z := Z.shiftl 1 25.
Definition ModeSocket : Z := Z.shiftl 1 24.
Definition ModeCharDevice : Z := Z.shiftl 1 21.
Definition ModeIrregular : Z := Z.shiftl 1 19.
Definition ModeType : Z :=
  Z.lor ModeDir (Z.lor ModeSymlink (Z.lor ModeNamedPipe (Z.lor ModeSocket
    (Z.lor ModeDevice (Z.lor ModeCharDevice ModeIrregular))))).

(** [os.FileInfo], as far as [uploadDirectory] reads it. *)
Record FileInfo := { FileInfo_Name : string; FileInfo_Mode : Z }.

(** An open [*os.File]. *)
Definition File := Z.

Record Credential := { Uid : Z; Gid : Z }.

(** [exec.Cmd], as [runCommand] fills it in.  [Path] is left out: it is
    [exec.Command] that chooses it, the name itself or, for a name without
    a path separator, what [LookPath] resolves the name to. *)
Record Cmd := {
  Cmd_Args : list string;
  Cmd_Env : list string;
  Cmd_Dir : string;
  Cmd_Stdout : option File;
  Cmd_Stderr : option File;
  Cmd_SysProcAttr : option Credential }.

(** [syscall.WaitStatus.ExitStatus] *)
Definition ExitStatus (ws : Z) : Z :=
  if (Z.land ws 127 =? 0)%Z then Z.land (Z.shiftr ws 8) 255 else (-1)%Z.

(** Conversion to [int32], with wrap-around. *)
Definition int32 (z : Z) : Z :=
  let m := (z mod 2 ^ 32)%Z in
  if (m <? 2 ^ 31)%Z then m else (m - 2 ^ 32)%Z.

(** The calls [local_build_executor.go] makes outside itself: the
    [cas.ContentAddressableStorage] interface, packages [os], [ioutil],
    [exec], [util], [time] and the duration histogram. *)
Inductive event : Type -> Type :=
  | GetAction (instance : string) (digest : option Digest) : event (result Action)
  | GetCommand (instance : string) (digest : option Digest) : event (result Command)
  | GetDirectory (instance : string) (digest : option Digest) : event (result Directory)
  | GetFile (instance : string) (digest : option Digest) (outputPath : string)
      (isExecutable : bool) : event (option error)
  | PutFile (instance : string) (path : string) : event (result (Digest * bool))
  | PutTree (instance : string) (tree : Tree) : event (result Digest)
  | os_Mkdir (name : string) (perm : Z) : event (option error)
  | os_MkdirAll (path : string) (perm : Z) : event (option error)
  | os_RemoveAll (path : string) : event (option error)
  | os_OpenFile (name : string) (flag perm : Z) : event (result File)
  | File_Close (f : File) : event (option error)
  | ioutil_ReadDir (dirname : string) : event (result (list FileInfo))
  | os_Readlink (name : string) : event (result string)
  | cmd_Run (cmd : Cmd) : event (option error)
  | util_DigestFromMessage (m : option Directory) : event (result Digest)
  | time_Now : event Z
  | Observe (step : string) (duration : Z) : event unit.

Definition M := prog event.

(** Modelled from the spec: [convertErrorToExecuteResponse] is declared in
    a file of package [builder] that is not among the sources.  The spec
    (sections 4.8 and 7) has staging and harvesting errors returned as they
    are and never wrapped into an ActionResult: the response carries the
    status of the error and no result. *)
Definition convertErrorToExecuteResponse (err : error) : ExecuteResponse :=
  {| Result := None;
     ResponseStatus := Some {| Code := status_Code err; Cause := err |} |}.

Definition joinPathSafe (elem : list string) : result string :=
  let joined := path.Join elem in
  if negb (String.eqb joined (path.Clean joined)) then
    Err (errorString ("Attempted to access non-clean path " ++ joined)%string)
  else Ok joined.

Fixpoint createInputDirectory (fuel : nat) (instance : string)
    (digest : option Digest) (base : string) : M (option error) :=
  match fuel with
  | 0 => OutOfFuel
  | S fuel' =>
    let* err := call (os_Mkdir base 511) in
    match err with Some err => Ret (Some err) | None =>
    let* r := call (GetDirectory instance digest) in
    match r with Err err => Ret (Some err) | Ok directory =>
    let* r := rangeLoop (Files directory) tt (fun file _ =>
      match joinPathSafe [base; FileNode_Name file] with
      | Err err => Ret (Err err)
      | Ok childPath =>
        let* err := call (GetFile instance (FileNode_Digest file) childPath
                            (FileNode_IsExecutable file)) in
        match err with Some err => Ret (Err err) | None => Ret (Ok tt) end
      end) in
    match r with Err err => Ret (Some err) | Ok _ =>
    let* r := rangeLoop (Directories directory) tt (fun directory _ =>
      match joinPathSafe [base; DirectoryNode_Name directory] with
      | Err err => Ret (Err err)
      | Ok childPath =>
        let* err := createInputDirectory fuel' instance
                      (DirectoryNode_Digest directory) childPath in
        match err with Some err => Ret (Err err) | None => Ret (Ok tt) end
      end) in
    match r with Err err => Ret (Some err) | Ok _ =>
    (* TODO(edsch): Create symlinks in the input root in a secure way. *)
    if (0 <? length (Symlinks directory))%nat then
      Ret (Some (errorString "Creating symlinks in the input root is not yet supported"))
    else Ret None
    end end end end
  end.

Definition prepareFilesystem (fuel : nat) (request : ExecuteRequest)
    (action : Action) (command : Command) : M (option error) :=
  (* Copy input files into build environment. *)
  let* _ := call (os_RemoveAll pathBuildRoot) in
  let* err := createInputDirectory fuel (InstanceName request)
                (InputRootDigest action) pathBuildRoot in
  match err with Some err => Ret (Some err) | None =>
  (* Ensure that directories where output files are stored are present. *)
  let* r := rangeLoop (OutputFiles command) tt (fun outputFile _ =>
    match joinPathSafe [pathBuildRoot; outputFile] with
    | Err err => Ret (Err err)
    | Ok outputPath =>
      let* err := call (os_MkdirAll (path.Dir outputPath) 511) in
      match err with Some err => Ret (Err err) | None => Ret (Ok tt) end
    end) in
  match r with Err err => Ret (Some err) | Ok _ =>
  (* Provide a clean temp directory. *)
  let* _ := call (os_RemoveAll pathTempRoot) in
  call (os_Mkdir pathTempRoot 511)
  end end.

Definition runCommand (command : Command) : M (option error) :=
  (* Prepare the command to run. *)
  match Arguments command with
  | [] => Ret (Some (errorString "Insufficent number of command arguments"))
  | arg0 :: args =>
    match joinPathSafe [pathBuildRoot; WorkingDirectory command] with
    | Err err => Ret (Some err)
    | Ok workingDirectory =>
      let env :=
        fold_left (fun env environmentVariable =>
                     env ++ [(Name environmentVariable ++ "=" ++ Value environmentVariable)%string])
          (EnvironmentVariables command) [("HOME=" ++ pathTempRoot)%string] in
      (* Output streams. *)
      let* r := call (os_OpenFile pathStdout (Z.lor (Z.lor O_WRONLY O_CREATE) O_TRUNC) 0) in
      match r with Err err => Ret (Some err) | Ok stdout =>
      let* r := call (os_OpenFile pathStderr (Z.lor (Z.lor O_WRONLY O_CREATE) O_TRUNC) 0) in
      match r with
      | Err err =>
        let* _ := call (File_Close stdout) in
        Ret (Some err)
      | Ok stderr =>
        let cmd := {| Cmd_Args := arg0 :: args;
                      Cmd_Env := env;
                      Cmd_Dir := workingDirectory;
                      Cmd_Stdout := Some stdout;
                      Cmd_Stderr := Some stderr;
                      Cmd_SysProcAttr := Some {| Uid := 1; Gid := 1 |} |} in
        let* err := call (cmd_Run cmd) in
        let* _ := call (File_Close stderr) in
        let* _ := call (File_Close stdout) in
        Ret err
      end end
    end
  end.

(** The map [children] is shared by the whole traversal: it is passed in
    and handed back. *)
Fixpoint uploadDirectory (fuel : nat) (instance : string) (basePath : string)
    (permitNonExistent : bool) (children : gmap string (option Directory))
    : M (result (option Directory * gmap string (option Directory))) :=
  match fuel with
  | 0 => OutOfFuel
  | S fuel' =>
    let* r := call (ioutil_ReadDir basePath) in
    match r with
    | Err err =>
      if permitNonExistent && os_IsNotExist err then Ret (Ok (None, children))
      else Ret (Err err)
    | Ok files =>
      let* r := rangeLoop files
        ({| Files := []; Directories := []; Symlinks := [] |}, children)
        (fun file '(directory, children) =>
          let name := FileInfo_Name file in
          let fullPath := path.Join [basePath; name] in
          let t := Z.land (FileInfo_Mode file) ModeType in
          if (t =? 0)%Z then
            let* r := call (PutFile instance fullPath) in
            match r with Err err => Ret (Err err) | Ok (digest, isExecutable) =>
            Ret (Ok ({| Files := Files directory ++
                          [{| FileNode_Name := name;
                              FileNode_Digest := Some digest;
                              FileNode_IsExecutable := isExecutable |}];
                        Directories := Directories directory;
                        Symlinks := Symlinks directory |}, children))
            end
          else if (t =? ModeDir)%Z then
            let* r := uploadDirectory fuel' instance fullPath false children in
            match r with Err err => Ret (Err err) | Ok (child, children) =>
            let* r := call (util_DigestFromMessage child) in
            match r with Err err => Ret (Err err) | Ok digest =>
            Ret (Ok ({| Files := Files directory;
                        Directories := Directories directory ++
                          [{| DirectoryNode_Name := name;
                              DirectoryNode_Digest := Some digest |}];
                        Symlinks := Symlinks directory |},
                     <[Hash digest := child]> children))
            end end
          else if (t =? ModeSymlink)%Z then
            let* r := call (os_Readlink fullPath) in
            match r with Err err => Ret (Err err) | Ok target =>
            Ret (Ok ({| Files := Files directory;
                        Directories := Directories directory;
                        Symlinks := Symlinks directory ++
                          [{| SymlinkNode_Name := name;
                              SymlinkNode_Target := target |}] |}, children))
            end
          else
            Ret (Err (errorString ("Path " ++ basePath ++ " has an unsupported file type")%string))) in
      match r with
      | Err err => Ret (Err err)
      | Ok (directory, children) => Ret (Ok (Some directory, children))
      end
    end
  end.

(** [for _, child := range children] visits the map in an order Go leaves
    unspecified; the model takes the order of [map_to_list]. *)
Definition uploadTree (fuel : nat) (instance : string) (path : string)
    : M (result (option Digest)) :=
  (* Gather all individual directory objects and turn them into a tree. *)
  let* r := uploadDirectory fuel instance path true ∅ in
  match r with
  | Err err => Ret (Err err)
  | Ok (None, _) => Ret (Ok None)
  | Ok (Some root, children) =>
    let tree := {| Root := Some root;
                   Children := map snd (map_to_list children) |} in
    let* r := call (PutTree instance tree) in
    match r with Err err => Ret (Err err) | Ok digest => Ret (Ok (Some digest)) end
  end.

Definition Execute (fuel : nat) (request : ExecuteRequest)
    : M (ExecuteResponse * bool) :=
  let* timeStart := call time_Now in
  (* Fetch action and command. *)
  let* r := call (GetAction (InstanceName request) (ActionDigest request)) in
  match r with Err err => Ret (convertErrorToExecuteResponse err, false) | Ok action =>
  let* r := call (GetCommand (InstanceName request) (CommandDigest action)) in
  match r with Err err => Ret (convertErrorToExecuteResponse err, false) | Ok command =>
  let* timeAfterGetActionCommand := call time_Now in
  let* _ := call (Observe "get_action_command" (timeAfterGetActionCommand - timeStart)%Z) in
  (* Set up inputs. *)
  let* err := prepareFilesystem fuel request action command in
  match err with Some err => Ret (convertErrorToExecuteResponse err, false) | None =>
  let* timeAfterPrepareFilesytem := call time_Now in
  let* _ := call (Observe "prepare_filesystem"
                    (timeAfterPrepareFilesytem - timeAfterGetActionCommand)%Z) in
  (* Invoke command. *)
  let* err := runCommand command in
  match (match err with
         | None => Ok 0%Z
         | Some (ExitError waitStatus) => Ok (ExitStatus waitStatus)
         | Some err => Err err
         end) with
  | Err err => Ret (convertErrorToExecuteResponse err, false)
  | Ok exitCode =>
  let* timeAfterRunCommand := call time_Now in
  let* _ := call (Observe "run_command"
                    (timeAfterRunCommand - timeAfterPrepareFilesytem)%Z) in
  (* Upload command output. *)
  let* r := call (PutFile (InstanceName request) pathStdout) in
  match r with Err err => Ret (convertErrorToExecuteResponse err, false) | Ok (stdoutDigest, _) =>
  let* r := call (PutFile (InstanceName request) pathStderr) in
  match r with Err err => Ret (convertErrorToExecuteResponse err, false) | Ok (stderrDigest, _) =>
  let result := {| ResultOutputFiles := [];
                   ResultOutputDirectories := [];
                   ExitCode := int32 exitCode;
                   StdoutDigest := Some stdoutDigest;
                   StderrDigest := Some stderrDigest |} in
  (* Upload output files. *)
  let* r := rangeLoop (OutputFiles command) result (fun outputFile result =>
    match joinPathSafe [pathBuildRoot; outputFile] with
    | Err err => Ret (Err err)
    | Ok outputPath =>
      let* r := call (PutFile (InstanceName request) outputPath) in
      match r with
      | Err err => if os_IsNotExist err then Ret (Ok result) else Ret (Err err)
      | Ok (digest, isExecutable) =>
        Ret (Ok {| ResultOutputFiles := ResultOutputFiles result ++
                     [{| OutputFile_Path := outputFile;
                         OutputFile_Digest := Some digest;
                         OutputFile_IsExecutable := isExecutable |}];
                   ResultOutputDirectories := ResultOutputDirectories result;
                   ExitCode := ExitCode result;
                   StdoutDigest := StdoutDigest result;
                   StderrDigest := StderrDigest result |})
      end
    end) in
  match r with Err err => Ret (convertErrorToExecuteResponse err, false) | Ok result =>
  (* Upload output directories. *)
  let* r := rangeLoop (OutputDirectories command) result (fun outputDirectory result =>
    match joinPathSafe [pathBuildRoot; outputDirectory] with
    | Err err => Ret (Err err)
    | Ok outputPath =>
      let* r := uploadTree fuel (InstanceName request) outputPath in
      match r with
      | Err err => Ret (Err err)
      | Ok None => Ret (Ok result)
      | Ok (Some digest) =>
        Ret (Ok {| ResultOutputFiles := ResultOutputFiles result;
                   ResultOutputDirectories := ResultOutputDirectories result ++
                     [{| OutputDirectory_Path := outputDirectory;
                         OutputDirectory_TreeDigest := Some digest |}];
                   ExitCode := ExitCode result;
                   StdoutDigest := StdoutDigest result;
                   StderrDigest := StderrDigest result |})
      end
    end) in
  match r with Err err => Ret (convertErrorToExecuteResponse err, false) | Ok result =>
  let* timeAfterUpload := call time_Now in
  let* _ := call (Observe "upload_output" (timeAfterUpload - timeAfterRunCommand)%Z) in
  Ret ({| Result := Some result; ResponseStatus := None |},
       negb (DoNotCache action) && (ExitCode result =? 0)%Z)
  end end end end end end end end.

End builder.


(** *** What a trace of the executor shows *)
Module observe.
Import builder.

(** The processes spawned, each with what running it returned. *)
Definition spawned (c : callRecord event) : option (Cmd * option error) :=
  match c with
  | Call e x =>
      match e in event X return X -> option (Cmd * option error) with
      | cmd_Run cmd => fun x => Some (cmd, x)
      | _ => fun _ => None
      end x
  end.

(** The answers of the CAS to [GetAction] and to [GetCommand]. *)
Definition fetchedAction (c : callRecord event) : option (result Action) :=
  match c with
  | Call e x =>
      match e in event X return X -> option (result Action) with
      | GetAction _ _ => fun x => Some x
      | _ => fun _ => None
      end x
  end.

Definition fetchedCommand (c : callRecord event) : option (result Command) :=
  match c with
  | Call e x =>
      match e in event X return X -> option (result Command) with
      | GetCommand _ _ => fun x => Some x
      | _ => fun _ => None
      end x
  end.

(** The uploads of single files: path and answer. *)
Definition putFile (c : callRecord event)
    : option (string * result (Digest * bool)) :=
  match c with
  | Call e x =>
      match e in event X return X -> option (string * result (Digest * bool)) with
      | PutFile _ p => fun x => Some (p, x)
      | _ => fun _ => None
      end x
  end.

Definition spawns (t : trace event) := omap spawned t.
Definition fetchedActions (t : trace event) := omap fetchedAction t.
Definition fetchedCommands (t : trace event) := omap fetchedCommand t.
Definition putFiles (t : trace event) := omap putFile t.

(** Events of the staging code: no process, no upload, no fetch of the
    action or the command. *)
Definition staging (X : Type) (e : event X) : Prop :=
  match e with
  | cmd_Run _ | GetAction _ _ | GetCommand _ _ | PutFile _ _ => False
  | _ => True
  end.

(** Events of the harvesting code: uploads, but no process and no fetch. *)
Definition quiet (X : Type) (e : event X) : Prop :=
  match e with
  | cmd_Run _ | GetAction _ _ | GetCommand _ _ => False
  | _ => True
  end.

(** Events of [runCommand]: no upload, no fetch of action or command. *)
Definition local (X : Type) (e : event X) : Prop :=
  match e with
  | PutFile _ _ | GetAction _ _ | GetCommand _ _ => False
  | _ => True
  end.

(** The error a call came back with, if any. *)
Definition answeredError (c : callRecord event) : option error :=
  let ofResult {A} (r : result A) :=
    match r with Err e => Some e | Ok _ => None end in
  match c with
  | Call e x =>
      match e in event X return X -> option error with
      | GetAction _ _ => ofResult
      | GetCommand _ _ => ofResult
      | GetDirectory _ _ => ofResult
      | GetFile _ _ _ _ => fun x => x
      | PutFile _ _ => ofResult
      | PutTree _ _ => ofResult
      | os_Mkdir _ _ => fun x => x
      | os_MkdirAll _ _ => fun x => x
      | os_RemoveAll _ => fun x => x
      | os_OpenFile _ _ _ => ofResult
      | File_Close _ => fun x => x
      | ioutil_ReadDir _ => ofResult
      | os_Readlink _ => ofResult
      | cmd_Run _ => fun x => x
      | util_DigestFromMessage _ => ofResult
      | time_Now => fun _ => None
      | Observe _ _ => fun _ => None
      end x
  end.

Definition answeredErrors (t : trace event) := omap answeredError t.

(** The input tree as the CAS serves it, [getDir] being its answer to
    [GetDirectory]: the tree under [d] has fewer than [n] levels, and one
    of its directories has symlinks. *)
Fixpoint finiteTree (getDir : option Digest -> result Directory) (n : nat)
    (d : option Digest) : Prop :=
  match n with
  | 0 => False
  | S n' =>
      match getDir d with
      | Ok D => Forall (fun c => finiteTree getDir n' (DirectoryNode_Digest c))
                  (Directories D)
      | Err _ => True
      end
  end.

Fixpoint hasSymlinks (getDir : option Digest -> result Directory) (n : nat)
    (d : option Digest) : Prop :=
  match n with
  | 0 => False
  | S n' =>
      match getDir d with
      | Ok D => Symlinks D <> [] \/
                Exists (fun c => hasSymlinks getDir n' (DirectoryNode_Digest c))
                  (Directories D)
      | Err _ => False
      end
  end.

(** What the harvest makes of a declared output, [putAns] and [dirAns]
    being the answers of [PutFile] and of [ReadDir] for a path. *)
Definition harvestedFile (putAns : string -> result (Digest * bool))
    (outputFile : string) : option OutputFile :=
  match putAns (path.Join [pathBuildRoot; outputFile]) with
  | Ok (digest, isExecutable) =>
      Some {| OutputFile_Path := outputFile;
              OutputFile_Digest := Some digest;
              OutputFile_IsExecutable := isExecutable |}
  | Err _ => None
  end.

Definition fileAborts (putAns : string -> result (Digest * bool))
    (outputFile : string) : bool :=
  match putAns (path.Join [pathBuildRoot; outputFile]) with
  | Ok _ => false
  | Err e => negb (os_IsNotExist e)
  end.

Definition dirMissing (dirAns : string -> result (list FileInfo))
    (outputDirectory : string) : bool :=
  match dirAns (path.Join [pathBuildRoot; outputDirectory]) with
  | Ok _ => false
  | Err e => os_IsNotExist e
  end.

Definition isOk {A} (r : result A) : bool :=
  match r with Ok _ => true | Err _ => false end.

Definition symlinkError : error :=
  errorString "Creating symlinks in the input root is not yet supported".

(** The environment [runCommand] gives the child. *)
Definition childEnv (command : Command) : list string :=
  ("HOME=" ++ pathTempRoot)%string ::
  map (fun v => (Name v ++ "=" ++ Value v)%string) (EnvironmentVariables command).

(** What [runCommand] hands to [cmd.Run], when it gets that far. *)
Definition commandOf (command : Command) (cmd : Cmd) : Prop :=
  Cmd_Args cmd = Arguments command /\
  Cmd_Env cmd = childEnv command /\
  Cmd_Dir cmd = path.Join [pathBuildRoot; WorkingDirectory command] /\
  Cmd_SysProcAttr cmd = Some {| Uid := 1; Gid := 1 |}.

Definition noArguments : error :=
  errorString "Insufficent number of command arguments".

(** The harvesting stage was entered with exit code [exitCode]: the
    first upload is that of the stdout file, and the response is either an
    error response or the ActionResult with that exit code. *)
Definition harvested (action : Action) (exitCode : Z)
    (resp : ExecuteResponse) (cacheable : bool) (t : trace event) : Prop :=
  (exists r rest, putFiles t = (pathStdout, r) :: rest) /\
  ((exists e, resp = convertErrorToExecuteResponse e /\ cacheable = false) \/
   (exists R, resp = {| Result := Some R; ResponseStatus := None |} /\
              ExitCode R = int32 exitCode /\
              cacheable = negb (DoNotCache action) && (ExitCode R =? 0)%Z)).

(** What [Execute] does with the value [runCommand] returned. *)
Definition afterRun (action : Action) (err : option error)
    (resp : ExecuteResponse) (cacheable : bool) (t : trace event) : Prop :=
  match err with
  | None => harvested action 0 resp cacheable t
  | Some (ExitError ws) => harvested action (ExitStatus ws) resp cacheable t
  | Some e =>
      resp = convertErrorToExecuteResponse e /\ cacheable = false /\ putFiles t = []
  end.

Definition failed (e : error) (resp : ExecuteResponse) (cacheable : bool)
    (t : trace event) : Prop :=
  resp = convertErrorToExecuteResponse e /\ cacheable = false /\
  spawns t = [] /\ putFiles t = [].

(** One round of the loop over the declared output files, and one of the
    loop over the declared output directories. *)
Definition fileRound (putAns : string -> result (Digest * bool)) (f : string) (s : ActionResult) (r : result ActionResult) : Prop :=
  match r with
  | Ok s' =>
      fileAborts putAns f = false /\
      ResultOutputFiles s' =
        ResultOutputFiles s ++
        match harvestedFile putAns f with Some x => [x] | None => [] end /\
      ResultOutputDirectories s' = ResultOutputDirectories s
  | Err _ => fileAborts putAns f = true
  end.

Definition dirRound (dirAns : string -> result (list FileInfo)) (d : string) (s : ActionResult) (r : result ActionResult) : Prop :=
  match r with
  | Ok s' =>
      ResultOutputFiles s' = ResultOutputFiles s /\
      map OutputDirectory_Path (ResultOutputDirectories s') =
        map OutputDirectory_Path (ResultOutputDirectories s) ++
        (if dirMissing dirAns d then [] else [d])
  | Err _ => dirMissing dirAns d = false
  end.

End observe.

(** *** A scripted world for the executor

    What the CAS holds and what is on the disk once the command has run
    are fixed by a [Setup]: actions, commands and directories by digest
    hash, the answers of [PutFile] and [ReadDir] by path, and what running
    the command returns.  The state of the world is its clock. *)
Module script.
Import builder.

Record Setup := {
  s_actions : list (string * Action);
  s_commands : list (string * Command);
  s_directories : list (string * Directory);
  s_files : list (string * (Digest * bool));
  s_dirs : list (string * list FileInfo);
  s_exit : option error }.

Fixpoint lookup {A} (k : string) (l : list (string * A)) : option A :=
  match l with
  | [] => None
  | (k', a) :: l' => if String.eqb k k' then Some a else lookup k l'
  end.

Definition hashOf (d : option Digest) : string :=
  match d with Some d => Hash d | None => "" end.

Definition fetch {A} (tbl : list (string * A)) (d : option Digest) : result A :=
  match lookup (hashOf d) tbl with
  | Some a => Ok a
  | None => Err (statusError codes.NotFound "Blob not found")
  end.

Definition onDisk {A} (tbl : list (string * A)) (p : string) : result A :=
  match lookup p tbl with
  | Some a => Ok a
  | None => Err (PathError "open" p ENOENT)
  end.

Definition answer (s : Setup) : handler event Z :=
  fun X e =>
    match e in event X return Z -> X * Z with
    | GetAction _ d => fun w => (fetch (s_actions s) d, w)
    | GetCommand _ d => fun w => (fetch (s_commands s) d, w)
    | GetDirectory _ d => fun w => (fetch (s_directories s) d, w)
    | GetFile _ _ _ _ => fun w => (None, w)
    | PutFile _ p => fun w => (onDisk (s_files s) p, w)
    | PutTree _ _ => fun w => (Ok {| Hash := "tree"; SizeBytes := 1 |}, w)
    | os_Mkdir _ _ => fun w => (None, w)
    | os_MkdirAll _ _ => fun w => (None, w)
    | os_RemoveAll _ => fun w => (None, w)
    | os_OpenFile _ _ _ => fun w => (Ok 3%Z, w)
    | File_Close _ => fun w => (None, w)
    | ioutil_ReadDir p => fun w => (onDisk (s_dirs s) p, w)
    | os_Readlink p => fun w => (Err (PathError "readlink" p ENOENT), w)
    | cmd_Run _ => fun w => (s_exit s, w)
    | util_DigestFromMessage _ => fun w => (Ok {| Hash := "dir"; SizeBytes := 1 |}, w)
    | time_Now => fun w => (w, (w + 1)%Z)
    | Observe _ _ => fun w => (tt, w)
    end.

Definition digestOf (h : string) : Digest := {| Hash := h; SizeBytes := 1 |}.

Definition request : ExecuteRequest :=
  {| InstanceName := "main"; ActionDigest := Some (digestOf "action") |}.

Definition action (doNotCache : bool) : Action :=
  {| CommandDigest := Some (digestOf "command");
     InputRootDigest := Some (digestOf "root");
     DoNotCache := doNotCache |}.

Definition command (args outputFiles outputDirectories : list string) : Command :=
  {| Arguments := args;
     EnvironmentVariables := [{| Name := "PATH"; Value := "/bin" |};
                              {| Name := "LANG"; Value := "C" |}];
     OutputFiles := outputFiles;
     OutputDirectories := outputDirectories;
     WorkingDirectory := "" |}.

Definition emptyDirectory : Directory :=
  {| Files := []; Directories := []; Symlinks := [] |}.

(** The setup for one action: its command, its input root, the disk after
    the command ran and what running it returned. *)
Definition setup (a : Action) (c : Command) (root : Directory)
    (files : list (string * (Digest * bool)))
    (dirs : list (string * list FileInfo)) (exit : option error) : Setup :=
  {| s_actions := [("action", a)];
     s_commands := [("command", c)];
     s_directories := [("root", root)];
     s_files := ("/stdout", (digestOf "out", false))
                :: ("/stderr", (digestOf "err", false)) :: files;
     s_dirs := dirs;
     s_exit := exit |}.

(** /bin/cp in.txt out.txt, declaring out.txt, missing.txt and the
    directory nodir; only out.txt is there afterwards. *)
Definition copy : Command :=
  command ["/bin/cp"; "in.txt"; "out.txt"] ["out.txt"; "missing.txt"] ["nodir"].

Definition copied (exit : option error) : Setup :=
  setup (action false) copy emptyDirectory
    [("/build/out.txt", (digestOf "hello", false))] [] exit.

(** The same command with an input root that holds a symlink. *)
Definition linked : Setup :=
  setup (action false) copy
    {| Files := []; Directories := [];
       Symlinks := [{| SymlinkNode_Name := "lib"; SymlinkNode_Target := "/usr/lib" |}] |}
    [] [] None.

(** A command with no arguments. *)
Definition argless : Setup :=
  setup (action false) (command [] [] []) emptyDirectory [] [] None.

End script.

(** ** Streams

    An [io.ReadCloser] is modelled by what reading it to the end gives:
    the bytes it delivers and the error, if any, that ends it. *)
Record ReadCloser := { content : list Byte.byte; failure : option error }.

(** [ioutil.ReadAll] *)
Definition ioutil_ReadAll (r : ReadCloser) : result (list Byte.byte) :=
  match failure r with
  | Some err => Err err
  | None => Ok (content r)
  end.

(** [ioutil.NopCloser(bytes.NewBuffer(data))] *)
Definition NopCloser (data : list Byte.byte) : ReadCloser :=
  {| content := data; failure := None |}.

(** ** Package [ac]: the action cache over a BlobAccess *)
Module ac.

Inductive event : Type -> Type :=
  | BlobAccess_Get (instance : string) (digest : option Digest) : event ReadCloser
  | BlobAccess_Put (instance : string) (digest : option Digest) (sizeBytes : Z)
      (r : ReadCloser) : event (option error)
  | ReadCloser_Close (r : ReadCloser) : event (option error).

Section codec.
(** [proto.Marshal] and [proto.Unmarshal] for ActionResult messages. *)
Variable proto_Marshal : ActionResult -> result (list Byte.byte).
Variable proto_Unmarshal : list Byte.byte -> result ActionResult.

Definition GetActionResult (instance : string) (digest : option Digest)
    : prog event (result ActionResult) :=
  let* r := call (BlobAccess_Get instance digest) in
  let data := ioutil_ReadAll r in
  let* _ := call (ReadCloser_Close r) in
  match data with
  | Err err => Ret (Err err)
  | Ok data =>
    match proto_Unmarshal data with
    | Err err => Ret (Err err)
    | Ok actionResult => Ret (Ok actionResult)
    end
  end.

Definition PutActionResult (instance : string) (digest : option Digest)
    (result : ActionResult) : prog event (option error) :=
  match proto_Marshal result with
  | Err err => Ret (Some err)
  | Ok data =>
    call (BlobAccess_Put instance digest (Z.of_nat (length data)) (NopCloser data))
  end.

End codec.

(** A store for trying the cache out: blobs by instance and hash. *)
Definition Store := list (string * string * list Byte.byte).

Fixpoint find (instance hash : string) (s : Store) : option (list Byte.byte) :=
  match s with
  | [] => None
  | (i, k, data) :: s' =>
      if String.eqb i instance && String.eqb k hash then Some data
      else find instance hash s'
  end.

Definition hashOf (d : option Digest) : string :=
  match d with Some d => Hash d | None => "" end.

Definition memory : handler event Store :=
  fun X e =>
    match e in event X return Store -> X * Store with
    | BlobAccess_Get i d => fun s =>
        (match find i (hashOf d) s with
         | Some data => NopCloser data
         | None => {| content := [];
                      failure := Some (statusError codes.NotFound "Blob not found") |}
         end, s)
    | BlobAccess_Put i d _ r => fun s =>
        (match ioutil_ReadAll r with
         | Ok data => (None, (i, hashOf d, data) :: s)
         | Err err => (Some err, s)
         end)
    | ReadCloser_Close _ => fun s => (None, s)
    end.

(** A codec for trying the cache out: it serialises the results that
    carry an exit code and nothing else, the exit code in unary. *)
Definition unaryMarshal (r : ActionResult) : result (list Byte.byte) :=
  match r with
  | {| ResultOutputFiles := []; ResultOutputDirectories := [];
       ExitCode := z; StdoutDigest := None; StderrDigest := None |} =>
      if (0 <=? z)%Z then Ok (repeat Byte.x00 (Z.to_nat z))
      else Err (errorString "negative exit code")
  | _ => Err (errorString "unsupported message")
  end.

Definition unaryUnmarshal (data : list Byte.byte) : result ActionResult :=
  Ok {| ResultOutputFiles := []; ResultOutputDirectories := [];
        ExitCode := Z.of_nat (length data);
        StdoutDigest := None; StderrDigest := None |}.

(** An ActionResult with exit code 1 and nothing else. *)
Definition exitOne : ActionResult :=
  {| ResultOutputFiles := []; ResultOutputDirectories := [];
     ExitCode := 1; StdoutDigest := None; StderrDigest := None |}.

End ac.

(** ** Package [builder]: the input file exposer over a BlobAccess *)
Module exposer.

Definition File := Z.

Inductive event : Type -> Type :=
  | os_OpenFile (name : string) (flag perm : Z) : event (result File)
  | BlobAccess_Get (instance : string) (digest : option Digest)
      : event (result ReadCloser)
  | io_Copy (dst : File) (src : ReadCloser) : event (Z * option error)
  | File_Close (f : File) : event (option error).

Definition Expose (instance : string) (digest : option Digest)
    (outputPath : string) (isExecutable : bool) : prog event (option error) :=
  let mode : Z := if isExecutable then 365%Z (* 0555 *) else 292%Z (* 0444 *) in
  let* r := call (os_OpenFile outputPath
                    (Z.lor (Z.lor builder.O_WRONLY builder.O_CREATE) builder.O_EXCL)
                    mode) in
  match r with Err err => Ret (Some err) | Ok f =>
  (* TODO(edsch): Translate NOT_FOUND to INVALID_PRECONDITION? *)
  let* r := call (BlobAccess_Get instance digest) in
  match r with
  | Err err =>
    let* _ := call (File_Close f) in
    Ret (Some err)
  | Ok r =>
    let* (_, err) := call (io_Copy f r) in
    let* _ := call (File_Close f) in
    Ret err
  end end.

(** A disk for trying the exposer out: files with mode and contents, the
    files open for writing, and the blobs of the CAS. *)
Record Disk := {
  files : list (string * (Z * list Byte.byte));
  opened : list (File * string);
  blobs : list (string * list Byte.byte) }.

Fixpoint lookup {K A} (eqb : K -> K -> bool) (k : K) (l : list (K * A)) : option A :=
  match l with
  | [] => None
  | (k', a) :: l' => if eqb k k' then Some a else lookup eqb k l'
  end.

Fixpoint write (name : string) (data : list Byte.byte)
    (l : list (string * (Z * list Byte.byte))) : list (string * (Z * list Byte.byte)) :=
  match l with
  | [] => []
  | (k, (mode, old)) :: l' =>
      if String.eqb name k then (k, (mode, old ++ data)) :: l'
      else (k, (mode, old)) :: write name data l'
  end.

Definition present (d : Disk) (name : string) : Prop :=
  lookup String.eqb name (files d) <> None.

Definition disk : handler event Disk :=
  fun X e =>
    match e in event X return Disk -> X * Disk with
    | os_OpenFile name flag perm => fun d =>
        match lookup String.eqb name (files d) with
        | Some _ =>
            if Z.testbit flag 6 && Z.testbit flag 7
            then (Err (PathError "open" name EEXIST), d)
            else let f := Z.of_nat (length (opened d)) in
                 (Ok f, {| files := files d; opened := (f, name) :: opened d;
                           blobs := blobs d |})
        | None =>
            if Z.testbit flag 6
            then let f := Z.of_nat (length (opened d)) in
                 (Ok f, {| files := (name, (perm, [])) :: files d;
                           opened := (f, name) :: opened d; blobs := blobs d |})
            else (Err (PathError "open" name ENOENT), d)
        end
    | BlobAccess_Get _ digest => fun d =>
        (match lookup String.eqb (ac.hashOf digest) (blobs d) with
         | Some data => Ok (NopCloser data)
         | None => Err (statusError codes.NotFound "Blob not found")
         end, d)
    | io_Copy dst src => fun d =>
        match lookup Z.eqb dst (opened d) with
        | Some name =>
            (Z.of_nat (length (content src)), failure src,
             {| files := write name (content src) (files d);
                opened := opened d; blobs := blobs d |})
        | None => (0%Z, Some (PathError "write" "" 9%Z), d)
        end
    | File_Close _ => fun d => (None, d)
    end.

(** A disk on which /build/in.txt exists. *)
Definition fullDisk : Disk :=
  {| files := [("/build/in.txt", (292%Z, [Byte.x68; Byte.x69]))];
     opened := [];
     blobs := [("hello", [Byte.x68; Byte.x65; Byte.x6c; Byte.x6c; Byte.x6f])] |}.

End exposer.

(** The rounds of a loop, each related to its state before and after by
    [R]: the loop ends with the state of its last round, or with the first
    error. *)
Inductive rounds {A S : Type} (R : A -> S -> result S -> Prop)
    : list A -> S -> result S -> Prop :=
  | rounds_nil s : rounds R [] s (Ok s)
  | rounds_ok a l s s1 r :
      R a s (Ok s1) -> rounds R l s1 r -> rounds R (a :: l) s r
  | rounds_err a l s e :
      R a s (Err e) -> rounds R (a :: l) s (Err e).

(** *** What else a trace of the executor shows *)
Module calls.
Import builder.

(** The files opened with success: name, flags, permissions and the file. *)
Definition opened (c : callRecord event) : option (string * Z * Z * File) :=
  match c with
  | Call e x =>
      match e in event X return X -> option (string * Z * Z * File) with
      | os_OpenFile name flag perm =>
          fun x => match x with Ok f => Some (name, flag, perm, f) | Err _ => None end
      | _ => fun _ => None
      end x
  end.

(** The files closed. *)
Definition closed (c : callRecord event) : option File :=
  match c with
  | Call e x =>
      match e in event X return X -> option File with
      | File_Close f => fun _ => Some f
      | _ => fun _ => None
      end x
  end.

(** The paths removed with [os.RemoveAll]. *)
Definition removed (c : callRecord event) : option string :=
  match c with
  | Call e x =>
      match e in event X return X -> option string with
      | os_RemoveAll p => fun _ => Some p
      | _ => fun _ => None
      end x
  end.

(** The directories made with [os.Mkdir] and with [os.MkdirAll], each with
    its permissions. *)
Definition madeDir (c : callRecord event) : option (string * Z) :=
  match c with
  | Call e x =>
      match e in event X return X -> option (string * Z) with
      | os_Mkdir name perm => fun _ => Some (name, perm)
      | _ => fun _ => None
      end x
  end.

Definition madeAll (c : callRecord event) : option (string * Z) :=
  match c with
  | Call e x =>
      match e in event X return X -> option (string * Z) with
      | os_MkdirAll p perm => fun _ => Some (p, perm)
      | _ => fun _ => None
      end x
  end.

(** The input files fetched with [GetFile]: digest, path, executable bit. *)
Definition gotFile (c : callRecord event) : option (option Digest * string * bool) :=
  match c with
  | Call e x =>
      match e in event X return X -> option (option Digest * string * bool) with
      | GetFile _ digest outputPath isExecutable =>
          fun _ => Some (digest, outputPath, isExecutable)
      | _ => fun _ => None
      end x
  end.

(** The steps whose duration was observed. *)
Definition observation (c : callRecord event) : option string :=
  match c with
  | Call e x =>
      match e in event X return X -> option string with
      | Observe step _ => fun _ => Some step
      | _ => fun _ => None
      end x
  end.

(** The trees uploaded with [PutTree]. *)
Definition putTree (c : callRecord event) : option Tree :=
  match c with
  | Call e x =>
      match e in event X return X -> option Tree with
      | PutTree _ tree => fun _ => Some tree
      | _ => fun _ => None
      end x
  end.

Definition opens (t : trace event) := omap opened t.
Definition closes (t : trace event) := omap closed t.
Definition removals (t : trace event) := omap removed t.
Definition madeDirs (t : trace event) := omap madeDir t.
Definition madeParents (t : trace event) := omap madeAll t.
Definition gotFiles (t : trace event) := omap gotFile t.
Definition observations (t : trace event) := omap observation t.
Definition putTrees (t : trace event) := omap putTree t.

(** Classes of events, by what they leave alone. *)
Definition keeps (X : Type) (e : event X) : Prop :=
  match e with os_RemoveAll _ => False | _ => True end.

Definition unopened (X : Type) (e : event X) : Prop :=
  match e with os_OpenFile _ _ _ | File_Close _ => False | _ => True end.

Definition unmeasured (X : Type) (e : event X) : Prop :=
  match e with Observe _ _ => False | _ => True end.

Definition unstaged (X : Type) (e : event X) : Prop :=
  match e with
  | os_Mkdir _ _ | os_MkdirAll _ _ | GetFile _ _ _ _ => False
  | _ => True
  end.

Definition untreed (X : Type) (e : event X) : Prop :=
  match e with PutTree _ _ => False | _ => True end.

Definition unparented (X : Type) (e : event X) : Prop :=
  match e with os_MkdirAll _ _ => False | _ => True end.

(** The files of the input tree under [d], [n] levels deep, each with the
    path at which staging under [base] puts it: the files of a directory
    first, then its subdirectories in turn. *)
Fixpoint inputFiles (getDir : option Digest -> result Directory) (n : nat)
    (d : option Digest) (base : string) : list (option Digest * string * bool) :=
  match n with
  | 0 => []
  | S n' =>
      match getDir d with
      | Ok D =>
          map (fun f => (FileNode_Digest f, path.Join [base; FileNode_Name f],
                         FileNode_IsExecutable f)) (Files D) ++
          flat_map (fun c => inputFiles getDir n' (DirectoryNode_Digest c)
                               (path.Join [base; DirectoryNode_Name c]))
            (Directories D)
      | Err _ => []
      end
  end.

(** The directories of that tree, each with the permissions it is made
    with, a directory before its subdirectories. *)
Fixpoint inputDirs (getDir : option Digest -> result Directory) (n : nat)
    (d : option Digest) (base : string) : list (string * Z) :=
  match n with
  | 0 => []
  | S n' =>
      (base, 511%Z) ::
      match getDir d with
      | Ok D =>
          flat_map (fun c => inputDirs getDir n' (DirectoryNode_Digest c)
                               (path.Join [base; DirectoryNode_Name c]))
            (Directories D)
      | Err _ => []
      end
  end.

(** The parent directory of a declared output file, as staging makes it. *)
Definition outputParent (outputFile : string) : string * Z :=
  (path.Dir (path.Join [pathBuildRoot; outputFile]), 511%Z).

(** The type bits of a directory entry, and the three types
    [uploadDirectory] takes. *)
Definition fileType (file : FileInfo) : Z := Z.land (FileInfo_Mode file) ModeType.
Definition isRegular (file : FileInfo) : bool := (fileType file =? 0)%Z.
Definition isDir (file : FileInfo) : bool := (fileType file =? ModeDir)%Z.
Definition isSymlink (file : FileInfo) : bool := (fileType file =? ModeSymlink)%Z.
Definition supported (file : FileInfo) : bool :=
  isRegular file || isDir file || isSymlink file.

(** One round of the loop of [uploadDirectory] over the entries: the
    entry is of a type it takes, and its name is added to the list of its
    kind. *)
Definition entryRound (file : FileInfo)
    (s : Directory * gmap string (option Directory))
    (r : result (Directory * gmap string (option Directory))) : Prop :=
  match r with
  | Ok s' =>
      supported file = true /\
      map FileNode_Name (Files (fst s')) =
        map FileNode_Name (Files (fst s)) ++
        (if isRegular file then [FileInfo_Name file] else []) /\
      map DirectoryNode_Name (Directories (fst s')) =
        map DirectoryNode_Name (Directories (fst s)) ++
        (if isDir file then [FileInfo_Name file] else []) /\
      map SymlinkNode_Name (Symlinks (fst s')) =
        map SymlinkNode_Name (Symlinks (fst s)) ++
        (if isSymlink file then [FileInfo_Name file] else [])
  | Err _ => True
  end.

(** Every DirectoryNode of [D] has a digest under whose hash [children]
    holds a directory. *)
Definition named (children : gmap string (option Directory)) (D : Directory) : Prop :=
  Forall (fun n => exists d, DirectoryNode_Digest n = Some d /\
                             is_Some (children !! Hash d))
    (Directories D).

(** Every directory held by [children] has its own subdirectories in
    [children]. *)
Definition closedMap (children : gmap string (option Directory)) : Prop :=
  forall k D, children !! k = Some (Some D) -> named children D.

(** [children'] holds a directory under every hash under which [children]
    holds one. *)
Definition grown (children children' : gmap string (option Directory)) : Prop :=
  forall k, is_Some (children !! k) -> is_Some (children' !! k).

(** The flags with which [runCommand] opens the output streams. *)
Definition streamFlags : Z := Z.lor (Z.lor O_WRONLY O_CREATE) O_TRUNC.

(** The steps of [Execute], as it names them to the histogram. *)
Definition steps : list string :=
  ["get_action_command"; "prepare_filesystem"; "run_command"; "upload_output"].






End calls.

(** *** Plain path elements *)
Module plainpath.

(** A path element that [path.Clean] keeps as it is: it is not empty, has
    no slash, and is neither [.] nor [..]. *)
Definition plain (c : string) : Prop := pathspec.normal (list_ascii_of_string c).

End plainpath.

(** ** Package [builder], [pkg/builder/local_build_executor.go]: the
       executor over a BlobAccess and the v1test messages

    This executor fetches the command and the input root as blobs, runs
    the command where it stands and answers with a fixed exit code. *)
Module builder_v1test.

(** The v1test messages, as far as this file reads them. *)
Record Action := {
  CommandDigest : option Digest;
  InputRootDigest : option Digest }.

Record ExecuteRequest := {
  InstanceName : string;
  RequestAction : option Action }.

Record Command := {
  Arguments : list string;
  EnvironmentVariables : list EnvironmentVariable }.

Record ActionResult := {
  ExitCode : Z;
  StderrRaw : string }.

Record ExecuteResponse := { Result : option ActionResult }.

(** A value handed to [log.Print]. *)
Inductive logged :=
  | text (s : string)
  | loggedRequest (request : ExecuteRequest)
  | loggedError (err : error)
  | loggedCommand (command : Command)
  | loggedDirectory (directory : Directory).

(** The calls this file makes outside itself. *)
Inductive event : Type -> Type :=
  | log_Print (v : list logged) : event unit
  | BlobAccess_Get (instance : string) (digest : option Digest)
      : event (result ReadCloser)
  | cmd_Run (cmd : builder.Cmd) : event (option error).

Definition newline : string := String "010" EmptyString.

(** How a call ends: it returns, or it panics. *)
Inductive ending (A : Type) :=
  | returned (a : A)
  | panicked (reason : string).
Arguments returned {A} a.
Arguments panicked {A} reason.

Section executor.
(** [proto.Unmarshal] into a Command and into a Directory, and the method
    [Error] of an error. *)
Variable proto_Unmarshal_Command : list Byte.byte -> result Command.
Variable proto_Unmarshal_Directory : list Byte.byte -> result Directory.
Variable Error : error -> string.

(** [exec.Command(name, arg...)]: the argument vector is the name
    followed by the arguments; [Env] is nil, written [[]], with which the
    child inherits the environment of the executor. *)
Definition exec_Command (name : string) (arg : list string) : builder.Cmd :=
  {| builder.Cmd_Args := name :: arg;
     builder.Cmd_Env := [];
     builder.Cmd_Dir := "";
     builder.Cmd_Stdout := None;
     builder.Cmd_Stderr := None;
     builder.Cmd_SysProcAttr := None |}.

Definition Execute (request : ExecuteRequest)
    : prog event (ending (result ExecuteResponse)) :=
  let* _ := call (log_Print [text "Got ExecuteRequest:"; loggedRequest request]) in
  match RequestAction request with
  | None => Ret (panicked "invalid memory address or nil pointer dereference")
  | Some action =>
  let* r := call (BlobAccess_Get (InstanceName request) (CommandDigest action)) in
  match r with
  | Err err =>
    let* _ := call (log_Print [text "Execution.Execute: "; loggedError err]) in
    Ret (returned (Err err))
  | Ok r =>
  match ioutil_ReadAll r with
  | Err err =>
    let* _ := call (log_Print [text "Execution.Execute: "; loggedError err]) in
    Ret (returned (Err err))
  | Ok commandData =>
  match proto_Unmarshal_Command commandData with
  | Err err =>
    let* _ := call (log_Print [text "Execution.Execute: "; loggedError err]) in
    Ret (returned (Err err))
  | Ok command =>
  let* _ := call (log_Print [text "Got command: "; loggedCommand command]) in
  let* r := call (BlobAccess_Get (InstanceName request) (InputRootDigest action)) in
  match r with
  | Err err =>
    let* _ := call (log_Print [text "Execution.Execute: "; loggedError err]) in
    Ret (returned (Err err))
  | Ok r =>
  match ioutil_ReadAll r with
  | Err err =>
    let* _ := call (log_Print [text "Execution.Execute: "; loggedError err]) in
    Ret (returned (Err err))
  | Ok inputRootData =>
  match proto_Unmarshal_Directory inputRootData with
  | Err err =>
    let* _ := call (log_Print [text "Execution.Execute: "; loggedError err]) in
    Ret (returned (Err err))
  | Ok inputRoot =>
  let* _ := call (log_Print [text "Got input root: "; loggedDirectory inputRoot]) in
  (* TODO(edsch): Use CommandContext(), so we have a proper timeout. *)
  (* TODO(edsch): Test len(command.Arguments) properly! *)
  match Arguments command with
  | [] => Ret (panicked "index out of range")
  | arg0 :: _ =>
    let cmd := exec_Command arg0 (Arguments command) in
    let env :=
      fold_left (fun env environmentVariable =>
                   env ++ [(Name environmentVariable ++ "=" ++ Value environmentVariable)%string])
        (EnvironmentVariables command) (builder.Cmd_Env cmd) in
    let cmd := {| builder.Cmd_Args := builder.Cmd_Args cmd;
                  builder.Cmd_Env := env;
                  builder.Cmd_Dir := builder.Cmd_Dir cmd;
                  builder.Cmd_Stdout := builder.Cmd_Stdout cmd;
                  builder.Cmd_Stderr := builder.Cmd_Stderr cmd;
                  builder.Cmd_SysProcAttr := builder.Cmd_SysProcAttr cmd |} in
    let* err := call (cmd_Run cmd) in
    match err with
    | Some err =>
      Ret (returned (Ok {| Result := Some {| ExitCode := 123;
                                             StderrRaw := (Error err ++ newline)%string |} |}))
    | None =>
      Ret (returned (Ok {| Result := Some {| ExitCode := 123;
                                             StderrRaw := ("Completed?" ++ newline)%string |} |}))
    end
  end
  end end end end end end
  end.

End executor.

(** What a trace of this executor shows: the processes spawned, the
    commands it logged as decoded, and the errors it logged. *)
Definition spawned (c : callRecord event) : option (builder.Cmd * option error) :=
  match c with
  | Call e x =>
      match e in event X return X -> option (builder.Cmd * option error) with
      | cmd_Run cmd => fun x => Some (cmd, x)
      | _ => fun _ => None
      end x
  end.

Definition fetched (c : callRecord event) : option (string * option Digest) :=
  match c with
  | Call e x =>
      match e in event X return X -> option (string * option Digest) with
      | BlobAccess_Get instance digest => fun _ => Some (instance, digest)
      | _ => fun _ => None
      end x
  end.

Definition logs (c : callRecord event) : option (list logged) :=
  match c with
  | Call e x =>
      match e in event X return X -> option (list logged) with
      | log_Print v => fun _ => Some v
      | _ => fun _ => None
      end x
  end.

(** The line logged for a decoded command, and the line logged for an
    error. *)
Definition gotCommand (command : Command) : list logged :=
  [text "Got command: "; loggedCommand command].
Definition failure (err : error) : list logged :=
  [text "Execution.Execute: "; loggedError err].

(** The environment handed to the child: the declared pairs, and nothing
    before them. *)
Definition childEnv (command : Command) : list string :=
  map (fun v => (Name v ++ "=" ++ Value v)%string) (EnvironmentVariables command).

Definition spawns (t : trace event) := omap spawned t.
Definition fetches (t : trace event) := omap fetched t.
Definition printed (t : trace event) := omap logs t.

(** A world for trying this executor out: the blobs by hash, a command
    that always fails to start, and codecs that know three blobs. *)
Definition Blobs := list (string * list Byte.byte).

Definition scripted : handler event Blobs :=
  fun X e =>
    match e in event X return Blobs -> X * Blobs with
    | log_Print _ => fun w => (tt, w)
    | BlobAccess_Get _ digest => fun w =>
        (match script.lookup (script.hashOf digest) w with
         | Some data => Ok (NopCloser data)
         | None => Err (statusError codes.NotFound "Blob not found")
         end, w)
    | cmd_Run _ => fun w => (Some (errorString "exec: not started"), w)
    end.

Definition decodeCommand (data : list Byte.byte) : result Command :=
  match data with
  | [Byte.x01] =>
      Ok {| Arguments := ["/bin/true"; "-v"];
            EnvironmentVariables := [{| Name := "PATH"; Value := "/bin" |}] |}
  | [Byte.x02] => Ok {| Arguments := []; EnvironmentVariables := [] |}
  | _ => Err (errorString "proto: cannot parse")
  end.

Definition decodeDirectory (data : list Byte.byte) : result Directory :=
  match data with
  | [] => Err (errorString "proto: cannot parse")
  | _ => Ok {| Files := []; Directories := []; Symlinks := [] |}
  end.

Definition errorText (err : error) : string :=
  match err with
  | errorString s => s
  | statusError _ msg => msg
  | _ => "error"
  end.

Definition stored : Blobs :=
  [("true", [Byte.x01]); ("none", [Byte.x02]); ("root", [Byte.x00])].

Definition requestFor (command : string) : ExecuteRequest :=
  {| InstanceName := "main";
     RequestAction :=
       Some {| CommandDigest := Some {| Hash := command; SizeBytes := 1 |};
               InputRootDigest := Some {| Hash := "root"; SizeBytes := 1 |} |} |}.

End builder_v1test.

(** *** More worlds for the executor *)
Module scenes.
Import builder script.

(** An input root with a file and a subdirectory that holds a tool; once
    the command has run, the output directory nodir holds a file and an
    empty directory. *)
Definition tree : Setup :=
  {| s_actions := [("action", action false)];
     s_commands := [("command", copy)];
     s_directories :=
       [("root",
         {| Files := [{| FileNode_Name := "in.txt";
                         FileNode_Digest := Some (digestOf "in");
                         FileNode_IsExecutable := false |}];
            Directories := [{| DirectoryNode_Name := "lib";
                               DirectoryNode_Digest := Some (digestOf "lib") |}];
            Symlinks := [] |});
        ("lib",
         {| Files := [{| FileNode_Name := "tool";
                         FileNode_Digest := Some (digestOf "tool");
                         FileNode_IsExecutable := true |}];
            Directories := [];
            Symlinks := [] |})];
     s_files := [("/stdout", (digestOf "out", false));
                 ("/stderr", (digestOf "err", false));
                 ("/build/out.txt", (digestOf "hello", false));
                 ("/build/nodir/a.txt", (digestOf "a", false))];
     s_dirs := [("/build/nodir",
                 [{| FileInfo_Name := "a.txt"; FileInfo_Mode := 420 |};
                  {| FileInfo_Name := "d"; FileInfo_Mode := Z.lor ModeDir 493 |}]);
                ("/build/nodir/d", [])];
     s_exit := None |}.

End scenes.

(** *** The files under an output directory *)
Module outputs.
Import builder calls.

(** The paths uploaded with [PutFile]. *)
Definition putPath (c : callRecord event) : option string :=
  match c with
  | Call e x =>
      match e in event X return X -> option string with
      | PutFile _ p => fun _ => Some p
      | _ => fun _ => None
      end x
  end.

Definition putPaths (t : trace event) := omap putPath t.

(** The directory tree under [base], [dirAns] being the answer of
    [ReadDir] for a path, has fewer than [n] levels. *)
Fixpoint finiteDir (dirAns : string -> result (list FileInfo)) (n : nat)
    (base : string) : Prop :=
  match n with
  | 0 => False
  | S n' =>
      match dirAns base with
      | Ok files =>
          Forall (fun file => isDir file = true ->
                              finiteDir dirAns n' (path.Join [base; FileInfo_Name file]))
            files
      | Err _ => True
      end
  end.

(** The regular files under [base], [n] levels deep, in the order of the
    listings, the files of a subdirectory at the place of its entry. *)
Fixpoint regularFiles (dirAns : string -> result (list FileInfo)) (n : nat)
    (base : string) : list string :=
  match n with
  | 0 => []
  | S n' =>
      match dirAns base with
      | Ok files =>
          flat_map (fun file =>
                      let fullPath := path.Join [base; FileInfo_Name file] in
                      if isRegular file then [fullPath]
                      else if isDir file then regularFiles dirAns n' fullPath
                      else [])
            files
      | Err _ => []
      end
  end.

End outputs.

(** A program ends: run against the world, it returns. *)
Definition ends {E W A} (h : handler E W) (p : prog E A) (w : W) : Prop :=
  outcome h p w (fun _ _ _ => True).

Module path_facts.
Import path pathspec.

Lemma joinB_cons (c : bytes) (l : list bytes) :
  l <> [] -> joinB (c :: l) = c ++ "/"%char :: joinB l.
Proof. intros H. destruct l; [congruence | reflexivity]. Qed.

Lemma joinB_snoc (l : list bytes) (c : bytes) :
  joinB (l ++ [c]) =
  match l with [] => c | _ => joinB l ++ "/"%char :: c end.
Proof.
  induction l as [|a l IH]; [reflexivity|].
  change ((a :: l) ++ [c]) with (a :: (l ++ [c])).
  rewrite joinB_cons by (destruct l; discriminate).
  rewrite IH. destruct l as [|b l]; [reflexivity|].
  rewrite (joinB_cons a (b :: l)) by discriminate.
  rewrite <- app_assoc. reflexivity.
Qed.

Lemma joinB_app_length (l1 l2 : list bytes) :
  length (joinB l1) <= length (joinB (l1 ++ l2)).
Proof.
  induction l2 as [|c l2 IH] using rev_ind.
  - rewrite app_nil_r. lia.
  - rewrite app_assoc, joinB_snoc.
    destruct (l1 ++ l2) eqn:E.
    + destruct l1; [simpl; lia | discriminate].
    + rewrite length_app. cbn [length]. lia.
Qed.

Lemma joinB_nil_inv (l : list bytes) :
  Forall (fun e => e <> []) l -> joinB l = [] -> l = [].
Proof.
  destruct l as [|a l]; [reflexivity|].
  intros H E. inversion H as [|? ? Ha _]; subst.
  destruct l; simpl in E; [congruence|].
  destruct a; [congruence | discriminate].
Qed.

(** The backward scan stops at the slash in front of the last element, or
    at [dotdot] when the element starts there. *)
Lemma scanBack_stop (pre : bytes) (x : ascii) (dotdot : nat) :
  dotdot <= length pre ->
  isSlash x = true \/ length pre = dotdot ->
  forall (c tail : bytes), noSlash c ->
  scanBack (fun i => nth i (pre ++ x :: c ++ tail) zero) dotdot
    (length pre + length c)
  = length pre.
Proof.
  intros Hle Hx c. induction c as [|y c IH] using rev_ind; intros tail Hc.
  - simpl. rewrite Nat.add_0_r.
    destruct (length pre) as [|k] eqn:E; [reflexivity|].
    simpl scanBack.
    replace (nth (S k) (pre ++ x :: tail) zero) with x.
    2:{ rewrite app_nth2 by lia. rewrite E, Nat.sub_diag. reflexivity. }
    destruct Hx as [Hx|Hx].
    + rewrite Hx. rewrite andb_false_r. reflexivity.
    + assert (Hlt : (dotdot <? S k)%nat = false) by (apply Nat.ltb_ge; lia).
      rewrite Hlt. reflexivity.
  - apply Forall_app in Hc as [Hc Hy]. inversion Hy as [|? ? Hy' _]; subst.
    rewrite length_app. simpl length.
    replace (length pre + (length c + 1)) with (S (length pre + length c)) by lia.
    simpl scanBack.
    replace (nth (S (length pre + length c)) (pre ++ x :: (c ++ [y]) ++ tail) zero)
      with y.
    2:{ rewrite app_nth2 by lia.
        replace (S (length pre + length c) - length pre) with (S (length c)) by lia.
        simpl. rewrite <- app_assoc. rewrite app_nth2 by lia.
        rewrite Nat.sub_diag. reflexivity. }
    rewrite Hy'.
    assert (Hlt : (dotdot <? S (length pre + length c))%nat = true)
      by (apply Nat.ltb_lt; lia).
    rewrite Hlt. simpl.
    rewrite <- app_assoc. apply IH. exact Hc.
Qed.

Lemma backtrack_sep (pre c : bytes) (dotdot : nat) :
  dotdot <= length pre -> good c ->
  backtrack (pre ++ "/"%char :: c) dotdot = pre.
Proof.
  intros Hle [Hne Hc]. unfold backtrack.
  rewrite length_app. simpl length.
  replace (length pre + S (length c) - 1) with (length pre + length c) by lia.
  assert (E := scanBack_stop pre "/"%char dotdot Hle (or_introl eq_refl) c [] Hc).
  rewrite app_nil_r in E. rewrite E.
  rewrite firstn_app, Nat.sub_diag, firstn_all. simpl. apply app_nil_r.
Qed.

Lemma backtrack_first (pre c : bytes) :
  good c -> backtrack (pre ++ c) (length pre) = pre.
Proof.
  intros [Hne Hc]. destruct c as [|x c]; [congruence|].
  inversion Hc as [|? ? _ Hc']; subst.
  unfold backtrack. rewrite length_app. simpl length.
  replace (length pre + S (length c) - 1) with (length pre + length c) by lia.
  assert (E := scanBack_stop pre x (length pre) (le_n _) (or_intror eq_refl) c [] Hc').
  rewrite app_nil_r in E. rewrite E.
  rewrite firstn_app, Nat.sub_diag, firstn_all. simpl. apply app_nil_r.
Qed.

Lemma copyElem_spec (rest : bytes) :
  forall e r', copyElem rest = (e, r') ->
  rest = e ++ r' /\ noSlash e /\ sepHead r'.
Proof.
  induction rest as [|c rest IH]; simpl; intros e r' H.
  - inversion H; subst. repeat split. constructor.
  - destruct (isSlash c) eqn:Hc.
    + inversion H; subst. repeat split; [constructor | exact Hc].
    + destruct (copyElem rest) as [e0 r0]. inversion H; subst.
      destruct (IH e0 r' eq_refl) as (-> & He & Hr).
      repeat split; [constructor; assumption | exact Hr].
Qed.

Lemma splitSlash_sepHead (r : bytes) :
  sepHead r -> splitSlash r = [] :: tl (splitSlash r).
Proof.
  destruct r as [|c r]; simpl; intros H; [reflexivity|].
  rewrite H. reflexivity.
Qed.

Lemma splitSlash_app (e r : bytes) :
  noSlash e -> sepHead r ->
  splitSlash (e ++ r) = e :: tl (splitSlash r).
Proof.
  intros He Hr. induction He as [|c e Hc He IH]; simpl.
  - apply splitSlash_sepHead, Hr.
  - rewrite Hc, IH. reflexivity.
Qed.

Lemma splitSlash_noSlash (s : bytes) : Forall noSlash (splitSlash s).
Proof.
  induction s as [|c s IH]; simpl.
  - repeat constructor.
  - destruct (isSlash c) eqn:Hc.
    + constructor; [constructor | exact IH].
    + destruct (splitSlash s) as [|h t]; [repeat constructor; exact Hc|].
      inversion IH; subst. constructor; [constructor; assumption | assumption].
Qed.

Lemma fold_step_elem (rooted : bool) (e r : bytes) (st : stack) :
  noSlash e -> sepHead r ->
  fold_left (step rooted) (splitSlash (e ++ r)) st
  = fold_left (step rooted) (splitSlash r) (step rooted st e).
Proof.
  intros He Hr. rewrite splitSlash_app by assumption.
  rewrite (splitSlash_sepHead r Hr). reflexivity.
Qed.

Lemma isDot_noSlash (c : ascii) : isDot c = true -> isSlash c = false.
Proof.
  unfold isDot, isSlash. intros H. apply Ascii.eqb_eq in H. subst. reflexivity.
Qed.

Lemma normal_good (e : bytes) : normal e -> good e.
Proof. intros [H _]. exact H. Qed.

Lemma step_wf (rooted : bool) (st : stack) (e : bytes) :
  wfStack rooted st -> noSlash e -> wfStack rooted (step rooted st e).
Proof.
  intros [Hd Hn] He. unfold step.
  destruct e as [|c e]; [split; assumption|].
  destruct (isDotElem (c :: e)) eqn:E1; [split; assumption|].
  destruct (isDotDotElem (c :: e)) eqn:E2.
  - destruct (elems st) as [|top rc] eqn:Es.
    + destruct rooted eqn:Er; [split; [assumption | rewrite Es; constructor]|].
      split; [discriminate | constructor].
    + inversion Hn; subst. split; assumption.
  - split; [exact Hd|]. simpl. constructor; [|exact Hn].
    repeat split; try assumption. discriminate.
Qed.

Lemma dotdotOf_base (rooted : bool) :
  dotdotOf rooted 0 = length (render rooted []).
Proof. destruct rooted; reflexivity. Qed.

(** Popping the last element is what the backward scan does. *)
Lemma render_pop (rooted : bool) (n : nat) (rc : list bytes) (top : bytes) :
  (rooted = true -> n = 0) -> good top ->
  let out := render rooted (repeat dots n ++ rev (top :: rc)) in
  dotdotOf rooted n < length out /\
  backtrack out (dotdotOf rooted n) = render rooted (repeat dots n ++ rev rc).
Proof.
  intros Hd Hg. simpl rev. rewrite app_assoc. unfold render.
  rewrite joinB_snoc.
  destruct (repeat dots n ++ rev rc) as [|a l] eqn:E.
  - apply app_eq_nil in E as [E1 E2].
    assert (n = 0) by (destruct n; [reflexivity | discriminate]). subst n.
    rewrite dotdotOf_base. unfold render. simpl joinB. rewrite app_nil_r.
    split; [|apply backtrack_first, Hg].
    rewrite length_app. destruct Hg as [Hne _].
    destruct top; [congruence | simpl; lia].
  - rewrite <- E. clear E a l.
    assert (Hle : dotdotOf rooted n
                  <= length ((if rooted then ["/"%char] else []) ++ joinB (repeat dots n ++ rev rc))).
    { rewrite length_app. unfold dotdotOf. destruct rooted; simpl; [lia|].
      apply joinB_app_length. }
    rewrite app_assoc. split; [|apply backtrack_sep; assumption].
    rewrite length_app. simpl. lia.
Qed.

Lemma render_nopop (rooted : bool) (n : nat) :
  (rooted = true -> n = 0) ->
  dotdotOf rooted n = length (render rooted (repeat dots n)).
Proof.
  intros Hd. destruct rooted; [|reflexivity].
  rewrite (Hd eq_refl). reflexivity.
Qed.

Lemma length_joinB_0 (l : list bytes) :
  Forall (fun e => e <> []) l ->
  (length (joinB l) =? 0)%nat = match l with [] => true | _ => false end.
Proof.
  intros H. destruct l as [|a l]; [reflexivity|].
  apply Nat.eqb_neq. intros E. apply length_zero_iff_nil in E.
  apply joinB_nil_inv in E; [discriminate | assumption].
Qed.

(** Appending a [..] element in front of which nothing can be removed. *)
Lemma render_push_dots (n : nat) :
  let out := render false (repeat dots n) in
  (if (0 <? length out)%nat then out ++ ["/"%char] else out) ++ dots
  = render false (repeat dots (S n)).
Proof.
  unfold render. cbn [app].
  replace (repeat dots (S n)) with (repeat dots n ++ [dots])
    by (rewrite <- repeat_cons; reflexivity).
  rewrite joinB_snoc.
  destruct n as [|n]; [reflexivity|].
  remember (repeat dots (S n)) as l eqn:El.
  assert (Hl : (0 <? length (joinB l))%nat = true).
  { apply Nat.ltb_lt. subst l. simpl. destruct (repeat dots n); simpl; lia. }
  rewrite Hl. rewrite El at 2. simpl repeat. cbv iota.
  rewrite <- app_assoc. reflexivity.
Qed.

(** Appending a real element, with the slash the loop puts in front. *)
Lemma render_push (rooted : bool) (l : list bytes) (e : bytes) :
  Forall (fun e => e <> []) l ->
  let out := render rooted l in
  (if (rooted && negb (length out =? 1)%nat) ||
      (negb rooted && negb (length out =? 0)%nat)
   then out ++ ["/"%char] else out) ++ e
  = render rooted (l ++ [e]).
Proof.
  intros Hl. unfold render. rewrite joinB_snoc.
  assert (H0 := length_joinB_0 l Hl).
  destruct rooted; simpl.
  - replace (length (joinB l) =? 0)%nat with
      (match l with [] => true | _ :: _ => false end).
    destruct l; simpl; [reflexivity|].
    rewrite <- app_assoc. reflexivity.
  - rewrite H0. destruct l; simpl; [reflexivity|].
    rewrite <- app_assoc. reflexivity.
Qed.

Lemma contents_nonempty (rooted : bool) (st : stack) :
  wfStack rooted st -> Forall (fun e => e <> []) (contents st).
Proof.
  intros [_ Hn]. unfold contents. apply Forall_app. split.
  - apply Forall_forall. intros x Hx. apply list_elem_of_In, repeat_spec in Hx. subst. discriminate.
  - apply Forall_rev. eapply Forall_impl; [exact Hn|].
    intros a [[Ha _] _]. exact Ha.
Qed.

(** The byte-level loop of [Clean] computes the fold of [step] over the
    slash-separated elements of the unread input. *)
Lemma prefixLoop_sim (rooted : bool) (fuel : nat) :
  forall (rest : bytes) (st : stack),
  length rest <= fuel -> wfStack rooted st ->
  prefixLoop fuel rooted rest (render rooted (contents st))
    (dotdotOf rooted (dd st))
  = render rooted (contents (fold_left (step rooted) (splitSlash rest) st)).
Proof.
  induction fuel as [|fuel IH]; intros rest st Hlen Hwf.
  { destruct rest; [reflexivity | simpl in Hlen; lia]. }
  destruct rest as [|c0 r1]; [reflexivity|].
  simpl in Hlen. cbn [prefixLoop].
  destruct (isSlash c0) eqn:H0.
  { simpl splitSlash. rewrite H0. cbn [fold_left step]. apply IH; [lia | exact Hwf]. }
  destruct (isDot c0 && match r1 with [] => true | c1 :: _ => isSlash c1 end) eqn:H1.
  { apply andb_prop in H1 as [Hd Hs].
    assert (Hsep : sepHead r1) by (destruct r1; [exact I | exact Hs]).
    change (c0 :: r1) with ([c0] ++ r1).
    rewrite fold_step_elem; [|repeat constructor; exact H0 | exact Hsep].
    replace (step rooted st [c0]) with st by (unfold step; simpl; rewrite Hd; reflexivity).
    apply IH; [lia | exact Hwf]. }
  destruct (isDot c0 && match r1 with
                        | [] => false
                        | c1 :: r2 => isDot c1 && match r2 with [] => true | c2 :: _ => isSlash c2 end
                        end) eqn:H2.
  { apply andb_prop in H2 as [Hd0 H2].
    destruct r1 as [|c1 r2]; [discriminate|].
    apply andb_prop in H2 as [Hd1 Hs].
    assert (Hsep : sepHead r2) by (destruct r2; [exact I | exact Hs]).
    simpl tl. simpl in Hlen.
    change (c0 :: c1 :: r2) with ([c0; c1] ++ r2).
    assert (Hns : noSlash [c0; c1]).
    { repeat constructor; [exact H0 | apply isDot_noSlash, Hd1]. }
    rewrite fold_step_elem; [|exact Hns | exact Hsep].
    assert (Hwf' := step_wf rooted st [c0; c1] Hwf Hns).
    assert (Hstep : step rooted st [c0; c1] =
                    match elems st with
                    | _ :: rc => Stack (dd st) rc
                    | [] => if rooted then st else Stack (S (dd st)) []
                    end).
    { unfold step. simpl. rewrite Hd0, Hd1. reflexivity. }
    rewrite Hstep in *. clear Hstep.
    destruct st as [n el]. cbn [elems dd] in *.
    destruct Hwf as [Hdd Hel]. cbn [elems dd] in Hdd, Hel.
    destruct el as [|top rc].
    - assert (Hc : forall k, contents (Stack k []) = repeat dots k).
      { intros k. unfold contents. simpl. apply app_nil_r. }
      assert (E1 : dotdotOf rooted n = length (render rooted (contents (Stack n [])))).
      { rewrite Hc. apply render_nopop, Hdd. }
      rewrite E1 at 1. rewrite Nat.ltb_irrefl.
      destruct rooted; cbn [negb].
      + apply (IH r2 (Stack n [])); [lia | exact Hwf'].
      + rewrite Hc. change ["."%char; "."%char] with dots.
        rewrite render_push_dots.
        change (length (render false (repeat dots (S n))))
          with (dotdotOf false (dd (Stack (S n) []))).
        rewrite <- (Hc (S n)).
        apply IH; [lia | exact Hwf'].
    - inversion Hel as [|? ? Htop Hrc]; subst.
      destruct (render_pop rooted n rc top Hdd (normal_good _ Htop)) as [Hlt Hbt].
      unfold contents at 1 2. cbn [elems dd].
      apply Nat.ltb_lt in Hlt. rewrite Hlt, Hbt.
      apply (IH r2 (Stack n rc)); [lia | exact Hwf']. }
  destruct (copyElem (c0 :: r1)) as [e r'] eqn:Hce.
  destruct (copyElem_spec _ _ _ Hce) as (Hrest & Hns & Hsep).
  assert (Hnorm : normal e).
  { simpl in Hce. rewrite H0 in Hce.
    destruct (copyElem r1) as [e1 r1'] eqn:Hc1. inversion Hce; subst e r'. clear Hce.
    destruct (copyElem_spec _ _ _ Hc1) as (Hr1 & Hns1 & Hsep1).
    repeat split; [discriminate | exact Hns | |].
    - simpl. destruct e1; [|reflexivity].
      simpl in Hr1. subst r1'.
      destruct (isDot c0); [|reflexivity]. simpl in H1.
      destruct r1; [discriminate|]. simpl in Hsep1. congruence.
    - simpl. destruct e1 as [|c1 e1]; [reflexivity|].
      destruct e1; [|reflexivity].
      simpl in Hr1. subst r1.
      destruct (isDot c0); [|reflexivity]. simpl in H2. simpl.
      destruct (isDot c1); [|reflexivity]. simpl in H2.
      destruct r1'; [discriminate|]. simpl in Hsep1. congruence. }
  rewrite Hrest. rewrite fold_step_elem by assumption.
  assert (Hwf' := step_wf rooted st e Hwf Hns).
  assert (Hstep : step rooted st e = Stack (dd st) (e :: elems st)).
  { destruct Hnorm as [[Hne _] [E1 E2]]. unfold step.
    destruct e; [congruence|]. rewrite E1, E2. reflexivity. }
  rewrite Hstep in *.
  rewrite (render_push rooted (contents st) e (contents_nonempty rooted st Hwf)).
  replace (contents st ++ [e]) with (contents (Stack (dd st) (e :: elems st)))
    by (unfold contents; simpl; rewrite app_assoc; reflexivity).
  change (dotdotOf rooted (dd st)) with (dotdotOf rooted (dd (Stack (dd st) (e :: elems st)))).
  apply IH; [|exact Hwf'].
  assert (length (c0 :: r1) = length (e ++ r')) by (rewrite Hrest; reflexivity).
  rewrite length_app in H. simpl in H.
  destruct Hnorm as [[Hne _] _]. destruct e; [congruence|]. simpl in H. lia.
Qed.

Lemma fold_step_wf (rooted : bool) (l : list bytes) :
  forall st, wfStack rooted st -> Forall noSlash l ->
  wfStack rooted (fold_left (step rooted) l st).
Proof.
  induction l as [|e l IH]; intros st Hwf Hl; [exact Hwf|].
  inversion Hl; subst. simpl. apply IH; [apply step_wf|]; assumption.
Qed.

Lemma splitSlash_joinB (l : list bytes) :
  l <> [] -> Forall noSlash l -> splitSlash (joinB l) = l.
Proof.
  induction l as [|c l IH]; intros Hne Hl; [congruence|].
  inversion Hl as [|? ? Hc Hl']; subst.
  destruct l as [|d l].
  - simpl. rewrite <- (app_nil_r c) at 1.
    rewrite splitSlash_app; [reflexivity | exact Hc | exact I].
  - rewrite joinB_cons by discriminate.
    rewrite splitSlash_app; [|exact Hc | reflexivity].
    change (splitSlash ("/"%char :: joinB (d :: l)))
      with ([] :: splitSlash (joinB (d :: l))).
    cbn [tl]. rewrite IH; [reflexivity | discriminate | exact Hl'].
Qed.

Lemma fold_step_dots (k : nat) :
  forall m, fold_left (step false) (repeat dots k) (Stack m []) = Stack (m + k) [].
Proof.
  induction k as [|k IH]; intros m; simpl.
  - rewrite Nat.add_0_r. reflexivity.
  - change (step false (Stack m []) dots) with (Stack (S m) []).
    rewrite IH. f_equal. lia.
Qed.

Lemma fold_step_normal (rooted : bool) (l : list bytes) :
  Forall normal l ->
  forall d acc, fold_left (step rooted) (rev l) (Stack d acc) = Stack d (l ++ acc).
Proof.
  induction 1 as [|a l Ha Hl IH]; intros d acc; [reflexivity|].
  simpl rev. rewrite fold_left_app, IH. simpl.
  destruct Ha as [[Hne _] [E1 E2]]. unfold step.
  destruct a; [congruence|]. rewrite E1, E2. reflexivity.
Qed.

Lemma fold_step_contents (rooted : bool) (st : stack) :
  wfStack rooted st ->
  fold_left (step rooted) (contents st) (Stack 0 []) = st.
Proof.
  intros [Hd Hn]. destruct st as [n el]. cbn [dd elems] in *.
  unfold contents. cbn [dd elems]. rewrite fold_left_app.
  assert (E : fold_left (step rooted) (repeat dots n) (Stack 0 []) = Stack n []).
  { destruct rooted; [rewrite (Hd eq_refl); reflexivity|]. apply fold_step_dots. }
  rewrite E, fold_step_normal by assumption. rewrite app_nil_r. reflexivity.
Qed.

Lemma contents_noSlash (rooted : bool) (st : stack) :
  wfStack rooted st -> Forall noSlash (contents st).
Proof.
  intros [_ Hn]. unfold contents. apply Forall_app. split.
  - apply Forall_forall. intros x Hx. apply list_elem_of_In, repeat_spec in Hx.
    subst. repeat constructor.
  - apply Forall_rev. eapply Forall_impl; [exact Hn|].
    intros a [[_ Ha] _]. exact Ha.
Qed.

Lemma wfStack_init (rooted : bool) : wfStack rooted (Stack 0 []).
Proof. split; [reflexivity | constructor]. Qed.

(** What [Clean] returns for a non-empty path. *)
Lemma cleanPrefix_cons (c0 : ascii) (p' : bytes) :
  let rooted := isSlash c0 in
  let st := fold_left (step rooted)
              (splitSlash (if rooted then p' else c0 :: p')) (Stack 0 []) in
  wfStack rooted st /\
  cleanPrefix (c0 :: p') =
    if (length (render rooted (contents st)) =? 0)%nat then ["."%char]
    else render rooted (contents st).
Proof.
  intros rooted st. split.
  { apply fold_step_wf; [apply wfStack_init | apply splitSlash_noSlash]. }
  unfold cleanPrefix. fold rooted.
  assert (E : (if rooted then prefixLoop (length (c0 :: p')) rooted p' ["/"%char] 1
               else prefixLoop (length (c0 :: p')) rooted (c0 :: p') [] 0)
              = render rooted (contents st)).
  { subst st. destruct rooted.
    - apply (prefixLoop_sim true (length (c0 :: p')) p' (Stack 0 []));
        [simpl; lia | apply wfStack_init].
    - apply (prefixLoop_sim false (length (c0 :: p')) (c0 :: p') (Stack 0 []));
        [simpl; lia | apply wfStack_init]. }
  rewrite E. reflexivity.
Qed.

(** A rendered stack is a fixed point of [Clean]. *)
Lemma cleanPrefix_render (rooted : bool) (st : stack) :
  wfStack rooted st -> render rooted (contents st) <> [] ->
  cleanPrefix (render rooted (contents st)) = render rooted (contents st).
Proof.
  intros Hwf Hne.
  assert (Hns := contents_noSlash rooted st Hwf).
  assert (Hnn := contents_nonempty rooted st Hwf).
  remember (contents st) as C eqn:EC.
  assert (Hshape : exists (c0 : ascii) (p' : bytes),
                     render rooted C = c0 :: p' /\ isSlash c0 = rooted /\
                                 (if rooted then p' else c0 :: p') = joinB C).
  { unfold render in *. destruct rooted; simpl in *.
    - exists "/"%char, (joinB C). repeat split.
    - destruct C as [|e C]; [exfalso; apply Hne; reflexivity|].
      inversion Hnn; subst. inversion Hns as [|? ? He _]; subst.
      destruct e as [|x e]; [congruence|]. inversion He; subst.
      exists x. destruct C; simpl; eexists; repeat split; assumption. }
  destruct Hshape as (c0 & p' & Eq & Hr & Hp).
  rewrite Eq at 1.
  destruct (cleanPrefix_cons c0 p') as [_ Hc]. rewrite Hc. clear Hc.
  rewrite Hr, Hp.
  assert (Ec : contents (fold_left (step rooted) (splitSlash (joinB C)) (Stack 0 [])) = C).
  { destruct C as [|e C].
    - reflexivity.
    - rewrite splitSlash_joinB; [|discriminate | exact Hns].
      rewrite EC, fold_step_contents by exact Hwf. reflexivity. }
  rewrite Ec.
  destruct (render rooted C); [congruence | reflexivity].
Qed.

Theorem cleanPrefix_idempotent (p : bytes) :
  cleanPrefix (cleanPrefix p) = cleanPrefix p.
Proof.
  destruct p as [|c0 p']; [reflexivity|].
  destruct (cleanPrefix_cons c0 p') as [Hwf Hc]. rewrite Hc.
  destruct (length (render (isSlash c0) _) =? 0)%nat eqn:E; [reflexivity|].
  apply cleanPrefix_render; [exact Hwf|].
  intros H. rewrite H in E. discriminate.
Qed.

Lemma cleanPrefix_nonempty (p : bytes) : cleanPrefix p <> [].
Proof.
  destruct p as [|c0 p']; [discriminate|].
  destruct (cleanPrefix_cons c0 p') as [_ Hc]. rewrite Hc.
  destruct (length (render (isSlash c0) _) =? 0)%nat eqn:E; [discriminate|].
  intros H. rewrite H in E. discriminate.
Qed.

(** *** The lazybuf holds the written output *)

Lemma take_insert_snoc (bf : bytes) (k : nat) (c : ascii) :
  k < length bf -> take (S k) (<[k:=c]> bf) = take k bf ++ [c].
Proof.
  intros Hk. rewrite (take_S_r _ _ c) by (apply list_lookup_insert_eq; exact Hk).
  f_equal. apply take_insert_ge. lia.
Qed.

Lemma lazybuf_append_string (n : nat) (b : lazybuf) (c : ascii) :
  sized n b -> w b < n ->
  lazybuf_string (lazybuf_append b c) = lazybuf_string b ++ [c] /\
  w (lazybuf_append b c) = S (w b) /\
  sized n (lazybuf_append b c).
Proof.
  unfold sized, lazybuf_append, lazybuf_string.
  destruct b as [s0 [bf|] w0]; cbn [s buf w]; intros [Hs Hbf] Hw.
  - assert (Hl := Hbf bf eq_refl). repeat split; [|exact Hs|].
    + apply take_insert_snoc. lia.
    + intros bf' E. injection E as <-. rewrite length_insert. exact Hl.
  - destruct ((w0 <? length s0)%nat && Ascii.eqb (nth w0 s0 zero) c) eqn:E;
      cbn [s buf w].
    + apply andb_prop in E as [_ E]. apply Ascii.eqb_eq in E.
      repeat split; [|exact Hs | intros; discriminate].
      apply take_S_r. destruct (nth_lookup_or_length s0 w0 zero) as [Hn|Hn]; [|lia].
      rewrite Hn, E. reflexivity.
    + assert (Hl : length (take w0 s0 ++ repeat zero (length s0 - w0)) = n).
      { rewrite length_app, length_take_le, repeat_length by lia. lia. }
      repeat split; [|exact Hs|].
      * rewrite take_insert_snoc by lia.
        rewrite take_app_length' by (rewrite length_take_le; lia). reflexivity.
      * intros bf' E'. injection E' as <-. rewrite length_insert. exact Hl.
Qed.

Lemma lazybuf_string_length (n : nat) (b : lazybuf) :
  sized n b -> w b <= n -> length (lazybuf_string b) = w b.
Proof.
  unfold sized, lazybuf_string. destruct b as [s0 [bf|] w0]; cbn [s buf w];
    intros [Hs Hbf] Hw; apply length_take_le; [rewrite (Hbf bf eq_refl)|]; lia.
Qed.

Lemma lazybuf_index_string (b : lazybuf) (i : nat) :
  i < w b -> lazybuf_index b i = nth i (lazybuf_string b) zero.
Proof.
  unfold lazybuf_index, lazybuf_string. intros Hi.
  destruct (buf b); rewrite !nth_lookup, lookup_take_lt by exact Hi; reflexivity.
Qed.

Lemma scanBack_ext (f g : nat -> ascii) (d : nat) :
  forall k, (forall i, i <= k -> f i = g i) -> scanBack f d k = scanBack g d k.
Proof.
  induction k as [|k IH]; intros H; [reflexivity|].
  simpl. rewrite (H (S k)) by lia.
  destruct ((d <? S k)%nat && negb (isSlash (g (S k)))); [|reflexivity].
  apply IH. intros i Hi. apply H. lia.
Qed.

Lemma scanBack_le (f : nat -> ascii) (d : nat) : forall k, scanBack f d k <= k.
Proof.
  induction k as [|k IH]; simpl; [lia|].
  destruct ((d <? S k)%nat && negb (isSlash (f (S k)))); lia.
Qed.

Lemma lazybuf_backtrack (n : nat) (b : lazybuf) (dotdot : nat) :
  sized n b -> 0 < w b -> w b <= n ->
  let b' := {| s := s b; buf := buf b;
               w := scanBack (lazybuf_index b) dotdot (w b - 1) |} in
  lazybuf_string b' = backtrack (lazybuf_string b) dotdot /\
  w b' < w b /\ sized n b'.
Proof.
  intros Hsz Hpos Hw. cbn zeta.
  assert (Hle := scanBack_le (lazybuf_index b) dotdot (w b - 1)).
  split; [|split; [cbn [w]; lia | exact Hsz]].
  unfold backtrack. rewrite (lazybuf_string_length n b Hsz Hw).
  rewrite <- (scanBack_ext (lazybuf_index b)
                (fun i => nth i (lazybuf_string b) zero) dotdot (w b - 1)).
  2:{ intros i Hi. apply lazybuf_index_string. lia. }
  unfold lazybuf_string. cbn [buf w s].
  destruct (buf b); rewrite take_take; f_equal; lia.
Qed.

Lemma copyElement_string (n : nat) (rest : bytes) :
  forall b e r',
  copyElem rest = (e, r') -> sized n b -> w b + length e <= n ->
  exists b',
    copyElement rest b = (b', r') /\
    lazybuf_string b' = lazybuf_string b ++ e /\
    w b' = w b + length e /\ sized n b'.
Proof.
  induction rest as [|c rest IH]; intros b e r' He Hsz Hw; simpl in *.
  - inversion He; subst. exists b. rewrite app_nil_r, Nat.add_0_r. auto.
  - destruct (isSlash c).
    + inversion He; subst. exists b. rewrite app_nil_r, Nat.add_0_r. auto.
    + destruct (copyElem rest) as [e0 r0]. inversion He; subst. simpl in Hw.
      destruct (lazybuf_append_string n b c Hsz) as (Ha & Hwa & Hsa); [lia|].
      destruct (IH (lazybuf_append b c) e0 r' eq_refl Hsa) as (b' & Hc & Hs' & Hw' & Hsz');
        [lia|].
      exists b'. split; [exact Hc|]. split; [|split; [|exact Hsz']].
      * rewrite Hs', Ha, <- app_assoc. reflexivity.
      * rewrite Hw', Hwa. simpl. lia.
Qed.

Lemma roomy_sized n rooted rest b : roomy n rooted rest b -> sized n b /\ w b <= n.
Proof. intros (H1 & H2 & H3 & _). split; [split; assumption | lia]. Qed.

(** The loop on the lazybuf writes what the loop on the written output
    writes. *)
Lemma cleanLoop_string (n : nat) (rooted : bool) (fuel : nat) :
  forall rest b dotdot,
  roomy n rooted rest b ->
  let b' := cleanLoop fuel rooted rest b dotdot in
  lazybuf_string b' = prefixLoop fuel rooted rest (lazybuf_string b) dotdot /\
  length (lazybuf_string b') = w b'.
Proof.
  induction fuel as [|fuel IH]; intros rest b dotdot Hr; cbn zeta.
  { destruct (roomy_sized _ _ _ _ Hr) as [Hsz Hw].
    split; [reflexivity | apply (lazybuf_string_length n); assumption]. }
  destruct (roomy_sized _ _ _ _ Hr) as [Hsz Hw].
  assert (Hlen := lazybuf_string_length n b Hsz Hw).
  destruct rest as [|c0 r1]; [split; [reflexivity | exact Hlen]|].
  destruct Hr as (Hs & Hbf & Hroom & Hslack). simpl length in Hroom, Hslack.
  cbn [cleanLoop prefixLoop]. rewrite Hlen.
  destruct (isSlash c0) eqn:H0.
  { apply IH. repeat split; try assumption; [lia | intros _; right; lia]. }
  destruct (isDot c0 && match r1 with [] => true | c1 :: _ => isSlash c1 end) eqn:H1.
  { apply IH. repeat split; try assumption; [lia | intros _; right; lia]. }
  assert (Hstrict : pending rooted (w b) = true -> w b + S (length r1) < n).
  { intros Hp. destruct (Hslack Hp) as [Hsep|Hlt]; [|exact Hlt].
    simpl in Hsep. congruence. }
  destruct (isDot c0 && match r1 with
                        | [] => false
                        | c1 :: r2 => isDot c1 && match r2 with [] => true | c2 :: _ => isSlash c2 end
                        end) eqn:H2.
  { apply andb_prop in H2 as [_ H2]. destruct r1 as [|c1 r2]; [discriminate|].
    apply andb_prop in H2 as [_ Hsepb].
    assert (Hsep : sepHead r2) by (destruct r2; [exact I | exact Hsepb]).
    cbn [tl]. simpl length in Hroom, Hstrict.
    destruct (dotdot <? w b)%nat eqn:Hd.
    - apply Nat.ltb_lt in Hd.
      destruct (lazybuf_backtrack n b dotdot Hsz) as (Hb & Hwb & Hszb); [lia | lia|].
      rewrite <- Hb. apply IH.
      destruct Hszb as [Hs' Hbf']. repeat split; try assumption; [lia | intros _; right; lia].
    - destruct rooted; cbn [negb].
      + apply IH. repeat split; try assumption; [lia | intros _; right; lia].
      + assert (Hp : pending false (w b) = (0 <? w b)%nat).
        { unfold pending. simpl. destruct (w b); reflexivity. }
        assert (E : exists b1,
                  (if (0 <? w b)%nat then lazybuf_append b "/" else b) = b1 /\
                  lazybuf_string b1 =
                    (if (0 <? w b)%nat then lazybuf_string b ++ ["/"%char]
                     else lazybuf_string b) /\
                  w b1 + S (S (length r2)) <= n /\ sized n b1).
        { eexists. split; [reflexivity|].
          destruct (0 <? w b)%nat eqn:E0.
          - specialize (Hstrict Hp).
            destruct (lazybuf_append_string n b "/" Hsz) as (Ha & Hwa & Hsa); [lia|].
            rewrite Hwa. split; [exact Ha|]. split; [lia | exact Hsa].
          - split; [reflexivity|]. split; [lia | exact Hsz]. }
        destruct E as (b1 & -> & Hs1 & Hw1 & Hsz1).
        destruct (lazybuf_append_string n b1 "." Hsz1) as (Ha & Hwa & Hsa); [lia|].
        destruct (lazybuf_append_string n (lazybuf_append b1 ".") "." Hsa)
          as (Ha2 & Hwa2 & Hsa2); [lia|].
        set (b2 := lazybuf_append (lazybuf_append b1 ".") ".") in *.
        assert (Hb2 : lazybuf_string b2 =
                      (if (0 <? w b)%nat then lazybuf_string b ++ ["/"%char]
                       else lazybuf_string b) ++ ["."%char; "."%char]).
        { rewrite Ha2, Ha, Hs1, <- app_assoc. reflexivity. }
        rewrite <- Hb2.
        replace (length (lazybuf_string b2)) with (w b2)
          by (symmetry; apply (lazybuf_string_length n); [exact Hsa2 | lia]).
        apply IH. destruct Hsa2 as [Hs2 Hbf2].
        repeat split; try assumption; [lia | intros _; left; exact Hsep]. }
  fold (pending rooted (w b)).
  destruct (copyElem (c0 :: r1)) as [e r'] eqn:Hce.
  destruct (copyElem_spec _ _ _ Hce) as (Hrest & Hns & Hsep).
  assert (Hre : S (length r1) = length e + length r').
  { change (S (length r1)) with (length (c0 :: r1)). rewrite Hrest. apply length_app. }
  assert (E : exists b1,
            (if pending rooted (w b) then lazybuf_append b "/" else b) = b1 /\
            lazybuf_string b1 =
              (if pending rooted (w b) then lazybuf_string b ++ ["/"%char]
               else lazybuf_string b) /\
            w b1 + length e + length r' <= n /\ sized n b1).
  { eexists. split; [reflexivity|].
    destruct (pending rooted (w b)) eqn:Hp.
    - specialize (Hstrict eq_refl).
      destruct (lazybuf_append_string n b "/" Hsz) as (Ha & Hwa & Hsa); [lia|].
      rewrite Hwa. split; [exact Ha|]. split; [lia | exact Hsa].
    - split; [reflexivity|]. split; [lia | exact Hsz]. }
  destruct E as (b1 & -> & Hs1 & Hw1 & Hsz1).
  destruct (copyElement_string n (c0 :: r1) b1 e r' Hce Hsz1) as (b2 & Hc & Hs2 & Hw2 & Hsz2);
    [lia|].
  rewrite Hc, <- Hs1, <- Hs2.
  apply IH. destruct Hsz2 as [Hs2' Hbf2].
  repeat split; try assumption; [lia | intros _; left; exact Hsep].
Qed.

(** [Clean] computes what the loop on the written output computes. *)
Lemma cleanBytes_prefix (p : bytes) : cleanBytes p = cleanPrefix p.
Proof.
  destruct p as [|c0 p']; [reflexivity|].
  unfold cleanBytes, cleanPrefix.
  set (n := length (c0 :: p')).
  set (b0 := {| s := c0 :: p'; buf := None; w := 0 |}).
  assert (Hsz0 : sized n b0) by (split; [reflexivity | intros; discriminate]).
  destruct (isSlash c0) eqn:H0.
  - assert (Hb1 : lazybuf_append b0 "/" = {| s := c0 :: p'; buf := None; w := 1 |}).
    { unfold lazybuf_append, b0. cbn [s buf w nth length Nat.ltb Nat.leb andb].
      unfold isSlash in H0. rewrite H0. reflexivity. }
    rewrite Hb1.
    destruct (cleanLoop_string n true n p' {| s := c0 :: p'; buf := None; w := 1 |} 1)
      as [Hs Hl].
    { repeat split; cbn [s buf w]; [intros; discriminate | subst n; simpl; lia |].
      intros Hp. discriminate. }
    cbn zeta in Hs, Hl. rewrite <- Hl, Hs.
    unfold isSlash in H0. apply Ascii.eqb_eq in H0. subst c0. reflexivity.
  - destruct (cleanLoop_string n false n (c0 :: p') b0 0) as [Hs Hl].
    { repeat split; cbn [s buf w]; [intros; discriminate | subst n; simpl; lia |].
      intros Hp. discriminate. }
    cbn zeta in Hs, Hl. rewrite <- Hl, Hs. reflexivity.
Qed.

Theorem cleanBytes_idempotent (p : bytes) :
  cleanBytes (cleanBytes p) = cleanBytes p.
Proof. rewrite !cleanBytes_prefix. apply cleanPrefix_idempotent. Qed.

Lemma cleanBytes_nonempty (p : bytes) : cleanBytes p <> [].
Proof. rewrite cleanBytes_prefix. apply cleanPrefix_nonempty. Qed.

Theorem Clean_idempotent (p : string) : Clean (Clean p) = Clean p.
Proof.
  unfold Clean. rewrite list_ascii_of_string_of_list_ascii.
  rewrite cleanBytes_idempotent. reflexivity.
Qed.

Lemma Clean_nonempty (p : string) : Clean p <> "".
Proof.
  unfold Clean. intros H.
  apply (f_equal list_ascii_of_string) in H.
  rewrite list_ascii_of_string_of_list_ascii in H.
  exact (cleanBytes_nonempty _ H).
Qed.

End path_facts.

(** ** Facts about programs and their runs *)
Section prog_facts.
Context {E : Type -> Type} {W : Type} (h : handler E W).

Lemma run_bind {A B} (p : prog E A) (f : A -> prog E B) (w : W) :
  run h (bind p f) w =
  match run h p w with
  | Some (a, w1, t1) =>
      match run h (f a) w1 with
      | Some (b, w2, t2) => Some (b, w2, t1 ++ t2)
      | None => None
      end
  | None => None
  end.
Proof.
  revert w. induction p as [a|X e k IH|]; intros w; simpl.
  - destruct (run h (f a) w) as [[[b w2] t2]|]; reflexivity.
  - destruct (h X e w) as [x w1]. rewrite IH.
    destruct (run h (k x) w1) as [[[a w2] t1]|]; [|reflexivity].
    destruct (run h (f a) w2) as [[[b w3] t2]|]; reflexivity.
  - reflexivity.
Qed.

Lemma run_call {X} (e : E X) (w : W) :
  run h (call e) w = Some (fst (h X e w), snd (h X e w), [Call e (fst (h X e w))]).
Proof. unfold call. simpl. destruct (h X e w). reflexivity. Qed.

Lemma allEvents_bind {A B} (P : forall X, E X -> Prop)
    (p : prog E A) (f : A -> prog E B) :
  allEvents P p -> (forall a, allEvents P (f a)) -> allEvents P (bind p f).
Proof.
  intros Hp Hf. induction p as [a|X e k IH|]; simpl in *.
  - apply Hf.
  - destruct Hp as [He Hk]. split; [exact He|]. intros x. apply IH, Hk.
  - exact I.
Qed.

Lemma allEvents_call {X} (P : forall X, E X -> Prop) (e : E X) :
  P X e -> allEvents P (call e).
Proof. intros H. simpl. split; [exact H | intros; exact I]. Qed.

Lemma allEvents_rangeLoop {A S} (P : forall X, E X -> Prop)
    (body : A -> S -> prog E (result S)) (l : list A) :
  (forall a s, In a l -> allEvents P (body a s)) ->
  forall s, allEvents P (rangeLoop l s body).
Proof.
  induction l as [|a l IH]; intros Hb s; simpl; [exact I|].
  apply allEvents_bind; [apply Hb; left; reflexivity|].
  intros [s'|e]; [|exact I]. apply IH. intros a' s0 Hin. apply Hb. right. exact Hin.
Qed.

(** An observation that no event of the program can make stays empty. *)
Lemma run_unobserved {A B} (obs : callRecord E -> option B)
    (P : forall X, E X -> Prop) :
  (forall X (e : E X) x, P X e -> obs (Call e x) = None) ->
  forall (p : prog E A) w a w' t,
  allEvents P p -> run h p w = Some (a, w', t) -> omap obs t = [].
Proof.
  intros Hobs p. induction p as [a0|X e k IH|]; intros w a w' t Hp Hr; simpl in *.
  - inversion Hr; subst. reflexivity.
  - destruct Hp as [He Hk]. destruct (h X e w) as [x w1].
    destruct (run h (k x) w1) as [[[a1 w2] t1]|] eqn:Hk1; [|discriminate].
    inversion Hr; subst. simpl. rewrite (Hobs _ _ _ He). eapply IH; eauto.
  - discriminate.
Qed.

Lemma run_bind_inv {A B} (p : prog E A) (f : A -> prog E B) w b w2 t :
  run h (bind p f) w = Some (b, w2, t) ->
  exists a w1 t1 t2,
    run h p w = Some (a, w1, t1) /\ run h (f a) w1 = Some (b, w2, t2) /\
    t = t1 ++ t2.
Proof.
  rewrite run_bind.
  destruct (run h p w) as [[[a w1] t1]|]; [|discriminate].
  destruct (run h (f a) w1) as [[[b' w2'] t2]|] eqn:Hf; [|discriminate].
  intros H. inversion H; subst. exists a, w1, t1, t2. auto.
Qed.

Lemma run_call_inv {X} (e : E X) w x w1 t :
  run h (call e) w = Some (x, w1, t) ->
  h X e w = (x, w1) /\ t = [Call e x].
Proof.
  rewrite run_call. destruct (h X e w) as [x' w1']. simpl.
  intros H. inversion H; subst. auto.
Qed.

Lemma run_ret_inv {A} (a : A) w a' w1 t :
  run h (Ret a) w = Some (a', w1, t) -> a' = a /\ w1 = w /\ t = [].
Proof. simpl. intros H. inversion H; subst. auto. Qed.

Lemma allEvents_impl {A} (P Q : forall X, E X -> Prop) (p : prog E A) :
  (forall X e, P X e -> Q X e) -> allEvents P p -> allEvents Q p.
Proof.
  intros HPQ. induction p as [a|X e k IH|]; simpl; auto.
  intros [He Hk]. split; [apply HPQ, He | intros x; apply IH, Hk].
Qed.

(** A loop keeps what each round of it keeps. *)
Lemma run_rangeLoop_invariant {A S} (I : S -> Prop)
    (body : A -> S -> prog E (result S)) (l : list A) :
  (forall a s w s' w' t, I s -> run h (body a s) w = Some (Ok s', w', t) -> I s') ->
  forall s w s' w' t,
  I s -> run h (rangeLoop l s body) w = Some (Ok s', w', t) -> I s'.
Proof.
  intros Hb. induction l as [|a l IH]; intros s w s' w' t Hs Hr; simpl in Hr.
  - inversion Hr; subst. exact Hs.
  - apply run_bind_inv in Hr as (r & w1 & t1 & t2 & H1 & H2 & _).
    destruct r as [s1|e]; [|simpl in H2; discriminate].
    eapply IH; [|exact H2]. eapply Hb; eauto.
Qed.

Lemma outcome_ret {A} (a : A) w (Q : A -> W -> trace E -> Prop) :
  Q a w [] -> outcome h (Ret a) w Q.
Proof. intros H. exists a, w, []. split; [reflexivity | exact H]. Qed.

Lemma outcome_call {X} (e : E X) w (Q : X -> W -> trace E -> Prop) :
  Q (fst (h X e w)) (snd (h X e w)) [Call e (fst (h X e w))] ->
  outcome h (call e) w Q.
Proof. intros H. eexists _, _, _. split; [apply run_call | exact H]. Qed.

Lemma outcome_bind {A B} (p : prog E A) (f : A -> prog E B) w
    (Q : B -> W -> trace E -> Prop) :
  outcome h p w (fun a w1 t1 => outcome h (f a) w1 (fun b w2 t2 => Q b w2 (t1 ++ t2))) ->
  outcome h (bind p f) w Q.
Proof.
  intros (a & w1 & t1 & Hp & b & w2 & t2 & Hf & HQ).
  exists b, w2, (t1 ++ t2). split; [|exact HQ].
  rewrite run_bind, Hp, Hf. reflexivity.
Qed.

Lemma outcome_weaken {A} (p : prog E A) w (Q Q' : A -> W -> trace E -> Prop) :
  (forall a w' t, Q a w' t -> Q' a w' t) -> outcome h p w Q -> outcome h p w Q'.
Proof. intros HQ (a & w' & t & Hr & H). exists a, w', t. auto. Qed.

(** A loop whose rounds all end does end; when it ends without error,
    every round did. *)
Lemma outcome_rangeLoop {A S} (G : A -> Prop)
    (body : A -> S -> prog E (result S)) (l : list A) :
  (forall a s w, In a l ->
     outcome h (body a s) w (fun r _ _ => (exists s', r = Ok s') -> G a)) ->
  forall s w,
  outcome h (rangeLoop l s body) w (fun r _ _ => (exists s', r = Ok s') -> Forall G l).
Proof.
  induction l as [|a l IH]; intros Hb s w; simpl.
  - apply outcome_ret. intros _. constructor.
  - apply outcome_bind.
    destruct (Hb a s w (or_introl eq_refl)) as (r & w1 & t1 & Hr & HG).
    exists r, w1, t1. split; [exact Hr|].
    destruct r as [s1|e].
    + eapply outcome_weaken; [|apply IH; intros; apply Hb; right; assumption].
      simpl. intros r2 _ _ H2 Hok. constructor; [apply HG; eauto | apply H2, Hok].
    + apply outcome_ret. intros [s' Hs]. discriminate.
Qed.

Lemma run_rangeLoop_rounds {A S} (R : A -> S -> result S -> Prop)
    (body : A -> S -> prog E (result S)) (l : list A) :
  (forall a s w r w' t, In a l -> run h (body a s) w = Some (r, w', t) -> R a s r) ->
  forall s w r w' t,
  run h (rangeLoop l s body) w = Some (r, w', t) -> rounds R l s r.
Proof.
  intros Hb. induction l as [|a l IH]; intros s w r w' t Hr; simpl in Hr.
  - inversion Hr; subst. constructor.
  - apply run_bind_inv in Hr as (r1 & w1 & t1 & t2 & H1 & H2 & ->).
    apply Hb in H1; [|left; reflexivity].
    destruct r1 as [s1|e].
    + eapply rounds_ok; [exact H1|].
      eapply IH; [|exact H2]. intros. eapply Hb; [right|]; eauto.
    + simpl in H2. inversion H2; subst. apply rounds_err, H1.
Qed.

(** The error a loop returns is the error of one of its rounds. *)
Lemma run_rangeLoop_err {A S} (P : error -> trace E -> Prop)
    (body : A -> S -> prog E (result S)) (l : list A) :
  (forall a s w e w' t, In a l -> run h (body a s) w = Some (Err e, w', t) -> P e t) ->
  (forall e t1 t2, P e t2 -> P e (t1 ++ t2)) ->
  (forall e t1, P e t1 -> P e (t1 ++ [])) ->
  forall s w e w' t,
  run h (rangeLoop l s body) w = Some (Err e, w', t) -> P e t.
Proof.
  intros Hb Hpre Hnil. induction l as [|a l IH]; intros s w e w' t Hr; simpl in Hr.
  - inversion Hr.
  - apply run_bind_inv in Hr as (r & w1 & t1 & t2 & H1 & H2 & ->).
    destruct r as [s1|e1].
    + apply Hpre. eapply IH; [|exact H2]. intros. eapply Hb; [right|]; eauto.
    + simpl in H2. inversion H2; subst. apply Hnil. eapply Hb; [left; reflexivity | exact H1].
Qed.

End prog_facts.

(** ** Facts about the executor *)
Module builder_facts.
Import path builder observe.

Lemma Join_cases (elem : list string) :
  (Join elem = "" /\ Forall (fun e => e = "") elem) \/
  (exists s, Join elem = Clean s).
Proof.
  induction elem as [|e es IH]; [left; split; [reflexivity | constructor]|].
  cbn [Join]. destruct (String.eqb e "") eqn:He.
  - apply String.eqb_eq in He. subst e.
    destruct IH as [[H1 H2]|H]; [left | right; exact H].
    split; [exact H1 | constructor; [reflexivity | exact H2]].
  - right. eexists. reflexivity.
Qed.

(** [joinPathSafe] accepts whatever [path.Join] has cleaned. *)
Lemma joinPathSafe_nonempty (elem : list string) :
  (exists e, In e elem /\ e <> "") ->
  joinPathSafe elem = Ok (Join elem) /\ Join elem <> "".
Proof.
  intros (e & Hin & Hne). unfold joinPathSafe.
  destruct (Join_cases elem) as [[_ Hall]|[s Hs]].
  - exfalso. apply Hne. rewrite Forall_forall in Hall.
    apply Hall, list_elem_of_In, Hin.
  - rewrite Hs, path_facts.Clean_idempotent, String.eqb_refl.
    split; [reflexivity | apply path_facts.Clean_nonempty].
Qed.

Lemma joinPathSafe_base (base name : string) :
  base <> "" -> joinPathSafe [base; name] = Ok (Join [base; name]).
Proof.
  intros H. apply joinPathSafe_nonempty. exists base. split; [left; reflexivity | exact H].
Qed.

Lemma joinPathSafe_root (name : string) :
  joinPathSafe [pathBuildRoot; name] = Ok (Join [pathBuildRoot; name]).
Proof. apply joinPathSafe_base. discriminate. Qed.

Ltac event_step :=
  first
    [ exact I
    | apply allEvents_call; exact I
    | apply allEvents_bind
    | apply allEvents_rangeLoop
    | progress intros
    | match goal with
      | |- allEvents _ (match ?x with _ => _ end) => destruct x
      | |- allEvents _ (if ?x then _ else _) => destruct x
      | |- allEvents _ (Ret _) => exact I
      | |- allEvents _ (let '(_, _) := ?x in _) => destruct x
      end ].

Ltac events := repeat event_step.

Lemma createInputDirectory_staging (fuel : nat) :
  forall instance digest base,
  allEvents staging (createInputDirectory fuel instance digest base).
Proof.
  induction fuel as [|fuel IH]; intros; [exact I|].
  cbn [createInputDirectory]. events. apply IH.
Qed.

Lemma prepareFilesystem_staging fuel request action command :
  allEvents staging (prepareFilesystem fuel request action command).
Proof.
  unfold prepareFilesystem. events. apply createInputDirectory_staging.
Qed.

Lemma uploadDirectory_quiet (fuel : nat) :
  forall instance basePath permitNonExistent children,
  allEvents quiet (uploadDirectory fuel instance basePath permitNonExistent children).
Proof.
  induction fuel as [|fuel IH]; intros; [exact I|].
  cbn [uploadDirectory]. events. apply IH.
Qed.

Lemma uploadTree_quiet fuel instance p :
  allEvents quiet (uploadTree fuel instance p).
Proof.
  unfold uploadTree. events. apply uploadDirectory_quiet.
Qed.

Lemma runCommand_local command : allEvents local (runCommand command).
Proof. unfold runCommand. events. Qed.


(** Taking a run apart: one hypothesis per call and per stage. *)
Ltac explode :=
  repeat match goal with
  | H : run _ (bind _ _) _ = Some _ |- _ =>
      let a := fresh "a" in let w := fresh "w" in
      let t1 := fresh "t" in let t2 := fresh "t" in
      let H1 := fresh "Hrun" in let Ht := fresh "Ht" in
      apply run_bind_inv in H as (a & w & t1 & t2 & H1 & H & Ht)
  | H : run _ (call _) _ = Some _ |- _ =>
      let Hh := fresh "Hcall" in let Ht := fresh "Ht" in
      apply run_call_inv in H as [Hh Ht]
  | H : run _ (Ret _) _ = Some _ |- _ =>
      let H1 := fresh in let H2 := fresh in let H3 := fresh in
      apply run_ret_inv in H as (H1 & H2 & H3)
  | H : run _ (match (match ?x with _ => _ end) with _ => _ end) _ = Some _ |- _ =>
      destruct x
  | H : run _ (match ?x with _ => _ end) _ = Some _ |- _ => destruct x
  | H : run _ (if ?x then _ else _) _ = Some _ |- _ => destruct x eqn:?
  | H : (_, _) = (_, _) |- _ => inversion H; clear H
  | H : Ok _ = Ok _ |- _ => inversion H; clear H
  | H : Err _ = Err _ |- _ => inversion H; clear H
  | H : Ok _ = Err _ |- _ => discriminate H
  | H : Err _ = Ok _ |- _ => discriminate H
  | H : Some _ = Some _ |- _ => inversion H; clear H
  | H : Some _ = None |- _ => discriminate H
  | H : None = Some _ |- _ => discriminate H
  end; subst.

Section runs.
Context {W : Type} (h : handler event W).

Lemma spawns_app (t1 t2 : trace event) : spawns (t1 ++ t2) = spawns t1 ++ spawns t2.
Proof. apply omap_app. Qed.
Lemma fetchedActions_app (t1 t2 : trace event) :
  fetchedActions (t1 ++ t2) = fetchedActions t1 ++ fetchedActions t2.
Proof. apply omap_app. Qed.
Lemma fetchedCommands_app (t1 t2 : trace event) :
  fetchedCommands (t1 ++ t2) = fetchedCommands t1 ++ fetchedCommands t2.
Proof. apply omap_app. Qed.
Lemma putFiles_app (t1 t2 : trace event) : putFiles (t1 ++ t2) = putFiles t1 ++ putFiles t2.
Proof. apply omap_app. Qed.

Lemma staging_silent {A} (p : M A) w a w' t :
  allEvents staging p -> run h p w = Some (a, w', t) ->
  spawns t = [] /\ fetchedActions t = [] /\ fetchedCommands t = [] /\ putFiles t = [].
Proof.
  intros Hp Hr. repeat split;
    (eapply (run_unobserved h _ staging); [|exact Hp | exact Hr]);
    intros X e x; destruct e; simpl; intros []; reflexivity.
Qed.

Lemma quiet_silent {A} (p : M A) w a w' t :
  allEvents quiet p -> run h p w = Some (a, w', t) ->
  spawns t = [] /\ fetchedActions t = [] /\ fetchedCommands t = [].
Proof.
  intros Hp Hr. repeat split;
    (eapply (run_unobserved h _ quiet); [|exact Hp | exact Hr]);
    intros X e x; destruct e; simpl; intros []; reflexivity.
Qed.

Lemma local_silent {A} (p : M A) w a w' t :
  allEvents local p -> run h p w = Some (a, w', t) ->
  fetchedActions t = [] /\ fetchedCommands t = [] /\ putFiles t = [].
Proof.
  intros Hp Hr. repeat split;
    (eapply (run_unobserved h _ local); [|exact Hp | exact Hr]);
    intros X e x; destruct e; simpl; intros []; reflexivity.
Qed.

Lemma fold_left_env (f : EnvironmentVariable -> string) (l : list EnvironmentVariable) :
  forall init, fold_left (fun env v => env ++ [f v]) l init = init ++ map f l.
Proof.
  induction l as [|v l IH]; intros init; simpl.
  - symmetry. apply app_nil_r.
  - rewrite IH, <- app_assoc. reflexivity.
Qed.

(** [runCommand] starts at most one process; when it starts one it
    returns what running it returned. *)
Lemma runCommand_run command w err w' t :
  run h (runCommand command) w = Some (err, w', t) ->
  (spawns t = [] /\ err <> None /\ (Arguments command = [] -> err = Some noArguments)) \/
  (exists cmd, spawns t = [(cmd, err)] /\ commandOf command cmd /\
               Arguments command <> []).
Proof.
  unfold runCommand. intros H.
  destruct (Arguments command) as [|arg0 args] eqn:Hargs.
  { explode. left. repeat split; discriminate. }
  rewrite joinPathSafe_root in H. explode.
  - right. eexists. split; [reflexivity|]. split; [|discriminate].
    repeat split; cbn [Cmd_Args Cmd_Env Cmd_Dir Cmd_SysProcAttr hd];
      rewrite ?Hargs; try reflexivity.
    unfold childEnv.
    apply (fold_left_env (fun v => (Name v ++ "=" ++ Value v)%string)).
  - left. repeat split; discriminate.
  - left. repeat split; discriminate.
Qed.


Ltac observed :=
  repeat match goal with
  | H : run _ (prepareFilesystem _ _ _ _) _ = Some _ |- _ =>
      apply staging_silent in H as (? & ? & ? & ?);
      [|apply prepareFilesystem_staging]
  | H : run _ (runCommand _) _ = Some _ |- _ =>
      let F := fresh in
      pose proof (local_silent _ _ _ _ _ (runCommand_local _) H) as F;
      destruct F as (? & ? & ?);
      apply runCommand_run in H
  | H : run _ (rangeLoop ?l ?s ?body) _ = Some (?r, _, _) |- _ =>
      let F := fresh in let G := fresh in
      assert (F : allEvents quiet (rangeLoop l s body))
        by (repeat first [apply uploadTree_quiet | event_step]);
      pose proof (quiet_silent _ _ _ _ _ F H) as G;
      destruct G as (? & ? & ?); clear F;
      lazymatch r with
      | Ok _ =>
          apply (run_rangeLoop_invariant _ (fun R => ExitCode R = ExitCode s)) in H;
          [cbn [ExitCode] in H | intros; explode; assumption | reflexivity]
      | Err _ => clear H
      end
  end.

Ltac unapp :=
  rewrite ?spawns_app, ?fetchedActions_app, ?fetchedCommands_app, ?putFiles_app;
  repeat match goal with
  | H : spawns ?t = _ |- _ => rewrite H; clear H
  | H : fetchedActions ?t = _ |- _ => rewrite H; clear H
  | H : fetchedCommands ?t = _ |- _ => rewrite H; clear H
  | H : putFiles ?t = _ |- _ => rewrite H; clear H
  end.

Ltac obs := solve [unapp; reflexivity].

Lemma Execute_outcome fuel request w resp c w' t :
  run h (Execute fuel request) w = Some (resp, c, w', t) ->
  exists ra, fetchedActions t = [ra] /\
  match ra with
  | Err e => failed e resp c t /\ fetchedCommands t = []
  | Ok action =>
    exists rc, fetchedCommands t = [rc] /\
    match rc with
    | Err e => failed e resp c t
    | Ok command =>
        (exists e, failed e resp c t) \/
        (exists err,
           ((spawns t = [] /\ err <> None /\
             (Arguments command = [] -> err = Some noArguments)) \/
            (exists cmd, spawns t = [(cmd, err)] /\ commandOf command cmd /\
                         Arguments command <> [])) /\
           afterRun action err resp c t)
    end
  end.
Proof.
  unfold Execute. intros H. explode; observed.
  all: eexists; (split; [obs|]); cbv beta iota.
  all: try (eexists; (split; [obs|]); cbv beta iota).
  all: try solve [unfold failed; repeat split; obs].
  all: try solve [left; eexists; unfold failed; repeat split; obs].
  all: right; eexists; split;
    [ match goal with
      | H : _ \/ _ |- _ =>
          destruct H as [[Hs Hne]|(cmd & Hs & Hc & Ha)];
          [ left; split; [obs | exact Hne]
          | right; exists cmd; split; [obs | split; assumption] ]
      end
    | cbv beta iota delta [afterRun harvested] ].
  all: try solve [repeat split; obs].
  all: (split; [eexists; eexists; obs|]).
  all: try solve [left; eexists; split; reflexivity].
  all: right; eexists; split; [reflexivity|]; split; [congruence | reflexivity].
Qed.

Lemma ExitStatus_range (ws : Z) : (-1 <= ExitStatus ws <= 255)%Z.
Proof.
  unfold ExitStatus. destruct (Z.land ws 127 =? 0)%Z; [|lia].
  assert (E : Z.land (Z.shiftr ws 8) 255 = ((Z.shiftr ws 8) mod 256)%Z).
  { change 255%Z with (Z.ones 8). apply Z.land_ones. lia. }
  rewrite E.
  assert (B := Z.mod_pos_bound (Z.shiftr ws 8) 256 eq_refl). lia.
Qed.

Lemma int32_small (z : Z) : (- 2 ^ 31 <= z < 2 ^ 31)%Z -> int32 z = z.
Proof.
  intros Hz. unfold int32.
  destruct (Z_lt_le_dec z 0) as [Hneg|Hpos].
  - replace (z mod 2 ^ 32)%Z with (z + 2 ^ 32)%Z
      by (apply Z.mod_unique with (q := (-1)%Z); lia).
    destruct (z + 2 ^ 32 <? 2 ^ 31)%Z eqn:E; [apply Z.ltb_lt in E|]; lia.
  - rewrite Z.mod_small by lia.
    destruct (z <? 2 ^ 31)%Z eqn:E; [reflexivity | apply Z.ltb_ge in E; lia].
Qed.


(** C1: the cacheable flag of an Execute that built an ActionResult is
    true exactly when the action's DoNotCache is false and the result's
    exit code is 0; an Execute that returns an error response returns
    cacheable = false. *)
Theorem Execute_cacheable fuel request w resp cacheable w' t :
  run h (Execute fuel request) w = Some (resp, cacheable, w', t) ->
  match Result resp with
  | Some result =>
      exists action,
        fetchedActions t = [Ok action] /\
        (cacheable = true <-> DoNotCache action = false /\ ExitCode result = 0%Z)
  | None =>
      (exists err, resp = convertErrorToExecuteResponse err) /\ cacheable = false
  end.
Proof.
  intros H. apply Execute_outcome in H as (ra & Hra & H).
  assert (Hfail : forall e, failed e resp cacheable t ->
            match Result resp with
            | Some result =>
                exists action,
                  fetchedActions t = [Ok action] /\
                  (cacheable = true <-> DoNotCache action = false /\ ExitCode result = 0%Z)
            | None =>
                (exists err, resp = convertErrorToExecuteResponse err) /\ cacheable = false
            end).
  { intros e (-> & -> & _). simpl. split; [eexists; reflexivity | reflexivity]. }
  destruct ra as [action|e]; [|destruct H as [H _]; eapply Hfail, H].
  destruct H as (rc & _ & H).
  destruct rc as [command|e]; [|eapply Hfail, H].
  destruct H as [[e H]|(err & _ & H)]; [eapply Hfail, H|].
  assert (Hh : forall z, harvested action z resp cacheable t ->
            match Result resp with
            | Some result =>
                exists action,
                  fetchedActions t = [Ok action] /\
                  (cacheable = true <-> DoNotCache action = false /\ ExitCode result = 0%Z)
            | None =>
                (exists err, resp = convertErrorToExecuteResponse err) /\ cacheable = false
            end).
  { intros z [_ [(e & -> & ->)|(R & -> & _ & ->)]]; simpl.
    - split; [eexists; reflexivity | reflexivity].
    - exists action. split; [exact Hra|].
      rewrite andb_true_iff, negb_true_iff, Z.eqb_eq. reflexivity. }
  unfold afterRun in H.
  destruct err as [[s|op pth errno|ws|code msg]|]; try (eapply Hh, H);
    destruct H as (-> & -> & _); simpl;
    (split; [eexists; reflexivity | reflexivity]).
Qed.











(** C8: the environment of the child process is the entry HOME=/tmp
    followed by the name=value pairs the Command declares, in their
    order, and nothing else. *)
Theorem Execute_child_environment fuel request w resp cacheable w' t cmd err :
  run h (Execute fuel request) w = Some (resp, cacheable, w', t) ->
  In (cmd, err) (spawns t) ->
  exists command,
    fetchedCommands t = [Ok command] /\
    Cmd_Env cmd =
      ("HOME=" ++ pathTempRoot)%string ::
      map (fun v => (Name v ++ "=" ++ Value v)%string) (EnvironmentVariables command).
Proof.
  intros H Hin. apply Execute_outcome in H as (ra & _ & H).
  assert (Hnil : spawns t = [] -> False) by (intros E; rewrite E in Hin; inversion Hin).
  destruct ra as [action|e]; [|destruct H as [(_ & _ & E & _) _]; destruct (Hnil E)].
  destruct H as (rc & Hrc & H).
  destruct rc as [command|e]; [|destruct H as (_ & _ & E & _); destruct (Hnil E)].
  destruct H as [[e (_ & _ & E & _)]|(err' & Hs & H)]; [destruct (Hnil E)|].
  destruct Hs as [[E _]|(cmd' & E & Hc & _)]; [destruct (Hnil E)|].
  rewrite E in Hin. apply list_elem_of_In, list_elem_of_singleton in Hin.
  inversion Hin; subst. exists command. split; [exact Hrc|].
  destruct Hc as (_ & Henv & _). exact Henv.
Qed.

(** C6, as the code has it: with an empty argument vector [runCommand]
    returns the plain error "Insufficent number of command arguments"
    before it issues any call, so no process is spawned; the error
    carries no gRPC code, and Execute answers with an error response. *)
Theorem runCommand_no_arguments (command : Command) :
  Arguments command = [] ->
  runCommand command = Ret (Some noArguments) /\
  status_Code noArguments = codes.Unknown /\
  forall fuel request w resp cacheable w' t,
    run h (Execute fuel request) w = Some (resp, cacheable, w', t) ->
    fetchedCommands t = [Ok command] ->
    spawns t = [] /\ Result resp = None /\ cacheable = false.
Proof.
  intros Hargs. split; [unfold runCommand; rewrite Hargs; reflexivity|].
  split; [reflexivity|].
  intros fuel request w resp cacheable w' t H Hcmd.
  apply Execute_outcome in H as (ra & _ & H).
  destruct ra as [action|e].
  2:{ destruct H as [_ E]. rewrite E in Hcmd. discriminate. }
  destruct H as (rc & Hrc & H). rewrite Hrc in Hcmd. inversion Hcmd; subst rc.
  destruct H as [[e (-> & -> & E & _)]|(err & Hs & H)]; [auto|].
  destruct Hs as [(E & _ & Herr)|(cmd & _ & _ & Hne)]; [|congruence].
  rewrite (Herr Hargs) in H. destruct H as (-> & -> & _). auto.
Qed.

End runs.

(** *** Symlinks in the input root *)
Section symlinks.
Context {W : Type} (h : handler event W) (request : ExecuteRequest).
Context (getDir : option Digest -> result Directory).
Hypothesis Hdir :
  forall d w, fst (h _ (GetDirectory (InstanceName request) d) w) = getDir d.

Ltac in_trace :=
  unfold answeredErrors in *; rewrite ?omap_app; rewrite ?in_app_iff; simpl;
  first [tauto | intuition auto].

(** Staging a finite tree ends, and it ends in an error when a directory
    of the tree has symlinks. *)
Lemma createInputDirectory_ends (n : nat) :
  forall fuel d base w,
  n <= fuel -> finiteTree getDir n d ->
  outcome h (createInputDirectory fuel (InstanceName request) d base) w
    (fun r _ _ => hasSymlinks getDir n d -> r <> None).
Proof.
  induction n as [|n IH]; intros fuel d base w Hle Hfin; [destruct Hfin|].
  destruct fuel as [|fuel]; [lia|].
  cbn [createInputDirectory finiteTree hasSymlinks] in *.
  apply outcome_bind, outcome_call.
  destruct (fst (h _ (os_Mkdir base 511) w)) as [e|];
    [apply outcome_ret; intros _; discriminate|].
  apply outcome_bind, outcome_call. rewrite Hdir.
  destruct (getDir d) as [D|e]; [|apply outcome_ret; intros _; discriminate].
  apply outcome_bind.
  eapply outcome_weaken; [|apply (outcome_rangeLoop h (fun _ => True))].
  2:{ intros file s w0 _. destruct (joinPathSafe _);
        [|apply outcome_ret; auto].
      apply outcome_bind, outcome_call.
      destruct (fst _); apply outcome_ret; auto. }
  intros r w1 t1 _. simpl.
  destruct r as [[]|e]; [|apply outcome_ret; intros _; discriminate].
  apply outcome_bind.
  eapply outcome_weaken;
    [|apply (outcome_rangeLoop h
               (fun c => ~ hasSymlinks getDir n (DirectoryNode_Digest c)))].
  2:{ intros c s w0 Hin. destruct (joinPathSafe _) as [childPath|e];
        [|apply outcome_ret; intros [s' Hs]; discriminate].
      apply outcome_bind.
      apply outcome_weaken with
        (Q := fun r _ _ => hasSymlinks getDir n (DirectoryNode_Digest c) -> r <> None);
        [|apply IH; [lia|]].
      - intros r0 w9 t9 Hr. simpl.
        destruct r0 as [e0|]; apply outcome_ret;
          [intros [s' Hs]; discriminate|].
        intros _ Hsym. apply Hr in Hsym. congruence.
      - rewrite Forall_forall in Hfin. apply Hfin, list_elem_of_In, Hin. }
  intros r w2 t2 HG. simpl.
  destruct r as [[]|e]; [|apply outcome_ret; intros _; discriminate].
  destruct (Symlinks D) as [|l ls]; simpl; apply outcome_ret; [|intros _; discriminate].
  intros [Hs|Hs]; [congruence|].
  assert (HF := HG (ex_intro _ tt eq_refl)).
  apply Exists_exists in Hs as (c & Hc & Hsym).
  rewrite Forall_forall in HF. destruct (HF c Hc Hsym).
Qed.

(** The error of a failed staging is the symlink error or an error one
    of the calls returned. *)
Lemma createInputDirectory_error (fuel : nat) :
  forall d base w e w' t,
  base <> "" ->
  run h (createInputDirectory fuel (InstanceName request) d base) w
    = Some (Some e, w', t) ->
  e = symlinkError \/ In e (answeredErrors t).
Proof.
  induction fuel as [|fuel IH]; intros d base w e w' t Hbase H; [discriminate|].
  cbn [createInputDirectory] in H.
  assert (Hmono : forall e t1 t2,
            e = symlinkError \/ In e (answeredErrors t2) ->
            e = symlinkError \/ In e (answeredErrors (t1 ++ t2)))
    by (intros; in_trace).
  assert (Hnil : forall e t1,
            e = symlinkError \/ In e (answeredErrors t1) ->
            e = symlinkError \/ In e (answeredErrors (t1 ++ [])))
    by (intros; in_trace).
  explode; try solve [left; reflexivity]; try solve [right; in_trace].
  all: match goal with
       | Hl : run _ (rangeLoop _ _ _) _ = Some (Err ?e, _, ?t) |- _ =>
           assert (He : e = symlinkError \/ In e (answeredErrors t));
           [ eapply (run_rangeLoop_err h
                       (fun e t => e = symlinkError \/ In e (answeredErrors t)));
             [ | exact Hmono | exact Hnil | exact Hl ];
             intros c s w5 e' w6 t7 _ Hb; cbv beta in Hb;
             rewrite joinPathSafe_base in Hb by exact Hbase;
             explode
           | in_trace ]
       end.
  all: try solve [right; in_trace].
  match goal with
  | Hc : run _ (createInputDirectory _ _ _ _) _ = Some _ |- _ =>
      apply IH in Hc; [in_trace|]
  end.
  apply joinPathSafe_nonempty. exists base. split; [left; reflexivity | exact Hbase].
Qed.

(** C7, as the code has it: when the input tree, as the CAS serves it,
    is finite and one of its directories has a SymlinkNode, Execute ends
    in an error response with cacheable = false and spawns nothing.  The
    error is the plain error "Creating symlinks in the input root is not
    yet supported", whose status code is Unknown, or an error that one of
    the calls made before returned. *)
Theorem Execute_input_symlinks (n fuel : nat) :
  n <= fuel ->
  (forall w action,
     fst (h _ (GetAction (InstanceName request) (ActionDigest request)) w) = Ok action ->
     finiteTree getDir n (InputRootDigest action) /\
     hasSymlinks getDir n (InputRootDigest action)) ->
  forall w, exists e w' t,
    run h (Execute fuel request) w
      = Some (convertErrorToExecuteResponse e, false, w', t) /\
    spawns t = [] /\
    (e = symlinkError \/ In e (answeredErrors t)) /\
    status_Code symlinkError = codes.Unknown.
Proof.
  intros Hle Hroot w.
  cut (outcome h (Execute fuel request) w
         (fun rc _ t => exists e, rc = (convertErrorToExecuteResponse e, false) /\
                        spawns t = [] /\
                        (e = symlinkError \/ In e (answeredErrors t)))).
  { intros ([resp c] & w' & t & Hr & e & Hrc & Hs & He).
    inversion Hrc; subst. exists e, w', t. auto. }
  unfold Execute.
  apply outcome_bind, outcome_call.
  apply outcome_bind, outcome_call.
  destruct (fst (h _ (GetAction _ _) _)) as [action|e] eqn:Ea.
  2:{ apply outcome_ret. exists e. repeat split. right. in_trace. }
  apply outcome_bind, outcome_call.
  destruct (fst (h _ (GetCommand _ _) _)) as [command|e] eqn:Ec.
  2:{ apply outcome_ret. exists e. repeat split. right. in_trace. }
  apply outcome_bind, outcome_call.
  apply outcome_bind, outcome_call.
  apply outcome_bind. unfold prepareFilesystem.
  apply outcome_bind, outcome_call.
  apply outcome_bind.
  destruct (Hroot _ _ Ea) as [Hfin Hsym].
  match goal with
  | |- outcome _ (createInputDirectory _ _ _ ?b) ?w0 _ =>
      destruct (createInputDirectory_ends n fuel (InputRootDigest action) b w0 Hle Hfin)
        as (r & w1 & t1 & Hr & Hne)
  end.
  exists r, w1, t1. split; [exact Hr|].
  destruct r as [e|]; [|destruct (Hne Hsym eq_refl)].
  destruct (staging_silent h _ _ _ _ _ (createInputDirectory_staging _ _ _ _) Hr)
    as (Hsp & _).
  apply createInputDirectory_error in Hr; [|discriminate].
  apply outcome_ret. cbv beta iota. apply outcome_ret.
  exists e. split; [reflexivity|]. split.
  - unfold spawns in *. rewrite ?omap_app, Hsp. reflexivity.
  - destruct Hr as [Hr|Hr]; [left; exact Hr | right; in_trace].
Qed.

End symlinks.

(** *** The harvest *)
Section harvest.
Context {W : Type} (h : handler event W) (request : ExecuteRequest).
Context (putAns : string -> result (Digest * bool)).
Context (dirAns : string -> result (list FileInfo)).
Hypothesis Hput :
  forall p w, fst (h _ (PutFile (InstanceName request) p) w) = putAns p.
Hypothesis Hdir : forall p w, fst (h _ (ioutil_ReadDir p) w) = dirAns p.

Lemma fileRounds (l : list string) s r :
  rounds (fileRound putAns) l s r ->
  match r with
  | Ok s' =>
      ResultOutputFiles s' = ResultOutputFiles s ++ omap (harvestedFile putAns) l /\
      ResultOutputDirectories s' = ResultOutputDirectories s /\
      Forall (fun f => fileAborts putAns f = false) l
  | Err _ => Exists (fun f => fileAborts putAns f = true) l
  end.
Proof.
  induction 1 as [s|f l s s1 r (Hf & Hfiles & Hdirs) _ IH|f l s e Hf].
  - rewrite app_nil_r. repeat split. constructor.
  - destruct r as [s'|e].
    + destruct IH as (IH1 & IH2 & IH3). repeat split.
      * rewrite IH1, Hfiles, <- app_assoc. f_equal. simpl.
        destruct (harvestedFile putAns f); reflexivity.
      * congruence.
      * constructor; assumption.
    + apply Exists_cons_tl, IH.
  - apply Exists_cons_hd, Hf.
Qed.

Lemma dirRounds (l : list string) s r :
  rounds (dirRound dirAns) l s r ->
  match r with
  | Ok s' =>
      ResultOutputFiles s' = ResultOutputFiles s /\
      map OutputDirectory_Path (ResultOutputDirectories s') =
        map OutputDirectory_Path (ResultOutputDirectories s) ++
        List.filter (fun d => negb (dirMissing dirAns d)) l
  | Err _ => Exists (fun d => dirMissing dirAns d = false) l
  end.
Proof.
  induction 1 as [s|d l s s1 r (Hfiles & Hdirs) _ IH|d l s e Hd].
  - rewrite app_nil_r. split; reflexivity.
  - destruct r as [s'|e].
    + destruct IH as (IH1 & IH2). split; [congruence|].
      rewrite IH2, Hdirs, <- app_assoc. f_equal. simpl.
      destruct (dirMissing dirAns d); reflexivity.
    + apply Exists_cons_tl, IH.
  - apply Exists_cons_hd, Hd.
Qed.

(** [uploadTree] returns no digest exactly for a directory that does not
    exist. *)
Lemma uploadTree_missing fuel p w r w' t :
  run h (uploadTree fuel (InstanceName request) p) w = Some (r, w', t) ->
  match dirAns p with Ok _ => false | Err e => os_IsNotExist e end =
  match r with Ok None => true | _ => false end.
Proof.
  unfold uploadTree. intros H.
  apply run_bind_inv in H as (r0 & w1 & t1 & t2 & H1 & H2 & _).
  destruct fuel as [|fuel]; [discriminate|].
  cbn [uploadDirectory] in H1.
  apply run_bind_inv in H1 as (rd & w2 & t3 & t4 & Hc & H1 & _).
  apply run_call_inv in Hc as [Hc _].
  rewrite <- (Hdir p w), Hc. cbn [fst].
  destruct rd as [files|e].
  - explode; reflexivity.
  - cbn [andb] in H1. destruct (os_IsNotExist e); explode; reflexivity.
Qed.

Lemma outputFiles_rounds (l : list string) (body : string -> ActionResult -> M (result ActionResult)) :
  (forall outputFile result, body outputFile result =
     match joinPathSafe [pathBuildRoot; outputFile] with
     | Err err => Ret (Err err)
     | Ok outputPath =>
       let* r := call (PutFile (InstanceName request) outputPath) in
       match r with
       | Err err => if os_IsNotExist err then Ret (Ok result) else Ret (Err err)
       | Ok (digest, isExecutable) =>
         Ret (Ok {| ResultOutputFiles := ResultOutputFiles result ++
                      [{| OutputFile_Path := outputFile;
                          OutputFile_Digest := Some digest;
                          OutputFile_IsExecutable := isExecutable |}];
                    ResultOutputDirectories := ResultOutputDirectories result;
                    ExitCode := ExitCode result;
                    StdoutDigest := StdoutDigest result;
                    StderrDigest := StderrDigest result |})
       end
     end) ->
  forall s w r w' t,
  run h (rangeLoop l s body) w = Some (r, w', t) -> rounds (fileRound putAns) l s r.
Proof.
  intros Hbody. apply run_rangeLoop_rounds.
  intros f s w r w' t _ Hb. rewrite Hbody, joinPathSafe_root in Hb.
  apply run_bind_inv in Hb as (x & w1 & t1 & t2 & Hc & Hb & _).
  apply run_call_inv in Hc as [Hc _].
  assert (F := Hput (Join [pathBuildRoot; f]) w). rewrite Hc in F. cbn [fst] in F.
  unfold fileRound, fileAborts, harvestedFile. rewrite <- F.
  explode; simpl; rewrite ?app_nil_r;
    repeat match goal with E : os_IsNotExist _ = _ |- _ => rewrite E end; auto.
Qed.

Lemma outputDirectories_rounds fuel (l : list string)
    (body : string -> ActionResult -> M (result ActionResult)) :
  (forall outputDirectory result, body outputDirectory result =
     match joinPathSafe [pathBuildRoot; outputDirectory] with
     | Err err => Ret (Err err)
     | Ok outputPath =>
       let* r := uploadTree fuel (InstanceName request) outputPath in
       match r with
       | Err err => Ret (Err err)
       | Ok None => Ret (Ok result)
       | Ok (Some digest) =>
         Ret (Ok {| ResultOutputFiles := ResultOutputFiles result;
                    ResultOutputDirectories := ResultOutputDirectories result ++
                      [{| OutputDirectory_Path := outputDirectory;
                          OutputDirectory_TreeDigest := Some digest |}];
                    ExitCode := ExitCode result;
                    StdoutDigest := StdoutDigest result;
                    StderrDigest := StderrDigest result |})
       end
     end) ->
  forall s w r w' t,
  run h (rangeLoop l s body) w = Some (r, w', t) -> rounds (dirRound dirAns) l s r.
Proof.
  intros Hbody. apply run_rangeLoop_rounds.
  intros d s w r w' t _ Hb. rewrite Hbody, joinPathSafe_root in Hb.
  apply run_bind_inv in Hb as (x & w1 & t1 & t2 & Hc & Hb & _).
  apply uploadTree_missing in Hc.
  unfold dirRound, dirMissing. rewrite Hc.
  explode; simpl; rewrite ?app_nil_r, ?map_app; auto.
Qed.

Ltac silenced :=
  repeat match goal with
  | H : run _ (prepareFilesystem _ _ _ _) _ = Some _ |- _ =>
      apply (staging_silent h) in H as (? & ? & ? & ?);
      [|apply prepareFilesystem_staging]
  | H : run _ (runCommand _) _ = Some _ |- _ =>
      apply (local_silent h) in H as (? & ? & ?);
      [|apply runCommand_local]
  | H : run _ (rangeLoop ?l ?s ?body) _ = Some _ |- _ =>
      let F := fresh in let G := fresh in
      assert (F : allEvents quiet (rangeLoop l s body))
        by (repeat first [apply uploadTree_quiet | event_step]);
      pose proof (quiet_silent h _ _ _ _ _ F H) as G;
      destruct G as (? & ? & ?); clear F;
      lazymatch l with
      | OutputFiles _ =>
          apply outputFiles_rounds in H; [apply fileRounds in H | reflexivity]
      | OutputDirectories _ =>
          eapply outputDirectories_rounds in H; [apply dirRounds in H | reflexivity]
      end
  end.

(** C5: what an Execute that built an ActionResult lists, and that
    missing outputs are skipped.  The result lists, in the order of the
    command's declarations, the declared output files whose upload
    succeeded and the declared output directories that exist; no other
    upload of a declared file failed than with ENOENT.  Once the harvest
    is reached, missing declared files and directories do not make the
    Execute fail. *)
Theorem Execute_harvest fuel w resp cacheable w' t command :
  run h (Execute fuel request) w = Some (resp, cacheable, w', t) ->
  fetchedCommands t = [Ok command] ->
  (forall result, Result resp = Some result ->
     ResultOutputFiles result = omap (harvestedFile putAns) (OutputFiles command) /\
     Forall (fun f => fileAborts putAns f = false) (OutputFiles command) /\
     map OutputDirectory_Path (ResultOutputDirectories result) =
       List.filter (fun d => negb (dirMissing dirAns d)) (OutputDirectories command)) /\
  (putFiles t <> [] ->
   isOk (putAns pathStdout) = true -> isOk (putAns pathStderr) = true ->
   Forall (fun f => fileAborts putAns f = false) (OutputFiles command) ->
   Forall (fun d => dirMissing dirAns d = true) (OutputDirectories command) ->
   exists result, Result resp = Some result).
Proof.
  unfold Execute. intros H Hcmd. explode; silenced.
  all: unfold fetchedCommands in Hcmd; rewrite ?omap_app in Hcmd;
    repeat match goal with
    | E : fetchedCommands ?t = [] |- _ =>
        unfold fetchedCommands in E; rewrite E in Hcmd; clear E
    end;
    simpl in Hcmd; try discriminate Hcmd; inversion Hcmd; subst; clear Hcmd.
  all: (split; [intros result0 Hres; simpl in Hres; try discriminate Hres|]).
  all: try (intros Hreach Hout Herr Hfiles Hdirs).
  all: try solve [eexists; reflexivity].
  all: try solve
    [ exfalso; apply Hreach; unfold putFiles in *; rewrite ?omap_app;
      repeat match goal with E : omap putFile _ = [] |- _ => rewrite E end;
      reflexivity ].
  all: try solve
    [ exfalso;
      match goal with
      | Hc : h _ (PutFile _ ?p) ?w0 = (Err _, _) |- _ =>
          let F := fresh in
          pose proof (Hput p w0) as F; rewrite Hc in F; cbn [fst] in F;
          rewrite <- F in *; discriminate
      end ].
  all: try solve
    [ exfalso;
      match goal with
      | Hx : Exists _ _ |- _ =>
          let x := fresh in let Hin := fresh in
          apply Exists_exists in Hx as (x & Hin & Hx);
          rewrite Forall_forall in Hfiles, Hdirs;
          first [ specialize (Hfiles x Hin) | specialize (Hdirs x Hin) ];
          congruence
      end ].
  all: inversion Hres; subst result0;
    match goal with
    | Hf : _ /\ _ /\ Forall _ _, Hd : _ /\ map _ _ = _ |- _ =>
        destruct Hf as (Hf1 & Hf2 & Hf3); destruct Hd as (Hd1 & Hd2);
        cbn [ResultOutputFiles ResultOutputDirectories] in Hf1, Hf2;
        rewrite Hf2 in Hd2; cbn [map app] in Hd2, Hf1;
        repeat split; [congruence | exact Hf3 | exact Hd2]
    end.
Qed.

End harvest.

(** C3, as the code has it: whenever some element is non-empty,
    [joinPathSafe] returns the joined path and no error, because
    [path.Join] has already cleaned it; the result is itself non-empty, so
    a path built from it is accepted in turn.  Every caller passes the
    build root or such a result as first element. *)
Theorem joinPathSafe_never_rejects (elem : list string) :
  (exists e, In e elem /\ e <> "") ->
  joinPathSafe elem = Ok (Join elem) /\
  Clean (Join elem) = Join elem /\
  Join elem <> "" /\
  forall name, joinPathSafe [Join elem; name] = Ok (Join [Join elem; name]).
Proof.
  intros H. destruct (joinPathSafe_nonempty elem H) as [Hok Hne].
  repeat split; [exact Hok | | exact Hne | intros name; apply joinPathSafe_base, Hne].
  destruct (Join_cases elem) as [[E _]|[s E]]; [congruence|].
  rewrite E. apply path_facts.Clean_idempotent.
Qed.

(** C3 as stated fails on the empty list: [path.Join] returns the empty
    string, which [path.Clean] turns into ".". *)
Lemma joinPathSafe_rejects_nothing_joined :
  ~ (forall elem, joinPathSafe elem = Ok (Join elem)).
Proof. intros H. specialize (H []). vm_compute in H. discriminate H. Qed.

(** C2 at a failing input: an output path that climbs out of the build
    root is accepted, its parent is created outside the build root and
    the file found there is uploaded as an output. *)
Theorem Execute_accepts_dotdot :
  joinPathSafe [pathBuildRoot; "../etc/passwd"] = Ok "/etc/passwd" /\
  exists w' t,
    run (script.answer
           (script.setup (script.action false)
              (script.command ["/bin/true"] ["../etc/passwd"] [])
              script.emptyDirectory
              [("/etc/passwd", (script.digestOf "pw", false))] [] None))
      (Execute 1 script.request) 0%Z
    = Some ({| Result := Some
                 {| ResultOutputFiles :=
                      [{| OutputFile_Path := "../etc/passwd";
                          OutputFile_Digest := Some (script.digestOf "pw");
                          OutputFile_IsExecutable := false |}];
                    ResultOutputDirectories := [];
                    ExitCode := 0;
                    StdoutDigest := Some (script.digestOf "out");
                    StderrDigest := Some (script.digestOf "err") |};
               ResponseStatus := None |}, true, w', t) /\
    In (Call (os_MkdirAll "/etc" 511) None) t /\
    In (Call (PutFile "main" "/etc/passwd") (Ok (script.digestOf "pw", false))) t.
Proof.
  split; [vm_compute; reflexivity|].
  eexists. eexists. split; [vm_compute; reflexivity|].
  split; simpl; tauto.
Qed.

End builder_facts.

(** ** The executor in the scripted world *)
Module builder_examples.
Import path builder observe script builder_facts.

Lemma Execute_cacheable_witness :
  exists resp cacheable w' t,
    run (answer (copied None)) (Execute 1 request) 0%Z = Some (resp, cacheable, w', t) /\
    match Result resp with
    | Some result =>
        exists action,
          fetchedActions t = [Ok action] /\
          (cacheable = true <-> DoNotCache action = false /\ ExitCode result = 0%Z)
    | None =>
        (exists err, resp = convertErrorToExecuteResponse err) /\ cacheable = false
    end.
Proof.
  do 4 eexists. split; [vm_compute; reflexivity|].
  eapply (Execute_cacheable (answer (copied None)) 1 request 0%Z).
  vm_compute. reflexivity.
Defined.


Lemma Execute_child_environment_witness :
  exists resp cacheable w' t cmd err,
    run (answer (copied None)) (Execute 1 request) 0%Z = Some (resp, cacheable, w', t) /\
    In (cmd, err) (spawns t) /\
    exists command,
      fetchedCommands t = [Ok command] /\
      Cmd_Env cmd =
        ("HOME=" ++ pathTempRoot)%string ::
        map (fun v => (Name v ++ "=" ++ Value v)%string) (EnvironmentVariables command).
Proof.
  do 6 eexists. split; [vm_compute; reflexivity|].
  split; [vm_compute; left; reflexivity|].
  eapply (Execute_child_environment (answer (copied None)) 1 request 0%Z).
  - vm_compute. reflexivity.
  - vm_compute. left. reflexivity.
Defined.

Lemma runCommand_no_arguments_witness :
  runCommand (command [] [] []) = Ret (Some noArguments) /\
  status_Code noArguments = codes.Unknown /\
  forall fuel request w resp cacheable w' t,
    run (answer argless) (Execute fuel request) w = Some (resp, cacheable, w', t) ->
    fetchedCommands t = [Ok (command [] [] [])] ->
    spawns t = [] /\ Result resp = None /\ cacheable = false.
Proof.
  apply (runCommand_no_arguments (answer argless) (command [] [] [])).
  reflexivity.
Defined.

(** C6 as stated fails: the error of the empty argument vector is not an
    InvalidArgument error. *)
Lemma runCommand_no_arguments_code :
  exists e,
    runCommand (command [] [] []) = Ret (Some e) /\
    status_Code e <> codes.InvalidArgument.
Proof. eexists. split; [reflexivity | discriminate]. Qed.

Lemma Execute_input_symlinks_witness :
  exists e w' t,
    run (answer linked) (Execute 1 request) 0%Z
      = Some (convertErrorToExecuteResponse e, false, w', t) /\
    spawns t = [] /\
    (e = symlinkError \/ In e (answeredErrors t)) /\
    status_Code symlinkError = codes.Unknown.
Proof.
  apply (Execute_input_symlinks (answer linked) request
           (fetch (s_directories linked)) (fun d w => eq_refl) 1 1 (le_n 1)).
  intros w a H. vm_compute in H. inversion H; subst a.
  split.
  - simpl. constructor.
  - simpl. left. discriminate.
Defined.

(** C7 as stated fails: the response for an input root with a symlink
    has status code Unknown, not Unimplemented. *)
Lemma Execute_input_symlinks_code :
  exists resp cacheable w' t,
    run (answer linked) (Execute 1 request) 0%Z = Some (resp, cacheable, w', t) /\
    option_map Code (ResponseStatus resp) = Some codes.Unknown /\
    option_map Code (ResponseStatus resp) <> Some codes.Unimplemented.
Proof.
  do 4 eexists. split; [vm_compute; reflexivity|].
  split; [reflexivity | discriminate].
Qed.

Lemma joinPathSafe_never_rejects_witness :
  joinPathSafe [pathBuildRoot; "../etc/passwd"] = Ok (Join [pathBuildRoot; "../etc/passwd"]) /\
  Clean (Join [pathBuildRoot; "../etc/passwd"]) = Join [pathBuildRoot; "../etc/passwd"] /\
  Join [pathBuildRoot; "../etc/passwd"] <> "" /\
  forall name,
    joinPathSafe [Join [pathBuildRoot; "../etc/passwd"]; name]
    = Ok (Join [Join [pathBuildRoot; "../etc/passwd"]; name]).
Proof.
  apply (joinPathSafe_never_rejects [pathBuildRoot; "../etc/passwd"]).
  exists pathBuildRoot. split; [left; reflexivity | discriminate].
Defined.

Lemma Execute_harvest_witness :
  exists resp cacheable w' t,
    run (answer (copied None)) (Execute 1 request) 0%Z = Some (resp, cacheable, w', t) /\
    (forall result, Result resp = Some result ->
       ResultOutputFiles result
         = omap (harvestedFile (onDisk (s_files (copied None)))) (OutputFiles copy) /\
       Forall (fun f => fileAborts (onDisk (s_files (copied None))) f = false)
         (OutputFiles copy) /\
       map OutputDirectory_Path (ResultOutputDirectories result)
         = List.filter (fun d => negb (dirMissing (onDisk (s_dirs (copied None))) d))
             (OutputDirectories copy)) /\
    (putFiles t <> [] ->
     isOk (onDisk (s_files (copied None)) pathStdout) = true ->
     isOk (onDisk (s_files (copied None)) pathStderr) = true ->
     Forall (fun f => fileAborts (onDisk (s_files (copied None))) f = false)
       (OutputFiles copy) ->
     Forall (fun d => dirMissing (onDisk (s_dirs (copied None))) d = true)
       (OutputDirectories copy) ->
     exists result, Result resp = Some result).
Proof.
  do 4 eexists. split; [vm_compute; reflexivity|].
  eapply (Execute_harvest (answer (copied None)) request
           (onDisk (s_files (copied None))) (onDisk (s_dirs (copied None)))
           (fun p w => eq_refl) (fun p w => eq_refl) 1 0%Z).
  - vm_compute. reflexivity.
  - vm_compute. reflexivity.
Defined.

End builder_examples.

(** ** Facts about the action cache *)
Module ac_facts.
Import ac.

Section roundtrip.
Context {W : Type} (h : handler event W).
Variable proto_Marshal : ActionResult -> result (list Byte.byte).
Variable proto_Unmarshal : list Byte.byte -> result ActionResult.

(** The backing store returns under a key the bytes last put under it. *)
Hypothesis store_law :
  forall instance digest data w w',
  h _ (BlobAccess_Put instance digest (Z.of_nat (length data)) (NopCloser data)) w
    = (None, w') ->
  ioutil_ReadAll (fst (h _ (BlobAccess_Get instance digest) w')) = Ok data.

(** Decoding undoes encoding. *)
Hypothesis codec_law :
  forall result data, proto_Marshal result = Ok data -> proto_Unmarshal data = Ok result.

(** C9: after a PutActionResult that succeeded, GetActionResult under
    the same instance and digest returns the ActionResult that was put. *)
Theorem Put_then_GetActionResult instance digest result w w1 t1 :
  run h (PutActionResult proto_Marshal instance digest result) w = Some (None, w1, t1) ->
  exists w2 t2,
    run h (GetActionResult proto_Unmarshal instance digest) w1
      = Some (Ok result, w2, t2).
Proof.
  unfold PutActionResult, GetActionResult. intros H.
  destruct (proto_Marshal result) as [data|e] eqn:Hm; [|discriminate].
  apply run_call_inv in H as [Hput _].
  apply store_law in Hput.
  rewrite run_bind, run_call. cbv beta iota. rewrite Hput.
  rewrite run_bind, run_call. cbv beta iota.
  rewrite (codec_law _ _ Hm). cbn [run]. do 2 eexists. reflexivity.
Qed.

End roundtrip.

Lemma unary_codec result data :
  unaryMarshal result = Ok data -> unaryUnmarshal data = Ok result.
Proof.
  unfold unaryMarshal, unaryUnmarshal.
  destruct result as [[|] [|] z [|] [|]]; try discriminate.
  destruct (0 <=? z)%Z eqn:Hz; [|discriminate].
  intros H. inversion H; subst. rewrite repeat_length, Z2Nat.id; [reflexivity|].
  apply Z.leb_le, Hz.
Qed.

Lemma memory_store instance digest data (w w' : Store) :
  memory _ (BlobAccess_Put instance digest (Z.of_nat (length data)) (NopCloser data)) w
    = (None, w') ->
  ioutil_ReadAll (fst (memory _ (BlobAccess_Get instance digest) w')) = Ok data.
Proof.
  simpl. intros H. inversion H; subst. simpl.
  rewrite !String.eqb_refl. reflexivity.
Qed.

(** The round trip in the memory store, with the unary codec. *)
Lemma Put_then_GetActionResult_witness :
  exists w2 t2,
    run memory (GetActionResult unaryUnmarshal "main"
                  (Some {| Hash := "action"; SizeBytes := 7 |}))
      [("main", "action", [Byte.x00])]
    = Some (Ok exitOne, w2, t2).
Proof.
  apply (Put_then_GetActionResult memory unaryMarshal unaryUnmarshal
           memory_store unary_codec "main"
           (Some {| Hash := "action"; SizeBytes := 7 |}) exitOne []
           [("main", "action", [Byte.x00])]
           [Call (BlobAccess_Put "main" (Some {| Hash := "action"; SizeBytes := 7 |})
                    1 (NopCloser [Byte.x00])) None]).
  reflexivity.
Defined.

End ac_facts.

(** ** Facts about the input file exposer *)
Module exposer_facts.
Import exposer.

Section expose.
Context {W : Type} (h : handler event W).
Variable existing : W -> string -> Prop.

(** What create-exclusive means to the operating system: opening an
    existing path with O_CREATE and O_EXCL fails and changes nothing. *)
Hypothesis excl_law :
  forall name flag perm w,
  Z.land flag builder.O_CREATE = builder.O_CREATE ->
  Z.land flag builder.O_EXCL = builder.O_EXCL ->
  existing w name ->
  exists e, h _ (os_OpenFile name flag perm) w = (Err e, w).

(** C10: Expose opens the target for writing with O_CREATE and O_EXCL and
    without O_TRUNC, with mode 0555 for an executable and 0444 otherwise;
    when a file exists at the path it fails without changing anything;
    when the file and the blob are opened, the blob is copied into the
    file and Expose returns the error of the copy. *)
Theorem Expose_create_exclusive (instance : string) (digest : option Digest)
    (outputPath : string) (isExecutable : bool) (w : W) :
  let flag := Z.lor (Z.lor builder.O_WRONLY builder.O_CREATE) builder.O_EXCL in
  let mode := if isExecutable then 365%Z else 292%Z in
  (Z.land flag builder.O_CREATE = builder.O_CREATE /\
   Z.land flag builder.O_EXCL = builder.O_EXCL /\
   Z.land flag builder.O_TRUNC = 0%Z) /\
  (exists r w' ans rest,
     run h (Expose instance digest outputPath isExecutable) w
       = Some (r, w', Call (os_OpenFile outputPath flag mode) ans :: rest) /\
     (forall e, ans = Err e -> r = Some e /\ rest = []) /\
     (forall f, ans = Ok f ->
        forall w1 src w2, h _ (os_OpenFile outputPath flag mode) w = (ans, w1) ->
        h _ (BlobAccess_Get instance digest) w1 = (Ok src, w2) ->
        exists n closed,
          rest = [Call (BlobAccess_Get instance digest) (Ok src);
                  Call (io_Copy f src) (n, r);
                  Call (File_Close f) closed])) /\
  (existing w outputPath ->
   exists e,
     run h (Expose instance digest outputPath isExecutable) w
       = Some (Some e, w, [Call (os_OpenFile outputPath flag mode) (Err e)])).
Proof.
  intros flag mode. split; [repeat split|]. split.
  - unfold Expose. fold flag. fold mode.
    rewrite run_bind, run_call. cbv beta iota.
    destruct (h _ (os_OpenFile outputPath flag mode) w) as [[f|e] w1] eqn:Ho;
      cbn [fst snd].
    + rewrite run_bind, run_call. cbv beta iota.
      destruct (h _ (BlobAccess_Get instance digest) w1) as [[src|e] w2] eqn:Hg;
        cbn [fst snd].
      * rewrite run_bind, run_call. cbv beta iota.
        destruct (h _ (io_Copy f src) w2) as [[n err] w3] eqn:Hc. cbn [fst snd].
        rewrite run_bind, run_call. cbv beta iota. cbn [run app].
        do 4 eexists. split; [reflexivity|]. split; [intros e He; discriminate|].
        intros f' Hf w1' src' w2' Ho' Hg'. inversion Hf; subst f'.
        inversion Ho'; subst w1'. rewrite Hg in Hg'. inversion Hg'; subst.
        do 2 eexists. reflexivity.
      * rewrite run_bind, run_call. cbv beta iota. cbn [run app].
        do 4 eexists. split; [reflexivity|]. split; [intros e' He; discriminate|].
        intros f' Hf w1' src' w2' Ho' Hg'. inversion Hf; subst f'.
        inversion Ho'; subst w1'. rewrite Hg in Hg'. discriminate.
    + cbn [run app]. do 4 eexists. split; [reflexivity|].
      split; [intros e' He; inversion He; auto | intros f Hf; discriminate].
  - intros Hex.
    destruct (excl_law outputPath flag mode w) as [e He]; [reflexivity | reflexivity | exact Hex|].
    exists e. unfold Expose. fold flag. fold mode.
    rewrite run_bind, run_call, He. reflexivity.
Qed.

End expose.

Lemma disk_excl name flag perm (w : Disk) :
  Z.land flag builder.O_CREATE = builder.O_CREATE ->
  Z.land flag builder.O_EXCL = builder.O_EXCL ->
  present w name ->
  exists e, disk _ (os_OpenFile name flag perm) w = (Err e, w).
Proof.
  unfold present. intros Hc He Hp. unfold disk.
  destruct (lookup String.eqb name (files w)); [|congruence].
  assert (H6 : Z.testbit flag 6 = true).
  { apply (f_equal (fun z => Z.testbit z 6)) in Hc.
    rewrite Z.land_spec in Hc. change (Z.testbit builder.O_CREATE 6) with true in Hc.
    rewrite andb_true_r in Hc. exact Hc. }
  assert (H7 : Z.testbit flag 7 = true).
  { apply (f_equal (fun z => Z.testbit z 7)) in He.
    rewrite Z.land_spec in He. change (Z.testbit builder.O_EXCL 7) with true in He.
    rewrite andb_true_r in He. exact He. }
  rewrite H6, H7. eexists. reflexivity.
Qed.

(** Exposing onto a file that exists, on the model disk. *)
Lemma Expose_create_exclusive_witness :
  exists e,
    run disk (Expose "main" (Some {| Hash := "hello"; SizeBytes := 5 |})
                "/build/in.txt" false) fullDisk
    = Some (Some e, fullDisk,
            [Call (os_OpenFile "/build/in.txt" 193 292) (Err e)]).
Proof.
  apply (Expose_create_exclusive disk present disk_excl "main"
           (Some {| Hash := "hello"; SizeBytes := 5 |}) "/build/in.txt" false fullDisk).
  unfold present. simpl. discriminate.
Defined.

End exposer_facts.

(** ** More about the runs of the executor *)
Module executor_facts.
Import path builder observe calls builder_facts.

Section loops.
Context {E : Type -> Type} {W : Type} (h : handler E W).

(** What a loop that ran to its end shows is what its rounds show, one
    after the other. *)
Lemma run_rangeLoop_shown {A S B} (obs : callRecord E -> option B) (f : A -> list B)
    (body : A -> S -> prog E (result S)) (l : list A) :
  (forall a s w s' w' t, In a l ->
     run h (body a s) w = Some (Ok s', w', t) -> omap obs t = f a) ->
  forall s w s' w' t,
  run h (rangeLoop l s body) w = Some (Ok s', w', t) ->
  omap obs t = flat_map f l.
Proof.
  intros Hb. induction l as [|a l IH]; intros s w s' w' t Hr; simpl in Hr.
  - inversion Hr. reflexivity.
  - apply run_bind_inv in Hr as (r & w1 & t1 & t2 & H1 & H2 & ->).
    destruct r as [s1|e]; [|simpl in H2; inversion H2].
    rewrite omap_app. simpl. f_equal.
    + eapply Hb; [left; reflexivity | exact H1].
    + eapply IH; [|exact H2]. intros. eapply Hb; [right|]; eauto.
Qed.

(** A run of a program that starts with a call starts with that call. *)
Lemma run_vis_inv {X A} (e : E X) (k : X -> prog E A) w a w' t :
  run h (Vis e k) w = Some (a, w', t) ->
  exists x w1 t1,
    h X e w = (x, w1) /\ run h (k x) w1 = Some (a, w', t1) /\ t = Call e x :: t1.
Proof.
  simpl. destruct (h X e w) as [x w1].
  destruct (run h (k x) w1) as [[[a' w2] t1]|] eqn:Hk; [|discriminate].
  intros H. inversion H; subst. exists x, w1, t1. auto.
Qed.

End loops.

Section runs.
Context {W : Type} (h : handler event W).

(** X1: Execute spawns at most one process for a request, and it spawns
    none unless the action and the command were fetched and the command
    has an argument. *)
Theorem Execute_spawns_once fuel request w resp cacheable w' t :
  run h (Execute fuel request) w = Some (resp, cacheable, w', t) ->
  length (spawns t) <= 1 /\
  (spawns t <> [] ->
   exists action command,
     fetchedActions t = [Ok action] /\ fetchedCommands t = [Ok command] /\
     Arguments command <> []).
Proof.
  intros Hrun. apply (Execute_outcome h) in Hrun as (ra & Ha & Hrun).
  destruct ra as [action|e].
  - destruct Hrun as (rc & Hc & Hrun). destruct rc as [command|e].
    + destruct Hrun as [(e & _ & _ & Hs & _)|(err & [(Hs & _)|(cmd & Hs & _ & Hargs)] & _)];
        rewrite Hs; simpl; (split; [lia|]); try congruence.
      intros _. exists action, command. auto.
    + destruct Hrun as (_ & _ & Hs & _). rewrite Hs. simpl. split; [lia | congruence].
  - destruct Hrun as [(_ & _ & Hs & _) _]. rewrite Hs. simpl. split; [lia | congruence].
Qed.

(** X2: the process Execute spawns gets the arguments of the fetched
    command as its argument vector, the join of the build root and the
    command's working directory as its directory, and user and group
    id 1. *)
Theorem Execute_child_process fuel request w resp cacheable w' t cmd err :
  run h (Execute fuel request) w = Some (resp, cacheable, w', t) ->
  In (cmd, err) (spawns t) ->
  exists command,
    fetchedCommands t = [Ok command] /\
    Cmd_Args cmd = Arguments command /\
    Cmd_Dir cmd = Join [pathBuildRoot; WorkingDirectory command] /\
    Cmd_SysProcAttr cmd = Some {| Uid := 1; Gid := 1 |}.
Proof.
  intros Hrun Hin. apply (Execute_outcome h) in Hrun as (ra & Ha & Hrun).
  destruct ra as [action|e].
  - destruct Hrun as (rc & Hc & Hrun). destruct rc as [command|e].
    + destruct Hrun as [(e & _ & _ & Hs & _)|(err' & [(Hs & _)|(cmd' & Hs & Hcmd & _)] & _)];
        rewrite Hs in Hin; simpl in Hin; try contradiction.
      destruct Hin as [Hin|[]]. inversion Hin; subst.
      destruct Hcmd as (H1 & _ & H4 & H5). exists command. auto.
    + destruct Hrun as (_ & _ & Hs & _). rewrite Hs in Hin. contradiction.
  - destruct Hrun as [(_ & _ & Hs & _) _]. rewrite Hs in Hin. contradiction.
Qed.

(** X3: the exit code of an ActionResult that Execute returns lies
    between -1 and 255: the conversion to int32 never wraps. *)
Theorem Execute_exit_code_range fuel request w resp cacheable w' t result :
  run h (Execute fuel request) w = Some (resp, cacheable, w', t) ->
  Result resp = Some result ->
  (-1 <= ExitCode result <= 255)%Z.
Proof.
  intros Hrun Hres. apply (Execute_outcome h) in Hrun as (ra & Ha & Hrun).
  assert (Hno : forall e, resp = convertErrorToExecuteResponse e -> False).
  { intros e ->. discriminate Hres. }
  assert (Hh : forall action z, (-1 <= z <= 255)%Z ->
             harvested action z resp cacheable t -> (-1 <= ExitCode result <= 255)%Z).
  { intros action z Hz (_ & [(e & He & _)|(R & -> & HR & _)]); [destruct (Hno e He)|].
    simpl in Hres. inversion Hres; subst. rewrite HR, int32_small; lia. }
  destruct ra as [action|e].
  - destruct Hrun as (rc & Hc & Hrun). destruct rc as [command|e].
    + destruct Hrun as [(e & He & _)|(err & _ & Hafter)]; [destruct (Hno e He)|].
      destruct err as [e|]; [|apply (Hh action 0%Z); [lia | exact Hafter]].
      destruct e as [m|op p errno|ws|c m];
        try (destruct Hafter as (He & _); destruct (Hno _ He)).
      apply (Hh action (ExitStatus ws)); [apply ExitStatus_range | exact Hafter].
    + destruct Hrun as (He & _). destruct (Hno _ He).
  - destruct Hrun as [(He & _) _]. destruct (Hno _ He).
Qed.


(** X4: whatever way runCommand ends, the files it closed are the files
    it opened with success, the last opened first: no opened file is left
    open and none is closed twice. *)
Theorem runCommand_closes_files command w err w' t :
  run h (runCommand command) w = Some (err, w', t) ->
  closes t = rev (map snd (opens t)).
Proof.
  unfold runCommand. intros H.
  destruct (Arguments command) as [|arg0 args]; [explode; reflexivity|].
  rewrite joinPathSafe_root in H. explode; reflexivity.
Qed.

(** X5: when runCommand spawns the process, it has opened /stdout and
    then /stderr, each write-only, created if missing and truncated, with
    permissions 0, and nothing else; these two files are the child's
    standard output and standard error, and runCommand returns what
    running the child returned. *)
Theorem runCommand_output_streams command w err w' t cmd r :
  run h (runCommand command) w = Some (err, w', t) ->
  In (cmd, r) (spawns t) ->
  exists out errf,
    opens t = [(pathStdout, streamFlags, 0%Z, out); (pathStderr, streamFlags, 0%Z, errf)] /\
    Cmd_Stdout cmd = Some out /\ Cmd_Stderr cmd = Some errf /\ r = err.
Proof.
  unfold runCommand. intros H Hin.
  destruct (Arguments command) as [|arg0 args]; [explode; contradiction|].
  rewrite joinPathSafe_root in H. explode; simpl in Hin; try contradiction.
  destruct Hin as [Hin|[]]. inversion Hin; subst. do 2 eexists. repeat split.
Qed.

Lemma createInputDirectory_keeps (fuel : nat) :
  forall instance digest base,
  allEvents keeps (createInputDirectory fuel instance digest base).
Proof.
  induction fuel as [|fuel IH]; intros; [exact I|].
  cbn [createInputDirectory]. events. apply IH.
Qed.

Lemma uploadDirectory_keeps (fuel : nat) :
  forall instance basePath permitNonExistent children,
  allEvents keeps (uploadDirectory fuel instance basePath permitNonExistent children).
Proof.
  induction fuel as [|fuel IH]; intros; [exact I|].
  cbn [uploadDirectory]. events. apply IH.
Qed.

Lemma uploadTree_keeps fuel instance p : allEvents keeps (uploadTree fuel instance p).
Proof. unfold uploadTree. events. apply uploadDirectory_keeps. Qed.

Lemma runCommand_keeps command : allEvents keeps (runCommand command).
Proof. unfold runCommand. events. Qed.

Lemma keeps_removals {A} (p : M A) w a w' t :
  allEvents keeps p -> run h p w = Some (a, w', t) -> removals t = [].
Proof.
  apply (run_unobserved h removed keeps). intros X e x. destruct e; simpl; tauto.
Qed.

Lemma removals_app (t1 t2 : trace event) : removals (t1 ++ t2) = removals t1 ++ removals t2.
Proof. apply omap_app. Qed.

(** The first call of [createInputDirectory] makes the directory. *)
Lemma createInputDirectory_first fuel instance digest base w r w' t :
  run h (createInputDirectory fuel instance digest base) w = Some (r, w', t) ->
  exists y rest, t = Call (os_Mkdir base 511) y :: rest.
Proof.
  destruct fuel as [|fuel]; [discriminate|]. intros H.
  apply run_vis_inv in H as (y & w1 & t1 & _ & _ & ->). eauto.
Qed.

Lemma prepareFilesystem_run fuel request action command w r w' t :
  run h (prepareFilesystem fuel request action command) w = Some (r, w', t) ->
  (exists x y rest,
     t = Call (os_RemoveAll pathBuildRoot) x :: Call (os_Mkdir pathBuildRoot 511) y :: rest) /\
  ((removals t = [pathBuildRoot] /\ r <> None) \/
   (removals t = [pathBuildRoot; pathTempRoot] /\
    exists front z,
      t = front ++ [Call (os_RemoveAll pathTempRoot) z; Call (os_Mkdir pathTempRoot 511) r])).
Proof.
  unfold prepareFilesystem. intros H. explode.
  all: match goal with
       | H : run _ (createInputDirectory _ _ _ _) _ = Some _ |- _ =>
           pose proof (createInputDirectory_first _ _ _ _ _ _ _ _ H) as (y & rest & ->);
           pose proof (keeps_removals _ _ _ _ _ (createInputDirectory_keeps _ _ _ _) H) as Hk
       end.
  all: split; [do 3 eexists; reflexivity|].
  all: try match goal with
       | H : run _ (rangeLoop ?l ?s ?b) _ = Some _ |- _ =>
           let F := fresh in
           assert (F : allEvents keeps (rangeLoop l s b)) by events;
           pose proof (keeps_removals _ _ _ _ _ F H); clear F
       end.
  all: change (removals (?a ++ ?b)) with (removals (a ++ b)).
  all: rewrite ?removals_app.
  all: repeat match goal with H : removals _ = _ |- _ => rewrite H; clear H end.
  - left. split; [reflexivity | discriminate].
  - right. split; [reflexivity|].
    match goal with
    | |- exists front z, [?c1] ++ ?l2 ++ ?l3 ++ [?c4] ++ [?c5] = _ =>
        exists ([c1] ++ l2 ++ l3); eexists;
        rewrite <- !(app_assoc _ _ [_; _]); reflexivity
    end.
  - left. split; [reflexivity | discriminate].
Qed.

(** X6: prepareFilesystem starts by removing the build root, whatever
    that removal answers, and making it anew with permissions 0777.  It
    either fails having removed nothing else, or it goes on to remove the
    temporary directory and ends by making it anew with permissions 0777,
    whose answer it returns. *)
Theorem prepareFilesystem_clears fuel request action command w r w' t :
  run h (prepareFilesystem fuel request action command) w = Some (r, w', t) ->
  (exists x y rest,
     t = Call (os_RemoveAll pathBuildRoot) x :: Call (os_Mkdir pathBuildRoot 511) y :: rest) /\
  ((removals t = [pathBuildRoot] /\ r <> None) \/
   (removals t = [pathBuildRoot; pathTempRoot] /\
    exists front z,
      t = front ++ [Call (os_RemoveAll pathTempRoot) z; Call (os_Mkdir pathTempRoot 511) r])).
Proof. apply prepareFilesystem_run. Qed.


(** X7: Execute reads the clock and then fetches the action under the
    request's instance and action digest; when that fails it returns the
    error response and does nothing more.  Otherwise its next call fetches
    the command under the action's command digest, and when that fails it
    returns the error response and does nothing more. *)
Theorem Execute_fetches fuel request w resp cacheable w' t :
  run h (Execute fuel request) w = Some (resp, cacheable, w', t) ->
  exists now ra rest,
    t = Call time_Now now
        :: Call (GetAction (InstanceName request) (ActionDigest request)) ra :: rest /\
    match ra with
    | Err e => rest = [] /\ resp = convertErrorToExecuteResponse e /\ cacheable = false
    | Ok action =>
        exists rc rest',
          rest = Call (GetCommand (InstanceName request) (CommandDigest action)) rc :: rest' /\
          match rc with
          | Err e => rest' = [] /\ resp = convertErrorToExecuteResponse e /\ cacheable = false
          | Ok _ => True
          end
    end.
Proof.
  unfold Execute. intros H.
  apply run_bind_inv in H as (now & w1 & t1 & t2 & H1 & H & ->).
  apply run_call_inv in H1 as [_ ->].
  apply run_bind_inv in H as (ra & w2 & t3 & t4 & H2 & H & ->).
  apply run_call_inv in H2 as [_ ->].
  exists now, ra. eexists. split; [reflexivity|].
  destruct ra as [action|e].
  - apply run_bind_inv in H as (rc & w3 & t5 & t6 & H3 & H & ->).
    apply run_call_inv in H3 as [_ ->].
    exists rc. eexists. split; [reflexivity|].
    destruct rc as [command|e]; [exact I|].
    apply run_ret_inv in H as (H & _ & ->). inversion H. auto.
  - apply run_ret_inv in H as (H & _ & ->). inversion H. auto.
Qed.

Ltac removed_all :=
  repeat match goal with
  | H : run _ (prepareFilesystem _ _ _ _) _ = Some _ |- _ =>
      let F := fresh in
      pose proof (staging_silent h _ _ _ _ _ (prepareFilesystem_staging _ _ _ _) H) as (F & _);
      apply prepareFilesystem_run in H as [_ H]
  | H : run _ (runCommand _) _ = Some _ |- _ =>
      apply keeps_removals in H; [|apply runCommand_keeps]
  | H : run _ (rangeLoop ?l ?s ?b) _ = Some _ |- _ =>
      let F := fresh in
      assert (F : allEvents keeps (rangeLoop l s b))
        by (repeat first [apply uploadTree_keeps | event_step]);
      apply (keeps_removals _ _ _ _ _ F) in H; clear F
  end.

(** X8: Execute removes nothing but the build root and then the
    temporary directory, in that order and each at most once; a run that
    spawned a process removed both. *)
Theorem Execute_removals fuel request w resp cacheable w' t :
  run h (Execute fuel request) w = Some (resp, cacheable, w', t) ->
  (removals t = [] /\ spawns t = []) \/
  (removals t = [pathBuildRoot] /\ spawns t = []) \/
  removals t = [pathBuildRoot; pathTempRoot].
Proof.
  unfold Execute. intros H. explode; removed_all.
  all: rewrite ?removals_app, ?spawns_app.
  all: repeat match goal with
       | H : _ \/ _ |- _ => destruct H as [[H ?]|[H ?]]
       end.
  all: try match goal with H : None <> None |- _ => destruct (H eq_refl) end.
  all: repeat match goal with
       | H : removals _ = _ |- _ => rewrite H; clear H
       | H : spawns _ = _ |- _ => rewrite H; clear H
       end.
  all: simpl; auto.
Qed.


Lemma createInputDirectory_unmeasured (fuel : nat) :
  forall instance digest base,
  allEvents unmeasured (createInputDirectory fuel instance digest base).
Proof.
  induction fuel as [|fuel IH]; intros; [exact I|].
  cbn [createInputDirectory]. events. apply IH.
Qed.

Lemma prepareFilesystem_unmeasured fuel request action command :
  allEvents unmeasured (prepareFilesystem fuel request action command).
Proof. unfold prepareFilesystem. events. apply createInputDirectory_unmeasured. Qed.

Lemma uploadDirectory_unmeasured (fuel : nat) :
  forall instance basePath permitNonExistent children,
  allEvents unmeasured (uploadDirectory fuel instance basePath permitNonExistent children).
Proof.
  induction fuel as [|fuel IH]; intros; [exact I|].
  cbn [uploadDirectory]. events. apply IH.
Qed.

Lemma uploadTree_unmeasured fuel instance p :
  allEvents unmeasured (uploadTree fuel instance p).
Proof. unfold uploadTree. events. apply uploadDirectory_unmeasured. Qed.

Lemma runCommand_unmeasured command : allEvents unmeasured (runCommand command).
Proof. unfold runCommand. events. Qed.

Lemma unmeasured_observations {A} (p : M A) w a w' t :
  allEvents unmeasured p -> run h p w = Some (a, w', t) -> observations t = [].
Proof.
  apply (run_unobserved h observation unmeasured). intros X e x. destruct e; simpl; tauto.
Qed.

Lemma observations_app (t1 t2 : trace event) :
  observations (t1 ++ t2) = observations t1 ++ observations t2.
Proof. apply omap_app. Qed.

Ltac measured :=
  repeat match goal with
  | H : run _ (prepareFilesystem _ _ _ _) _ = Some _ |- _ =>
      apply unmeasured_observations in H; [|apply prepareFilesystem_unmeasured]
  | H : run _ (runCommand _) _ = Some _ |- _ =>
      apply unmeasured_observations in H; [|apply runCommand_unmeasured]
  | H : run _ (rangeLoop ?l ?s ?b) _ = Some _ |- _ =>
      let F := fresh in
      assert (F : allEvents unmeasured (rangeLoop l s b))
        by (repeat first [apply uploadTree_unmeasured | event_step]);
      apply (unmeasured_observations _ _ _ _ _ F) in H; clear F
  end.

(** X9: the steps whose duration Execute observes are a prefix of
    get_action_command, prepare_filesystem, run_command, upload_output, in
    that order; a run that observed fewer than four returned an error
    response that is not cacheable, and a run that observed all four
    returned an ActionResult. *)
Theorem Execute_observes_steps fuel request w resp cacheable w' t :
  run h (Execute fuel request) w = Some (resp, cacheable, w', t) ->
  exists k,
    observations t = take k steps /\
    (k < 4 -> exists e, resp = convertErrorToExecuteResponse e /\ cacheable = false) /\
    (4 <= k -> exists result, resp = {| Result := Some result; ResponseStatus := None |}).
Proof.
  unfold Execute. intros H. explode; measured.
  all: rewrite ?observations_app.
  all: repeat match goal with
       | H : observations _ = _ |- _ => rewrite H; clear H
       end.
  all: cbn [app observations omap observation mbind option_bind mret].
  all: first
    [ exists 0; split; [reflexivity|]; split; [eauto | lia]
    | exists 1; split; [reflexivity|]; split; [eauto | lia]
    | exists 2; split; [reflexivity|]; split; [eauto | lia]
    | exists 3; split; [reflexivity|]; split; [eauto | lia]
    | exists 4; split; [reflexivity|]; split; [lia | eauto] ].
Qed.


End runs.

Section staging.
Context {W : Type} (h : handler event W) (request : ExecuteRequest).
Context (getDir : option Digest -> result Directory).
Hypothesis Hdir :
  forall d w, fst (h _ (GetDirectory (InstanceName request) d) w) = getDir d.

Lemma flat_map_singleton {A B} (g : A -> B) (l : list A) :
  flat_map (fun a => [g a]) l = map g l.
Proof. induction l as [|a l IH]; simpl; [reflexivity | rewrite IH; reflexivity]. Qed.

Lemma flat_map_nil {A B} (l : list A) : flat_map (fun _ : A => @nil B) l = [].
Proof. induction l as [|a l IH]; simpl; [reflexivity | exact IH]. Qed.

Lemma gotFiles_app (t1 t2 : trace event) : gotFiles (t1 ++ t2) = gotFiles t1 ++ gotFiles t2.
Proof. apply omap_app. Qed.
Lemma madeDirs_app (t1 t2 : trace event) : madeDirs (t1 ++ t2) = madeDirs t1 ++ madeDirs t2.
Proof. apply omap_app. Qed.
Lemma madeParents_app (t1 t2 : trace event) :
  madeParents (t1 ++ t2) = madeParents t1 ++ madeParents t2.
Proof. apply omap_app. Qed.

(** What a staging that succeeded fetched and made. *)
Lemma createInputDirectory_shown (n : nat) :
  forall fuel d base w w' t,
  n <= fuel -> finiteTree getDir n d -> base <> "" ->
  run h (createInputDirectory fuel (InstanceName request) d base) w = Some (None, w', t) ->
  gotFiles t = inputFiles getDir n d base /\
  madeDirs t = inputDirs getDir n d base.
Proof.
  induction n as [|n IH]; intros fuel d base w w' t Hn Hfin Hbase Hrun; [destruct Hfin|].
  destruct fuel as [|fuel]; [lia|].
  cbn [createInputDirectory] in Hrun. cbn [finiteTree inputFiles inputDirs] in *.
  explode.
  all: match goal with
       | H : h _ (GetDirectory _ ?d) ?w = (?r, _) |- _ =>
           let F := fresh in
           pose proof (Hdir d w) as F; rewrite H in F; simpl in F;
           rewrite <- F in *; clear F
       end.
  rename Hrun0 into Hfiles, Hrun1 into Hdirs, a into D, t4 into tf, t6 into td.
  assert (Hf1 : gotFiles tf =
                map (fun f => (FileNode_Digest f, Join [base; FileNode_Name f],
                               FileNode_IsExecutable f)) (Files D)).
  { rewrite <- flat_map_singleton.
    eapply (run_rangeLoop_shown h gotFile); [|exact Hfiles].
    intros f s0 w5 s' w6 t5 _ Hb. cbv beta in Hb.
    rewrite (joinPathSafe_base base _ Hbase) in Hb. explode. reflexivity. }
  assert (Hf2 : madeDirs tf = []).
  { rewrite <- (flat_map_nil (Files D)).
    eapply (run_rangeLoop_shown h madeDir); [|exact Hfiles].
    intros f s0 w5 s' w6 t5 _ Hb. cbv beta in Hb.
    rewrite (joinPathSafe_base base _ Hbase) in Hb. explode. reflexivity. }
  assert (Hsub : forall c (s0 s' : unit) w5 w6 t5, In c (Directories D) ->
            run h (match joinPathSafe [base; DirectoryNode_Name c] with
                   | Err err => Ret (Err err)
                   | Ok childPath =>
                       let* err := createInputDirectory fuel (InstanceName request)
                                     (DirectoryNode_Digest c) childPath in
                       match err with Some err => Ret (Err err) | None => Ret (Ok tt) end
                   end) w5 = Some (Ok s', w6, t5) ->
            gotFiles t5 = inputFiles getDir n (DirectoryNode_Digest c)
                            (Join [base; DirectoryNode_Name c]) /\
            madeDirs t5 = inputDirs getDir n (DirectoryNode_Digest c)
                            (Join [base; DirectoryNode_Name c])).
  { intros c s0 s' w5 w6 t5 Hin Hb.
    destruct (joinPathSafe_nonempty [base; DirectoryNode_Name c]) as [Hj Hne].
    { exists base. split; [left; reflexivity | exact Hbase]. }
    rewrite Hj in Hb. explode. rewrite !app_nil_r.
    eapply (IH fuel); [lia | | exact Hne | eassumption].
    rewrite Forall_forall in Hfin. apply Hfin. apply list_elem_of_In. exact Hin. }
  assert (Hd1 : gotFiles td =
                flat_map (fun c => inputFiles getDir n (DirectoryNode_Digest c)
                                     (Join [base; DirectoryNode_Name c])) (Directories D)).
  { eapply (run_rangeLoop_shown h gotFile); [|exact Hdirs].
    intros c s0 w5 s' w6 t7 Hin Hb. apply (Hsub c s0 s' w5 w6 t7 Hin Hb). }
  assert (Hd2 : madeDirs td =
                flat_map (fun c => inputDirs getDir n (DirectoryNode_Digest c)
                                     (Join [base; DirectoryNode_Name c])) (Directories D)).
  { eapply (run_rangeLoop_shown h madeDir); [|exact Hdirs].
    intros c s0 w5 s' w6 t7 Hin Hb. apply (Hsub c s0 s' w5 w6 t7 Hin Hb). }
  rewrite !gotFiles_app, !madeDirs_app, Hf1, Hf2, Hd1, Hd2. simpl.
  rewrite !app_nil_r. split; reflexivity.
Qed.

(** X10: a createInputDirectory that succeeds on a finite input tree has
    fetched exactly the files of the tree, in depth-first order (the files
    of a directory before its subdirectories), each to the join of its
    base directory and its name and with its executable bit, and has made
    exactly the directories of the tree, each before its contents, with
    permissions 0777. *)
Theorem createInputDirectory_stages (n fuel : nat) d base w w' t :
  n <= fuel -> finiteTree getDir n d -> base <> "" ->
  run h (createInputDirectory fuel (InstanceName request) d base) w = Some (None, w', t) ->
  gotFiles t = inputFiles getDir n d base /\
  madeDirs t = inputDirs getDir n d base.
Proof. apply createInputDirectory_shown. Qed.

End staging.

Section outputs.
Context {W : Type} (h : handler event W).


Lemma createInputDirectory_unparented (fuel : nat) :
  forall instance digest base,
  allEvents unparented (createInputDirectory fuel instance digest base).
Proof.
  induction fuel as [|fuel IH]; intros; [exact I|].
  cbn [createInputDirectory]. events. apply IH.
Qed.

(** X11: a prepareFilesystem that succeeds has called MkdirAll exactly
    once for each declared output file, in the order of the declarations,
    on the parent directory of the file's path under the build root and
    with permissions 0777; it calls MkdirAll for nothing else, in
    particular not for the declared output directories. *)
Theorem prepareFilesystem_output_parents fuel request action command w w' t :
  run h (prepareFilesystem fuel request action command) w = Some (None, w', t) ->
  madeParents t = map outputParent (OutputFiles command).
Proof.
  unfold prepareFilesystem. intros H. explode.
  match goal with
  | H : run _ (createInputDirectory _ _ _ _) _ = Some _ |- _ =>
      apply (run_unobserved h madeAll unparented) in H;
      [ | intros X e x; destruct e; simpl; tauto
        | apply createInputDirectory_unparented ]
  end.
  match goal with
  | H : run _ (rangeLoop _ _ _) _ = Some _ |- _ =>
      apply (run_rangeLoop_shown h madeAll (fun f => [outputParent f])) in H
  end.
  - fold (madeParents t2) in Hrun0. fold (madeParents t4) in Hrun.
    rewrite !madeParents_app, Hrun0, Hrun. simpl. rewrite app_nil_r.
    apply flat_map_singleton.
  - intros f s0 w5 s' w6 t5 _ Hb. cbv beta in Hb.
    rewrite joinPathSafe_root in Hb. explode. reflexivity.
Qed.


Lemma entryRounds (l : list FileInfo) s r :
  rounds entryRound l s r ->
  match r with
  | Ok s' =>
      Forall (fun file => supported file = true) l /\
      map FileNode_Name (Files (fst s')) =
        map FileNode_Name (Files (fst s)) ++ map FileInfo_Name (List.filter isRegular l) /\
      map DirectoryNode_Name (Directories (fst s')) =
        map DirectoryNode_Name (Directories (fst s)) ++
        map FileInfo_Name (List.filter isDir l) /\
      map SymlinkNode_Name (Symlinks (fst s')) =
        map SymlinkNode_Name (Symlinks (fst s)) ++
        map FileInfo_Name (List.filter isSymlink l)
  | Err _ => True
  end.
Proof.
  induction 1 as [s|a l s s1 r (Hs & H1 & H2 & H3) _ IH|a l s e _].
  - simpl. rewrite !app_nil_r. auto.
  - destruct r as [s'|e]; [|exact I].
    destruct IH as (Hall & -> & -> & ->). rewrite H1, H2, H3.
    split; [constructor; assumption|].
    cbn [List.filter]. rewrite <- !app_assoc.
    destruct (isRegular a), (isDir a), (isSymlink a); auto.
  - exact I.
Qed.

Lemma fileType_cases (file : FileInfo) :
  (isRegular file = true -> isDir file = false /\ isSymlink file = false) /\
  (isDir file = true -> isSymlink file = false).
Proof.
  unfold isRegular, isDir, isSymlink. split.
  - intros H. apply Z.eqb_eq in H. rewrite H. split; reflexivity.
  - intros H. apply Z.eqb_eq in H. rewrite H. reflexivity.
Qed.

(** X12: the first call of an uploadDirectory that returns a Directory
    reads the directory; every entry read is a regular file, a
    directory or a symlink; and the Directory lists the names of the
    regular files, of the directories and of the symlinks, each kind in the
    order in which they were read. *)
Theorem uploadDirectory_lists fuel instance basePath permitNonExistent children
    w D children' w' t :
  run h (uploadDirectory fuel instance basePath permitNonExistent children) w
    = Some (Ok (Some D, children'), w', t) ->
  exists files rest,
    t = Call (ioutil_ReadDir basePath) (Ok files) :: rest /\
    Forall (fun file => supported file = true) files /\
    map FileNode_Name (Files D) = map FileInfo_Name (List.filter isRegular files) /\
    map DirectoryNode_Name (Directories D) = map FileInfo_Name (List.filter isDir files) /\
    map SymlinkNode_Name (Symlinks D) = map FileInfo_Name (List.filter isSymlink files).
Proof.
  destruct fuel as [|fuel]; [discriminate|]. cbn [uploadDirectory]. intros H.
  apply run_bind_inv in H as (r & w1 & t1 & t2 & H1 & H & ->).
  apply run_call_inv in H1 as [_ ->].
  destruct r as [files|e]; [|destruct (permitNonExistent && os_IsNotExist e); explode].
  apply run_bind_inv in H as (r & w2 & t3 & t4 & Hloop & H & ->).
  destruct r as [[D0 ch0]|e]; [|explode].
  apply run_ret_inv in H as (H & _ & ->). inversion H; subst.
  exists files. eexists. split; [reflexivity|].
  apply (run_rangeLoop_rounds h entryRound) in Hloop.
  - apply entryRounds in Hloop. exact Hloop.
  - intros file [D1 ch1] w3 r w4 t5 _ Hb. cbv beta iota in Hb.
    fold (fileType file) in Hb. fold (isRegular file) (isDir file) (isSymlink file) in Hb.
    pose proof (fileType_cases file) as [Hreg Hdir].
    unfold entryRound, supported.
    destruct (isRegular file) eqn:E0.
    { destruct (Hreg eq_refl) as [-> ->]. explode; [|exact I].
      cbn [fst Files Directories Symlinks]. rewrite map_app, !app_nil_r. auto. }
    destruct (isDir file) eqn:E1.
    { rewrite (Hdir eq_refl). explode; try exact I.
      cbn [fst Files Directories Symlinks]. rewrite map_app, !app_nil_r. auto. }
    destruct (isSymlink file) eqn:E2.
    { explode; [|exact I].
      cbn [fst Files Directories Symlinks]. rewrite map_app, !app_nil_r. auto. }
    explode. exact I.
Qed.


Lemma named_grown ch ch' D : named ch D -> grown ch ch' -> named ch' D.
Proof.
  unfold named. intros H Hg. eapply Forall_impl; [exact H|].
  intros n (d & Hd & Hk). exists d. split; [exact Hd | apply Hg, Hk].
Qed.

Lemma grown_refl ch : grown ch ch.
Proof. intros k H. exact H. Qed.

Lemma grown_trans ch1 ch2 ch3 : grown ch1 ch2 -> grown ch2 ch3 -> grown ch1 ch3.
Proof. intros H1 H2 k H. apply H2, H1, H. Qed.

Lemma grown_insert ch k (v : option Directory) : grown ch (<[k := v]> ch).
Proof.
  intros k' H. destruct (decide (k = k')) as [->|Hne].
  - rewrite lookup_insert_eq. eauto.
  - rewrite lookup_insert_ne by exact Hne. exact H.
Qed.

(** The map of children only grows, and stays closed. *)
Lemma uploadDirectory_grows (fuel : nat) :
  forall instance basePath permitNonExistent children w D children' w' t,
  run h (uploadDirectory fuel instance basePath permitNonExistent children) w
    = Some (Ok (D, children'), w', t) ->
  closedMap children ->
  grown children children' /\ closedMap children' /\
  match D with Some D => named children' D | None => True end.
Proof.
  induction fuel as [|fuel IH];
    intros instance basePath permitNonExistent children w D children' w' t H Hclosed;
    [discriminate|].
  cbn [uploadDirectory] in H.
  apply run_bind_inv in H as (r & w1 & t1 & t2 & _ & H & _).
  destruct r as [files|e].
  2:{ destruct (permitNonExistent && os_IsNotExist e); explode.
      split; [apply grown_refl | split; [exact Hclosed | exact I]]. }
  apply run_bind_inv in H as (r & w2 & t3 & t4 & Hloop & H & _).
  destruct r as [[D0 ch0]|e]; [|explode].
  apply run_ret_inv in H as (H & _ & _). inversion H; subst. clear H.
  apply (run_rangeLoop_invariant h
           (fun s => grown children (snd s) /\ closedMap (snd s) /\ named (snd s) (fst s)))
    in Hloop.
  - exact Hloop.
  - intros file [D1 ch1] w3 [D2 ch2] w4 t5 (Hg & Hc & Hn) Hb.
    cbn [fst snd] in *. cbv beta iota in Hb.
    explode; cbn [fst snd]; try (split; [exact Hg | split; [exact Hc | exact Hn]]).
    match goal with
    | H : run _ (uploadDirectory _ _ _ _ _) _ = Some _ |- _ =>
        apply IH in H as (Hg1 & Hc1 & Hn1); [|exact Hc]
    end.
    split; [|split].
    + eapply grown_trans; [exact Hg|]. eapply grown_trans; [exact Hg1 | apply grown_insert].
    + intros k Dk Hk. destruct (decide (Hash a = k)) as [<-|Hne].
      * rewrite lookup_insert_eq in Hk. inversion Hk; subst.
        eapply named_grown; [exact Hn1 | apply grown_insert].
      * rewrite lookup_insert_ne in Hk by exact Hne.
        eapply named_grown; [eapply Hc1; exact Hk | apply grown_insert].
    + unfold named. cbn [Directories]. apply Forall_app. split.
      * eapply named_grown; [exact Hn|].
        eapply grown_trans; [exact Hg1 | apply grown_insert].
      * constructor; [|constructor]. exists a. split; [reflexivity|].
        rewrite lookup_insert_eq. eauto.
  - cbn [fst snd]. split; [apply grown_refl | split; [exact Hclosed | constructor]].
Qed.

(** X13: the map of children that uploadDirectory fills from empty is
    closed: every DirectoryNode of the root it returns, and of every
    directory the map holds, carries a digest under whose hash the map
    holds a directory. *)
Theorem uploadDirectory_closed fuel instance basePath permitNonExistent w root children w' t :
  run h (uploadDirectory fuel instance basePath permitNonExistent ∅) w
    = Some (Ok (Some root, children), w', t) ->
  named children root /\ closedMap children.
Proof.
  intros H. apply uploadDirectory_grows in H as (_ & Hc & Hn); [auto|].
  intros k D Hk. rewrite lookup_empty in Hk. discriminate.
Qed.


Ltac uploads :=
  repeat match goal with
  | H : run _ (prepareFilesystem _ _ _ _) _ = Some _ |- _ =>
      apply (staging_silent h) in H as (_ & _ & _ & H);
      [|apply prepareFilesystem_staging]
  | H : run _ (runCommand _) _ = Some _ |- _ =>
      apply (local_silent h) in H as (_ & _ & H);
      [|apply runCommand_local]
  end.

(** X14: when Execute returns an ActionResult, its first two uploads
    were /stdout and then /stderr, both succeeded, and the result carries
    the digests these two uploads returned as its stdout and stderr
    digests. *)
Theorem Execute_output_digests fuel request w resp cacheable w' t result :
  run h (Execute fuel request) w = Some (resp, cacheable, w', t) ->
  Result resp = Some result ->
  exists stdoutDigest x1 stderrDigest x2 rest,
    putFiles t = (pathStdout, Ok (stdoutDigest, x1))
                 :: (pathStderr, Ok (stderrDigest, x2)) :: rest /\
    StdoutDigest result = Some stdoutDigest /\
    StderrDigest result = Some stderrDigest.
Proof.
  unfold Execute. intros H Hres. explode; try discriminate Hres.
  all: simpl in Hres; inversion Hres; subst; clear Hres.
  all: uploads.
  all: match goal with
       | Hf : run _ (rangeLoop (OutputFiles _) ?s0 _) _ = Some (Ok ?s1, _, _),
         Hd : run _ (rangeLoop (OutputDirectories _) ?s1 _) _ = Some (Ok ?s2, _, _) |- _ =>
           apply (run_rangeLoop_invariant h
                    (fun R => StdoutDigest R = StdoutDigest s0 /\
                              StderrDigest R = StderrDigest s0)) in Hf;
           [ apply (run_rangeLoop_invariant h
                      (fun R => StdoutDigest R = StdoutDigest s0 /\
                                StderrDigest R = StderrDigest s0)) in Hd;
             [ | intros; explode; assumption | exact Hf ]
           | intros; explode; assumption
           | split; reflexivity ]
       end.
  all: cbn [StdoutDigest StderrDigest] in *.
  all: rewrite !putFiles_app.
  all: repeat match goal with H : putFiles _ = [] |- _ => rewrite H; clear H end.
  all: do 5 eexists; split; [reflexivity | assumption].
Qed.


Lemma uploadDirectory_untreed (fuel : nat) :
  forall instance basePath permitNonExistent children,
  allEvents untreed (uploadDirectory fuel instance basePath permitNonExistent children).
Proof.
  induction fuel as [|fuel IH]; intros; [exact I|].
  cbn [uploadDirectory]. events. apply IH.
Qed.

Lemma uploadDirectory_absent fuel instance basePath permitNonExistent children w ch' w' t :
  run h (uploadDirectory fuel instance basePath permitNonExistent children) w
    = Some (Ok (None, ch'), w', t) ->
  exists e, t = [Call (ioutil_ReadDir basePath) (Err e)] /\
            os_IsNotExist e = true /\ permitNonExistent = true.
Proof.
  destruct fuel as [|fuel]; [discriminate|]. cbn [uploadDirectory]. intros H.
  apply run_bind_inv in H as (r & w1 & t1 & t2 & H1 & H & ->).
  apply run_call_inv in H1 as [_ ->].
  destruct r as [files|e].
  - apply run_bind_inv in H as (r & w2 & t3 & t4 & _ & H & _).
    destruct r as [[D0 ch0]|e]; explode.
  - destruct permitNonExistent, (os_IsNotExist e) eqn:He; simpl in H; explode.
    exists e. auto.
Qed.

(** X15: uploadTree uploads at most one Tree.  When it returns a digest,
    its last call was the PutTree that returned it, for a Tree with a root;
    when it returns no digest and no error, its only call was the ReadDir
    that found the directory missing. *)
Theorem uploadTree_puts_once fuel instance p w r w' t :
  run h (uploadTree fuel instance p) w = Some (r, w', t) ->
  match r with
  | Ok (Some digest) =>
      exists front tree root,
        t = front ++ [Call (PutTree instance tree) (Ok digest)] /\
        putTrees t = [tree] /\ Root tree = Some root
  | Ok None =>
      exists e, t = [Call (ioutil_ReadDir p) (Err e)] /\ os_IsNotExist e = true
  | Err _ => length (putTrees t) <= 1
  end.
Proof.
  unfold uploadTree. intros H.
  apply run_bind_inv in H as (r0 & w1 & t1 & t2 & H1 & H & ->).
  assert (Hq : putTrees t1 = []).
  { eapply (run_unobserved h putTree untreed); [|apply uploadDirectory_untreed | exact H1].
    intros X e x. destruct e; simpl; tauto. }
  unfold putTrees in *. rewrite omap_app, Hq.
  destruct r0 as [[[root|] children]|e].
  - explode; simpl.
    + do 3 eexists. repeat split.
    + lia.
  - explode. apply uploadDirectory_absent in H1 as (e & -> & He & _).
    exists e. split; [reflexivity | exact He].
  - explode. simpl. lia.
Qed.


End outputs.

Section composed.
Context {W : Type} (h : handler event W) (request : ExecuteRequest).
Context (getDir : option Digest -> result Directory).
Hypothesis Hdir :
  forall d w, fst (h _ (GetDirectory (InstanceName request) d) w) = getDir d.

Lemma uploadDirectory_unstaged (fuel : nat) :
  forall instance basePath permitNonExistent children,
  allEvents unstaged (uploadDirectory fuel instance basePath permitNonExistent children).
Proof.
  induction fuel as [|fuel IH]; intros; [exact I|].
  cbn [uploadDirectory]. events. apply IH.
Qed.

Lemma uploadTree_unstaged fuel instance p : allEvents unstaged (uploadTree fuel instance p).
Proof. unfold uploadTree. events. apply uploadDirectory_unstaged. Qed.

Lemma runCommand_unstaged command : allEvents unstaged (runCommand command).
Proof. unfold runCommand. events. Qed.

Lemma unstaged_silent {A} (p : M A) w a w' t :
  allEvents unstaged p -> run h p w = Some (a, w', t) ->
  gotFiles t = [] /\ madeDirs t = [].
Proof.
  intros Hp Hr. split.
  - eapply (run_unobserved h gotFile unstaged); [|exact Hp | exact Hr].
    intros X e x. destruct e; simpl; tauto.
  - eapply (run_unobserved h madeDir unstaged); [|exact Hp | exact Hr].
    intros X e x. destruct e; simpl; tauto.
Qed.

(** What a staging that succeeded fetched, made and removed. *)
Lemma prepareFilesystem_shown (n fuel : nat) action command w w' t :
  n <= fuel -> finiteTree getDir n (InputRootDigest action) ->
  run h (prepareFilesystem fuel request action command) w = Some (None, w', t) ->
  gotFiles t = inputFiles getDir n (InputRootDigest action) pathBuildRoot /\
  madeDirs t = inputDirs getDir n (InputRootDigest action) pathBuildRoot
               ++ [(pathTempRoot, 511%Z)].
Proof.
  intros Hn Hfin H. unfold prepareFilesystem in H. explode.
  match goal with
  | H : run _ (createInputDirectory _ _ _ _) _ = Some _ |- _ =>
      apply (createInputDirectory_shown h request getDir Hdir n) in H as [Hg Hm];
      [ | exact Hn | exact Hfin | discriminate ]
  end.
  match goal with
  | H : run _ (rangeLoop ?l ?s ?b) _ = Some _ |- _ =>
      pose proof (run_rangeLoop_shown h gotFile (fun _ => []) b l) as F1;
      pose proof (run_rangeLoop_shown h madeDir (fun _ => []) b l) as F2;
      eapply F1 in H as G1; [eapply F2 in H as G2|]; clear F1 F2
  end.
  - fold (gotFiles t4) in G1. fold (madeDirs t4) in G2.
    rewrite !gotFiles_app, !madeDirs_app, Hg, Hm, G1, G2, !flat_map_nil.
    simpl. rewrite !app_nil_r. split; reflexivity.
  - intros f s0 w5 s' w6 t5 _ Hb. cbv beta in Hb.
    rewrite joinPathSafe_root in Hb. explode. reflexivity.
  - intros f s0 w5 s' w6 t5 _ Hb. cbv beta in Hb.
    rewrite joinPathSafe_root in Hb. explode. reflexivity.
Qed.

Ltac staged n Hn Hfin :=
  repeat match goal with
  | H : run _ (prepareFilesystem _ _ _ _) _ = Some (None, _, _) |- _ =>
      let F := fresh in
      pose proof (staging_silent h _ _ _ _ _ (prepareFilesystem_staging _ _ _ _) H)
        as (F & _);
      apply (prepareFilesystem_shown n) in H as [? ?]; [ | exact Hn | apply Hfin ]
  | H : run _ (prepareFilesystem _ _ _ _) _ = Some (Some _, _, _) |- _ =>
      apply (staging_silent h) in H as (H & _); [|apply prepareFilesystem_staging]
  | H : run _ (runCommand _) _ = Some _ |- _ =>
      apply unstaged_silent in H as [? ?]; [|apply runCommand_unstaged]
  | H : run _ (rangeLoop ?l ?s ?b) _ = Some _ |- _ =>
      let F := fresh in let G := fresh in
      assert (F : allEvents quiet (rangeLoop l s b))
        by (repeat first [apply uploadTree_quiet | event_step]);
      pose proof (quiet_silent h _ _ _ _ _ F H) as (G & _); clear F;
      assert (F : allEvents unstaged (rangeLoop l s b))
        by (repeat first [apply uploadTree_unstaged | event_step]);
      apply (unstaged_silent _ _ _ _ _ F) in H as [? ?]; clear F
  end.

(** X16: when Execute spawns a process on a finite input tree, the input
    files it fetched before are exactly the files of the action's input
    root, each at its path under the build root, and the directories it
    made are those of the input root followed by the temporary directory;
    running the command and harvesting fetch no input file and make no
    directory. *)
Theorem Execute_stages_inputs (n fuel : nat) w resp cacheable w' t :
  n <= fuel ->
  run h (Execute fuel request) w = Some (resp, cacheable, w', t) ->
  spawns t <> [] ->
  exists action,
    fetchedActions t = [Ok action] /\
    (finiteTree getDir n (InputRootDigest action) ->
     gotFiles t = inputFiles getDir n (InputRootDigest action) pathBuildRoot /\
     madeDirs t = inputDirs getDir n (InputRootDigest action) pathBuildRoot
                  ++ [(pathTempRoot, 511%Z)]).
Proof.
  intros Hn H Hs. unfold Execute in H. explode.
  all: try (exfalso; apply Hs; clear Hs;
            repeat match goal with
            | H : run _ (prepareFilesystem _ _ _ _) _ = Some _ |- _ =>
                apply (staging_silent h) in H as (H & _);
                [|apply prepareFilesystem_staging]
            end;
            rewrite ?spawns_app;
            repeat match goal with H : spawns _ = [] |- _ => rewrite H; clear H end;
            reflexivity).
  all: eexists; split;
    [ repeat match goal with
      | H : run _ (prepareFilesystem _ _ _ _) _ = Some _ |- _ =>
          apply (staging_silent h) in H as (_ & H & _);
          [|apply prepareFilesystem_staging]
      | H : run _ (runCommand _) _ = Some _ |- _ =>
          apply (local_silent h) in H as (H & _); [|apply runCommand_local]
      | H : run _ (rangeLoop ?l ?s ?b) _ = Some _ |- _ =>
          let F := fresh in
          assert (F : allEvents quiet (rangeLoop l s b))
            by (repeat first [apply uploadTree_quiet | event_step]);
          apply (quiet_silent h _ _ _ _ _ F) in H as (_ & H & _); clear F
      end;
      rewrite ?fetchedActions_app;
      repeat match goal with H : fetchedActions _ = [] |- _ => rewrite H; clear H end;
      reflexivity
    | intros Hfin ].
  all: staged n Hn Hfin.
  all: rewrite ?gotFiles_app, ?madeDirs_app.
  all: repeat match goal with
       | H : gotFiles _ = _ |- _ => rewrite H; clear H
       | H : madeDirs _ = _ |- _ => rewrite H; clear H
       end.
  all: simpl; rewrite ?app_nil_r; split; reflexivity.
Qed.

End composed.

End executor_facts.

(** ** Names that joinPathSafe keeps below the base *)
Module plainpath_facts.
Import path pathspec path_facts builder plainpath.

Lemma list_ascii_of_string_app (a b : string) :
  list_ascii_of_string (a ++ b)%string = list_ascii_of_string a ++ list_ascii_of_string b.
Proof. induction a as [|c a IH]; simpl; [reflexivity | rewrite IH; reflexivity]. Qed.

Lemma append_assoc (a b c : string) : ((a ++ b) ++ c = a ++ b ++ c)%string.
Proof.
  induction a as [|x a IH]; [reflexivity|].
  change (String x ((a ++ b) ++ c) = String x (a ++ b ++ c))%string.
  rewrite IH. reflexivity.
Qed.

Lemma list_ascii_of_string_joinSlash (l : list string) :
  list_ascii_of_string (joinSlash l) = joinB (map list_ascii_of_string l).
Proof.
  induction l as [|a l IH]; [reflexivity|].
  destruct l as [|b l]; [reflexivity|].
  change (joinSlash (a :: b :: l)) with (a ++ "/" ++ joinSlash (b :: l))%string.
  rewrite !list_ascii_of_string_app, IH. reflexivity.
Qed.

Lemma joinSlash_app (l1 l2 : list string) :
  l1 <> [] -> l2 <> [] ->
  joinSlash (l1 ++ l2) = (joinSlash l1 ++ "/" ++ joinSlash l2)%string.
Proof.
  intros H1 H2. induction l1 as [|a l1 IH]; [congruence|].
  destruct l1 as [|b l1].
  - destruct l2 as [|c l2]; [congruence | reflexivity].
  - change (joinSlash ((a :: b :: l1) ++ l2)) with (a ++ "/" ++ joinSlash ((b :: l1) ++ l2))%string.
    rewrite IH by discriminate.
    change (joinSlash (a :: b :: l1)) with (a ++ "/" ++ joinSlash (b :: l1))%string.
    rewrite !append_assoc. reflexivity.
Qed.

(** [Clean] leaves an absolute path of plain elements as it is. *)
Lemma Clean_plain (l : list string) :
  l <> [] -> Forall plain l -> Clean ("/" ++ joinSlash l)%string = ("/" ++ joinSlash l)%string.
Proof.
  intros Hne Hl. unfold Clean.
  set (L := map list_ascii_of_string l).
  assert (HL : Forall normal L).
  { unfold L. apply Forall_forall. intros x Hx. apply list_elem_of_In, in_map_iff in Hx.
    destruct Hx as (c & <- & Hc). rewrite Forall_forall in Hl.
    apply Hl, list_elem_of_In, Hc. }
  assert (Hp : list_ascii_of_string ("/" ++ joinSlash l)%string
               = render true (contents (Stack 0 (rev L)))).
  { rewrite list_ascii_of_string_app, list_ascii_of_string_joinSlash.
    unfold contents, render. cbn [dd elems repeat app]. rewrite rev_involutive.
    reflexivity. }
  rewrite Hp, cleanBytes_prefix, cleanPrefix_render.
  - rewrite <- Hp. apply string_of_list_ascii_of_string.
  - split; [reflexivity|]. simpl. apply Forall_forall. intros x Hx.
    rewrite Forall_forall in HL. apply HL. apply list_elem_of_In.
    apply list_elem_of_In in Hx. apply in_rev. exact Hx.
  - discriminate.
Qed.

(** X17: for an absolute base made of plain elements and a relative name
    made of plain elements (non-empty, without slash, neither . nor ..),
    joinPathSafe returns the base, a slash and the name: such names stay
    below the base. *)
Theorem joinPathSafe_plain (bs cs : list string) :
  bs <> [] -> cs <> [] -> Forall plain bs -> Forall plain cs ->
  joinPathSafe [("/" ++ joinSlash bs)%string; joinSlash cs]
  = Ok ("/" ++ joinSlash (bs ++ cs))%string.
Proof.
  intros Hb Hc Hbs Hcs.
  assert (Hj : Join [("/" ++ joinSlash bs)%string; joinSlash cs]
               = ("/" ++ joinSlash (bs ++ cs))%string).
  { unfold Join. simpl String.eqb.
    change (joinSlash [("/" ++ joinSlash bs)%string; joinSlash cs])
      with (("/" ++ joinSlash bs) ++ "/" ++ joinSlash cs)%string.
    rewrite append_assoc, <- joinSlash_app by assumption.
    apply Clean_plain.
    - destruct bs; [congruence | discriminate].
    - apply Forall_app. split; assumption. }
  unfold joinPathSafe. rewrite Hj, Clean_plain.
  - rewrite String.eqb_refl. reflexivity.
  - destruct bs; [congruence | discriminate].
  - apply Forall_app. split; assumption.
Qed.

End plainpath_facts.

(** ** The executor over the v1test messages *)
Module v1test_facts.
Import builder_v1test builder_facts.

Section runs.
Context {W : Type} (h : handler event W).
Variable proto_Unmarshal_Command : list Byte.byte -> result Command.
Variable proto_Unmarshal_Directory : list Byte.byte -> result Directory.
Variable Error : error -> string.

Local Abbreviation execute :=
  (Execute proto_Unmarshal_Command proto_Unmarshal_Directory Error).

(** As [explode], keeping an equation for every case taken. *)
Ltac unfolded :=
  repeat match goal with
  | H : run _ (bind _ _) _ = Some _ |- _ =>
      let a := fresh "a" in let w := fresh "w" in
      let t1 := fresh "t" in let t2 := fresh "t" in
      let H1 := fresh "Hrun" in let Ht := fresh "Ht" in
      apply run_bind_inv in H as (a & w & t1 & t2 & H1 & H & Ht)
  | H : run _ (call _) _ = Some _ |- _ =>
      let Hh := fresh "Hcall" in let Ht := fresh "Ht" in
      apply run_call_inv in H as [Hh Ht]
  | H : run _ (Ret _) _ = Some _ |- _ =>
      let H1 := fresh in let H2 := fresh in let H3 := fresh in
      apply run_ret_inv in H as (H1 & H2 & H3)
  | H : run _ (match ?x with _ => _ end) _ = Some _ |- _ => destruct x eqn:?
  | H : (_, _) = (_, _) |- _ => inversion H; clear H
  | H : Ok _ = Ok _ |- _ => inversion H; clear H
  | H : Err _ = Err _ |- _ => inversion H; clear H
  | H : Ok _ = Err _ |- _ => discriminate H
  | H : Err _ = Ok _ |- _ => discriminate H
  | H : returned _ = returned _ |- _ => inversion H; clear H
  | H : returned _ = panicked _ |- _ => discriminate H
  | H : panicked _ = returned _ |- _ => discriminate H
  | H : panicked _ = panicked _ |- _ => inversion H; clear H
  end; subst.

Ltac ended :=
  repeat match goal with
  | H : returned _ = returned _ |- _ => inversion H; clear H; subst
  | H : returned _ = panicked _ |- _ => discriminate H
  | H : panicked _ = returned _ |- _ => discriminate H
  | H : panicked _ = panicked _ |- _ => inversion H; clear H; subst
  end.

Lemma fold_left_pairs (l : list EnvironmentVariable) :
  forall init,
  fold_left (fun env v => env ++ [(Name v ++ "=" ++ Value v)%string]) l init
  = init ++ map (fun v => (Name v ++ "=" ++ Value v)%string) l.
Proof.
  induction l as [|v l IH]; intros init; simpl.
  - rewrite app_nil_r. reflexivity.
  - rewrite IH, <- app_assoc. reflexivity.
Qed.

(** X18: when the v1test executor returns a response, it has fetched
    the command and then the input root of the request's action and has
    spawned exactly one process; the result has exit code 123 whatever
    running the process returned, and its stderr is the text of the error
    of the run, or Completed?, followed by a newline. *)
Theorem Execute_v1test_exit_code request w resp w' t :
  run h (execute request) w = Some (returned (Ok resp), w', t) ->
  exists action cmd x,
    RequestAction request = Some action /\
    fetches t = [(InstanceName request, CommandDigest action);
                 (InstanceName request, InputRootDigest action)] /\
    spawns t = [(cmd, x)] /\
    Result resp =
      Some {| ExitCode := 123;
              StderrRaw := match x with
                           | Some err => (Error err ++ newline)%string
                           | None => ("Completed?" ++ newline)%string
                           end |}.
Proof.
  unfold Execute. intros H. unfolded.
  all: do 3 eexists; repeat split.
Qed.

(** X19: the process the v1test executor spawns has the first argument
    of the decoded command followed by all its arguments as its argument
    vector, so the first argument appears twice; its environment is the
    declared name=value pairs with nothing before them (none at all when
    the command declares none); no directory, credentials or output
    streams are set. *)
Theorem Execute_v1test_child request w r w' t cmd x :
  run h (execute request) w = Some (r, w', t) ->
  In (cmd, x) (spawns t) ->
  exists command,
    In (gotCommand command) (printed t) /\
    builder.Cmd_Args cmd = hd "" (Arguments command)
                   :: Arguments command /\
    builder.Cmd_Env cmd = childEnv command /\
    builder.Cmd_Dir cmd = "" /\ builder.Cmd_SysProcAttr cmd = None /\
    builder.Cmd_Stdout cmd = None /\ builder.Cmd_Stderr cmd = None.
Proof.
  unfold Execute. intros H Hin.
  unfolded; simpl in Hin; try contradiction.
  all: destruct Hin as [Hin|[]]; inversion Hin; subst.
  all: match goal with
       | Hargs : Arguments ?c = _ |- _ => exists c; rewrite Hargs
       end.
  all: repeat split; try (simpl; tauto).
  all: cbn [builder.Cmd_Env exec_Command]; apply (fold_left_pairs _ []).
Qed.

(** X20: the v1test executor panics on a request without an action;
    and whenever it panics it has spawned no process, and either the
    request has no action or the command it decoded has no arguments. *)
Theorem Execute_v1test_panics request w :
  (RequestAction request = None ->
   exists reason w' t, run h (execute request) w = Some (panicked reason, w', t)) /\
  (forall reason w' t,
     run h (execute request) w = Some (panicked reason, w', t) ->
     spawns t = [] /\
     (RequestAction request = None \/
      exists command,
        In (gotCommand command) (printed t) /\ Arguments command = [])).
Proof.
  split.
  - intros Hnil. unfold Execute. rewrite Hnil.
    rewrite run_bind, run_call. simpl. eauto.
  - unfold Execute. intros reason w' t H.
    destruct (RequestAction request) as [action|] eqn:Hact.
    + unfolded. split; [reflexivity|]. right.
      match goal with
      | Hargs : Arguments ?c = [] |- _ => exists c
      end.
      split; [simpl; tauto | assumption].
    + explode; ended. split; [reflexivity | left; reflexivity].
Qed.

(** X21: when the v1test executor returns an error, it has spawned no
    process and the last line it logged is that error. *)
Theorem Execute_v1test_errors_logged request w e w' t :
  run h (execute request) w = Some (returned (Err e), w', t) ->
  spawns t = [] /\
  exists front, printed t = front ++ [failure e].
Proof.
  unfold Execute. intros H. explode; ended.
  all: split; [reflexivity|].
  all: simpl; unfold failure.
  all: match goal with
       | |- exists front, ?l = _ => exists (removelast l); reflexivity
       end.
Qed.

End runs.
End v1test_facts.

(** ** More about the action cache *)
Module ac_calls.
Import ac builder_facts.

Section calls.
Context {W : Type} (h : handler event W).
Variable proto_Marshal : ActionResult -> result (list Byte.byte).
Variable proto_Unmarshal : list Byte.byte -> result ActionResult.

(** X22: GetActionResult makes exactly two calls, the Get and the Close
    of the reader that the Get returned, also when reading or decoding
    fails; it returns the error of the read if there is one, and otherwise
    what decoding the bytes read gives. *)
Theorem GetActionResult_closes_reader instance digest w r w' t :
  run h (GetActionResult proto_Unmarshal instance digest) w = Some (r, w', t) ->
  exists rc x,
    t = [Call (BlobAccess_Get instance digest) rc; Call (ReadCloser_Close rc) x] /\
    r = match ioutil_ReadAll rc with
        | Err err => Err err
        | Ok data => proto_Unmarshal data
        end.
Proof.
  unfold GetActionResult. intros H.
  apply run_bind_inv in H as (rc & w1 & t1 & t2 & H1 & H & ->).
  apply run_call_inv in H1 as [_ ->].
  apply run_bind_inv in H as (x & w2 & t3 & t4 & H2 & H & ->).
  apply run_call_inv in H2 as [_ ->].
  exists rc, x.
  destruct (ioutil_ReadAll rc) as [data|err].
  - destruct (proto_Unmarshal data) as [actionResult|err];
      apply run_ret_inv in H as (-> & _ & ->); split; reflexivity.
  - apply run_ret_inv in H as (-> & _ & ->). split; reflexivity.
Qed.

(** X23: a result that cannot be marshalled never reaches the store:
    PutActionResult returns the error and makes no call.  Otherwise it
    makes exactly one Put, which announces the number of bytes of the
    marshalled message and hands over those bytes, and it returns what the
    Put returned. *)
Theorem PutActionResult_sends instance digest result w r w' t :
  run h (PutActionResult proto_Marshal instance digest result) w = Some (r, w', t) ->
  match proto_Marshal result with
  | Err err => r = Some err /\ t = [] /\ w' = w
  | Ok data =>
      t = [Call (BlobAccess_Put instance digest (Z.of_nat (length data))
                   {| content := data; failure := None |}) r]
  end.
Proof.
  unfold PutActionResult. intros H. destruct (proto_Marshal result) as [data|err].
  - apply run_call_inv in H as [_ ->]. reflexivity.
  - apply run_ret_inv in H as (-> & -> & ->). auto.
Qed.

End calls.
End ac_calls.

(** ** More about the input file exposer *)
Module exposer_calls.
Import exposer builder_facts.

Section calls.
Context {W : Type} (h : handler event W).

(** X24: Expose ends in one of three ways.  Opening the file failed: it
    returns that error and calls nothing else.  The file was opened and the
    blob could not be fetched: it closes the file and returns the error of
    the fetch, copying nothing.  Both succeeded: it copies the blob into
    the file, closes the file and returns the error of the copy.  The file
    is closed exactly once whenever it was opened. *)
Theorem Expose_closes_file instance digest outputPath isExecutable w r w' t :
  run h (Expose instance digest outputPath isExecutable) w = Some (r, w', t) ->
  let open :=
    os_OpenFile outputPath
      (Z.lor (Z.lor builder.O_WRONLY builder.O_CREATE) builder.O_EXCL)
      (if isExecutable then 365%Z else 292%Z) in
  (exists e, t = [Call open (Err e)] /\ r = Some e) \/
  (exists f e x,
     t = [Call open (Ok f); Call (BlobAccess_Get instance digest) (Err e);
          Call (File_Close f) x] /\ r = Some e) \/
  (exists f src n x,
     t = [Call open (Ok f); Call (BlobAccess_Get instance digest) (Ok src);
          Call (io_Copy f src) (n, r); Call (File_Close f) x]).
Proof.
  unfold Expose. intros H. cbv zeta. explode.
  - right. right. do 4 eexists. reflexivity.
  - right. left. do 3 eexists. split; reflexivity.
  - left. eexists. split; reflexivity.
Qed.

End calls.
End exposer_calls.

(** ** The files uploaded for an output directory *)
Module outputs_facts.
Import path builder observe calls outputs builder_facts executor_facts.

Section uploads.
Context {W : Type} (h : handler event W).
Context (dirAns : string -> result (list FileInfo)).
Hypothesis Hdir : forall p w, fst (h _ (ioutil_ReadDir p) w) = dirAns p.

Lemma uploadDirectory_shown (n : nat) :
  forall fuel instance basePath permitNonExistent children w D children' w' t,
  n <= fuel -> finiteDir dirAns n basePath ->
  run h (uploadDirectory fuel instance basePath permitNonExistent children) w
    = Some (Ok (Some D, children'), w', t) ->
  putPaths t = regularFiles dirAns n basePath.
Proof.
  induction n as [|n IH];
    intros fuel instance basePath permitNonExistent children w D children' w' t
           Hn Hfin H; [destruct Hfin|].
  destruct fuel as [|fuel]; [lia|].
  cbn [uploadDirectory] in H. cbn [finiteDir regularFiles] in *.
  apply run_bind_inv in H as (r & w1 & t1 & t2 & H1 & H & ->).
  apply run_call_inv in H1 as [H1 ->].
  pose proof (Hdir basePath w) as Hans. rewrite H1 in Hans. simpl in Hans.
  rewrite <- Hans in *. clear Hans.
  destruct r as [files|e]; [|destruct (permitNonExistent && os_IsNotExist e); explode].
  apply run_bind_inv in H as (r & w2 & t3 & t4 & Hloop & H & ->).
  destruct r as [[D0 ch0]|e]; [|explode].
  apply run_ret_inv in H as (_ & _ & ->).
  unfold putPaths. rewrite !omap_app. simpl. rewrite app_nil_r.
  eapply (run_rangeLoop_shown h putPath); [|exact Hloop].
  intros file [D1 ch1] w3 [D2 ch2] w4 t5 Hin Hb. cbv beta iota in Hb.
  fold (fileType file) in Hb. fold (isRegular file) (isDir file) (isSymlink file) in Hb.
  pose proof (fileType_cases file) as [Hreg _].
  destruct (isRegular file) eqn:E0.
  { explode. reflexivity. }
  destruct (isDir file) eqn:E1.
  { apply run_bind_inv in Hb as (r & w5 & t6 & t7 & Hsub & Hb & ->).
    destruct r as [[child ch3]|e]; [|explode].
    destruct child as [child|].
    2:{ apply uploadDirectory_absent in Hsub as (e & _ & _ & Hp). discriminate. }
    rewrite omap_app.
    apply (IH fuel) in Hsub.
    - unfold putPaths in Hsub. rewrite Hsub. explode; simpl; rewrite app_nil_r; reflexivity.
    - lia.
    - rewrite Forall_forall in Hfin. apply Hfin; [apply list_elem_of_In, Hin | exact E1]. }
  destruct (isSymlink file) eqn:E2; explode; reflexivity.
Qed.

(** X25: when uploadDirectory returns a Directory for a finite directory
    tree, the paths it uploaded with PutFile are exactly the regular files
    under the base path, in the order of the listings, the files of a
    subdirectory at the place of its entry; symlinks and directories
    themselves are not uploaded as files. *)
Theorem uploadDirectory_uploads (n fuel : nat) instance basePath permitNonExistent
    children w D children' w' t :
  n <= fuel -> finiteDir dirAns n basePath ->
  run h (uploadDirectory fuel instance basePath permitNonExistent children) w
    = Some (Ok (Some D, children'), w', t) ->
  putPaths t = regularFiles dirAns n basePath.
Proof. apply uploadDirectory_shown. Qed.

End uploads.
End outputs_facts.

(** ** Absolute names under joinPathSafe *)
Module absolute_facts.
Import path pathspec path_facts builder plainpath plainpath_facts.

Lemma joinB_app (l1 l2 : list bytes) :
  l1 <> [] -> l2 <> [] -> joinB (l1 ++ l2) = joinB l1 ++ "/"%char :: joinB l2.
Proof.
  intros H1 H2. induction l1 as [|a l1 IH]; [congruence|].
  destruct l1 as [|b l1].
  - simpl app. rewrite joinB_cons by exact H2. reflexivity.
  - change ((a :: b :: l1) ++ l2) with (a :: (b :: l1) ++ l2).
    rewrite joinB_cons by discriminate. rewrite IH by discriminate.
    rewrite (joinB_cons a (b :: l1)) by discriminate.
    rewrite <- app_assoc. reflexivity.
Qed.

Lemma plain_normal (l : list string) :
  Forall plain l -> Forall normal (map list_ascii_of_string l).
Proof.
  intros Hl. apply Forall_forall. intros x Hx.
  apply list_elem_of_In, in_map_iff in Hx. destruct Hx as (c & <- & Hc).
  rewrite Forall_forall in Hl. apply Hl, list_elem_of_In, Hc.
Qed.

(** [Clean] drops the empty element that a doubled slash makes. *)
Lemma Clean_doubled_slash (bs cs : list string) :
  bs <> [] -> cs <> [] -> Forall plain bs -> Forall plain cs ->
  Clean ("/" ++ joinSlash bs ++ "/" ++ "/" ++ joinSlash cs)%string
  = ("/" ++ joinSlash (bs ++ cs))%string.
Proof.
  intros Hb Hc Hbs Hcs. unfold Clean.
  set (Lb := map list_ascii_of_string bs). set (Lc := map list_ascii_of_string cs).
  assert (HLb : Forall normal Lb) by (apply plain_normal; exact Hbs).
  assert (HLc : Forall normal Lc) by (apply plain_normal; exact Hcs).
  assert (Hp : list_ascii_of_string ("/" ++ joinSlash bs ++ "/" ++ "/" ++ joinSlash cs)%string
               = "/"%char :: joinB (Lb ++ [] :: Lc)).
  { rewrite !list_ascii_of_string_app, !list_ascii_of_string_joinSlash.
    fold Lb Lc. rewrite joinB_app; [|destruct bs; [congruence | discriminate] | discriminate].
    rewrite joinB_cons by (destruct cs; [congruence | discriminate]). reflexivity. }
  rewrite Hp, cleanBytes_prefix.
  destruct (cleanPrefix_cons "/"%char (joinB (Lb ++ [] :: Lc))) as [_ Hclean].
  cbv zeta in Hclean. change (isSlash "/") with true in Hclean. cbv iota in Hclean.
  rewrite Hclean. clear Hclean.
  rewrite splitSlash_joinB.
  2:{ destruct Lb; discriminate. }
  2:{ apply Forall_app. split; [|constructor; [constructor|]].
      - eapply Forall_impl; [exact HLb|]. intros x Hx. apply Hx.
      - eapply Forall_impl; [exact HLc|]. intros x Hx. apply Hx. }
  rewrite fold_left_app. cbn [fold_left].
  rewrite <- (rev_involutive Lb), fold_step_normal
    by (apply Forall_forall; intros x Hx; rewrite Forall_forall in HLb;
        apply HLb, list_elem_of_In, in_rev, list_elem_of_In, Hx).
  cbn [step]. rewrite <- (rev_involutive Lc), fold_step_normal
    by (apply Forall_forall; intros x Hx; rewrite Forall_forall in HLc;
        apply HLc, list_elem_of_In, in_rev, list_elem_of_In, Hx).
  unfold contents, render. cbn [dd elems repeat app].
  rewrite app_nil_r, rev_app_distr, !rev_involutive.
  cbn [length Nat.eqb]. unfold Lb, Lc. rewrite <- map_app, <- list_ascii_of_string_joinSlash.
  change ("/"%char :: list_ascii_of_string (joinSlash (bs ++ cs)))
    with (list_ascii_of_string (String "/" (joinSlash (bs ++ cs)))).
  apply string_of_list_ascii_of_string.
Qed.

(** X26: joinPathSafe takes an absolute name made of plain elements
    relative to the base: the result is the base, a slash and the elements
    of the name, so an absolute name does not leave the base. *)
Theorem joinPathSafe_absolute_name (bs cs : list string) :
  bs <> [] -> cs <> [] -> Forall plain bs -> Forall plain cs ->
  joinPathSafe [("/" ++ joinSlash bs)%string; ("/" ++ joinSlash cs)%string]
  = Ok ("/" ++ joinSlash (bs ++ cs))%string.
Proof.
  intros Hb Hc Hbs Hcs.
  assert (Hj : Join [("/" ++ joinSlash bs)%string; ("/" ++ joinSlash cs)%string]
               = ("/" ++ joinSlash (bs ++ cs))%string).
  { unfold Join. simpl String.eqb.
    change (joinSlash [("/" ++ joinSlash bs)%string; ("/" ++ joinSlash cs)%string])
      with (("/" ++ joinSlash bs) ++ "/" ++ "/" ++ joinSlash cs)%string.
    rewrite append_assoc. apply Clean_doubled_slash; assumption. }
  unfold joinPathSafe. rewrite Hj, Clean_plain.
  - rewrite String.eqb_refl. reflexivity.
  - destruct bs; [congruence | discriminate].
  - apply Forall_app. split; assumption.
Qed.

End absolute_facts.

(** ** Execute returns *)
Module termination.
Import path builder observe calls outputs builder_facts executor_facts.

Section ends.
Context {E : Type -> Type} {W : Type} (h : handler E W).

Lemma ends_ret {A} (a : A) w : ends h (Ret a) w.
Proof. apply (outcome_ret h). exact I. Qed.

Lemma ends_call {X} (e : E X) w : ends h (call e) w.
Proof. apply (outcome_call h). exact I. Qed.

Lemma ends_bind {A B} (p : prog E A) (f : A -> prog E B) w :
  ends h p w -> (forall a w1, ends h (f a) w1) -> ends h (bind p f) w.
Proof.
  intros (a & w1 & t1 & Hp & _) Hf. apply outcome_bind.
  exists a, w1, t1. split; [exact Hp|].
  eapply outcome_weaken; [|apply Hf]. auto.
Qed.

Lemma ends_bind_call {X B} (e : E X) (f : X -> prog E B) w :
  ends h (f (fst (h X e w))) (snd (h X e w)) -> ends h (bind (call e) f) w.
Proof.
  intros Hf. apply outcome_bind, outcome_call.
  eapply outcome_weaken; [|exact Hf]. auto.
Qed.

Lemma ends_rangeLoop {A S} (body : A -> S -> prog E (result S)) (l : list A) :
  (forall a s w, In a l -> ends h (body a s) w) ->
  forall s w, ends h (rangeLoop l s body) w.
Proof.
  intros Hb s w.
  eapply outcome_weaken; [|apply (outcome_rangeLoop h (fun _ => True))]; [auto|].
  intros a s0 w0 Hin. eapply outcome_weaken; [|apply Hb, Hin]. auto.
Qed.

End ends.

Ltac ending :=
  repeat first
    [ apply ends_ret
    | apply ends_call
    | apply ends_bind
    | apply ends_rangeLoop
    | progress intros
    | match goal with
      | |- ends _ (match (match ?x with _ => _ end) with _ => _ end) _ => destruct x
      | |- ends _ (match ?x with _ => _ end) _ => destruct x
      | |- ends _ (if ?x then _ else _) _ => destruct x
      end ].

Section returns.
Context {W : Type} (h : handler event W) (request : ExecuteRequest).
Context (getDir : option Digest -> result Directory).
Context (dirAns : string -> result (list FileInfo)).
Hypothesis Hget :
  forall d w, fst (h _ (GetDirectory (InstanceName request) d) w) = getDir d.
Hypothesis Hread : forall p w, fst (h _ (ioutil_ReadDir p) w) = dirAns p.

Lemma uploadDirectory_ends (n : nat) :
  forall fuel instance basePath permitNonExistent children w,
  n <= fuel -> finiteDir dirAns n basePath ->
  ends h (uploadDirectory fuel instance basePath permitNonExistent children) w.
Proof.
  induction n as [|n IH];
    intros fuel instance basePath permitNonExistent children w Hn Hfin; [destruct Hfin|].
  destruct fuel as [|fuel]; [lia|].
  cbn [uploadDirectory]. cbn [finiteDir] in Hfin.
  apply ends_bind_call. rewrite Hread.
  destruct (dirAns basePath) as [files|e]; [|ending].
  apply ends_bind; [|ending].
  apply ends_rangeLoop. intros file [D ch] w1 Hin.
  fold (fileType file). fold (isRegular file) (isDir file) (isSymlink file).
  destruct (isRegular file); [ending|].
  destruct (isDir file) eqn:E1; [|ending].
  apply ends_bind; [|ending].
  apply IH; [lia|].
  rewrite Forall_forall in Hfin. apply Hfin; [apply list_elem_of_In, Hin | exact E1].
Qed.

(** X27: Execute returns for every request whose input tree, as the CAS
    serves it, and whose declared output directories, as the disk lists
    them, are finite: the recursions of createInputDirectory and of
    uploadDirectory end at the depth of those trees. *)
Theorem Execute_returns (n fuel : nat) :
  n <= fuel ->
  (forall w action,
     fst (h _ (GetAction (InstanceName request) (ActionDigest request)) w) = Ok action ->
     finiteTree getDir n (InputRootDigest action)) ->
  (forall w digest command,
     fst (h _ (GetCommand (InstanceName request) digest) w) = Ok command ->
     Forall (fun d => finiteDir dirAns n (Join [pathBuildRoot; d]))
       (OutputDirectories command)) ->
  forall w, exists resp cacheable w' t,
    run h (Execute fuel request) w = Some (resp, cacheable, w', t).
Proof.
  intros Hn Haction Hcommand w.
  enough (Hends : ends h (Execute fuel request) w).
  { destruct Hends as ([resp c] & w' & t & Hrun & _). eauto. }
  unfold Execute. apply ends_bind; [apply ends_call|]. intros timeStart w1.
  apply ends_bind_call.
  destruct (fst (h _ (GetAction _ _) w1)) as [action|e] eqn:Ha; [|ending].
  apply ends_bind_call.
  destruct (fst (h _ (GetCommand _ _) _)) as [command|e] eqn:Hc; [|ending].
  apply ends_bind; [apply ends_call|]. intros t2 w2.
  apply ends_bind; [apply ends_call|]. intros [] w3.
  apply ends_bind.
  { unfold prepareFilesystem. apply ends_bind; [apply ends_call|]. intros x w4.
    apply ends_bind.
    - eapply outcome_weaken;
        [|apply (createInputDirectory_ends h request getDir Hget n); [exact Hn|]].
      + auto.
      + eapply Haction, Ha.
    - ending; rewrite joinPathSafe_root; ending. }
  intros err w4. destruct err as [e|]; [ending|].
  apply ends_bind; [apply ends_call|]. intros t3 w5.
  apply ends_bind; [apply ends_call|]. intros [] w6.
  apply ends_bind; [unfold runCommand; ending; rewrite joinPathSafe_root; ending|].
  intros err w7.
  destruct err as [[m|op p errno|ws|c m]|]; try solve [ending].
  all: apply ends_bind; [apply ends_call|]; intros t4 w8.
  all: apply ends_bind; [apply ends_call|]; intros [] w9.
  all: apply ends_bind; [apply ends_call|]; intros [[d1 x1]|e1] w10; [|ending].
  all: apply ends_bind; [apply ends_call|]; intros [[d2 x2]|e2] w11; [|ending].
  all: apply ends_bind; [ending; rewrite joinPathSafe_root; ending|].
  all: intros [R|e3] w12; [|ending].
  all: apply ends_bind; [|ending].
  all: apply ends_rangeLoop; intros d R0 w13 Hin.
  all: rewrite joinPathSafe_root.
  all: apply ends_bind; [|ending].
  all: unfold uploadTree; apply ends_bind; [|ending].
  all: apply (uploadDirectory_ends n); [exact Hn|].
  all: specialize (Hcommand _ _ _ Hc); rewrite Forall_forall in Hcommand.
  all: apply Hcommand, list_elem_of_In, Hin.
Qed.

End returns.
End termination.

(** ** The theorems at work on the scripted worlds *)
Module executor_examples.
Import path builder observe calls script scenes executor_facts.

Lemma Execute_spawns_once_witness :
  exists resp cacheable w' t,
    run (answer tree) (Execute 3 request) 0%Z = Some (resp, cacheable, w', t) /\
    length (spawns t) <= 1 /\
    (spawns t <> [] ->
     exists action command,
       fetchedActions t = [Ok action] /\ fetchedCommands t = [Ok command] /\
       Arguments command <> []).
Proof.
  do 4 eexists. split; [vm_compute; reflexivity|].
  eapply (Execute_spawns_once (answer tree) 3 request 0%Z).
  vm_compute. reflexivity.
Defined.

Lemma Execute_child_process_witness :
  exists resp cacheable w' t cmd err,
    run (answer tree) (Execute 3 request) 0%Z = Some (resp, cacheable, w', t) /\
    In (cmd, err) (spawns t) /\
    exists command,
      fetchedCommands t = [Ok command] /\
      Cmd_Args cmd = Arguments command /\
      Cmd_Dir cmd = Join [pathBuildRoot; WorkingDirectory command] /\
      Cmd_SysProcAttr cmd = Some {| Uid := 1; Gid := 1 |}.
Proof.
  do 6 eexists. split; [vm_compute; reflexivity|].
  split; [vm_compute; left; reflexivity|].
  eapply (Execute_child_process (answer tree) 3 request 0%Z).
  - vm_compute. reflexivity.
  - vm_compute. left. reflexivity.
Defined.

Lemma Execute_exit_code_range_witness :
  exists resp cacheable w' t result,
    run (answer (copied (Some (ExitError 9)))) (Execute 1 request) 0%Z
      = Some (resp, cacheable, w', t) /\
    Result resp = Some result /\
    (-1 <= ExitCode result <= 255)%Z.
Proof.
  do 5 eexists. split; [vm_compute; reflexivity|].
  split; [vm_compute; reflexivity|].
  eapply (Execute_exit_code_range (answer (copied (Some (ExitError 9)))) 1 request 0%Z).
  - vm_compute. reflexivity.
  - vm_compute. reflexivity.
Defined.

Lemma runCommand_closes_files_witness :
  exists err w' t,
    run (answer tree) (runCommand copy) 0%Z = Some (err, w', t) /\
    closes t = rev (map snd (opens t)).
Proof.
  do 3 eexists. split; [vm_compute; reflexivity|].
  eapply (runCommand_closes_files (answer tree) copy 0%Z).
  vm_compute. reflexivity.
Defined.

Lemma runCommand_output_streams_witness :
  exists err w' t cmd r,
    run (answer tree) (runCommand copy) 0%Z = Some (err, w', t) /\
    In (cmd, r) (spawns t) /\
    exists out errf,
      opens t = [(pathStdout, streamFlags, 0%Z, out); (pathStderr, streamFlags, 0%Z, errf)] /\
      Cmd_Stdout cmd = Some out /\ Cmd_Stderr cmd = Some errf /\ r = err.
Proof.
  do 5 eexists. split; [vm_compute; reflexivity|].
  split; [vm_compute; left; reflexivity|].
  eapply (runCommand_output_streams (answer tree) copy 0%Z).
  - vm_compute. reflexivity.
  - vm_compute. left. reflexivity.
Defined.

Lemma prepareFilesystem_clears_witness :
  exists r w' t,
    run (answer tree) (prepareFilesystem 3 request (action false) copy) 0%Z
      = Some (r, w', t) /\
    (exists x y rest,
       t = Call (os_RemoveAll pathBuildRoot) x
           :: Call (os_Mkdir pathBuildRoot 511) y :: rest) /\
    ((removals t = [pathBuildRoot] /\ r <> None) \/
     (removals t = [pathBuildRoot; pathTempRoot] /\
      exists front z,
        t = front ++ [Call (os_RemoveAll pathTempRoot) z;
                      Call (os_Mkdir pathTempRoot 511) r])).
Proof.
  do 3 eexists. split; [vm_compute; reflexivity|].
  eapply (prepareFilesystem_clears (answer tree) 3 request (action false) copy 0%Z).
  vm_compute. reflexivity.
Defined.

Lemma Execute_fetches_witness :
  exists resp cacheable w' t,
    run (answer tree) (Execute 3 request) 0%Z = Some (resp, cacheable, w', t) /\
    exists now ra rest,
      t = Call time_Now now
          :: Call (GetAction (InstanceName request) (ActionDigest request)) ra :: rest /\
      match ra with
      | Err e => rest = [] /\ resp = convertErrorToExecuteResponse e /\ cacheable = false
      | Ok action =>
          exists rc rest',
            rest = Call (GetCommand (InstanceName request) (CommandDigest action)) rc
                   :: rest' /\
            match rc with
            | Err e => rest' = [] /\ resp = convertErrorToExecuteResponse e /\
                       cacheable = false
            | Ok _ => True
            end
      end.
Proof.
  do 4 eexists. split; [vm_compute; reflexivity|].
  eapply (Execute_fetches (answer tree) 3 request 0%Z).
  vm_compute. reflexivity.
Defined.

Lemma Execute_removals_witness :
  exists resp cacheable w' t,
    run (answer tree) (Execute 3 request) 0%Z = Some (resp, cacheable, w', t) /\
    ((removals t = [] /\ spawns t = []) \/
     (removals t = [pathBuildRoot] /\ spawns t = []) \/
     removals t = [pathBuildRoot; pathTempRoot]).
Proof.
  do 4 eexists. split; [vm_compute; reflexivity|].
  eapply (Execute_removals (answer tree) 3 request 0%Z).
  vm_compute. reflexivity.
Defined.

Lemma Execute_observes_steps_witness :
  exists resp cacheable w' t,
    run (answer tree) (Execute 3 request) 0%Z = Some (resp, cacheable, w', t) /\
    exists k,
      observations t = take k steps /\
      (k < 4 -> exists e, resp = convertErrorToExecuteResponse e /\ cacheable = false) /\
      (4 <= k -> exists result, resp = {| Result := Some result; ResponseStatus := None |}).
Proof.
  do 4 eexists. split; [vm_compute; reflexivity|].
  eapply (Execute_observes_steps (answer tree) 3 request 0%Z).
  vm_compute. reflexivity.
Defined.

Lemma createInputDirectory_stages_witness :
  exists w' t,
    run (answer tree)
      (createInputDirectory 3 (InstanceName request) (Some (digestOf "root")) pathBuildRoot)
      0%Z = Some (None, w', t) /\
    gotFiles t = inputFiles (fetch (s_directories tree)) 2 (Some (digestOf "root"))
                   pathBuildRoot /\
    madeDirs t = inputDirs (fetch (s_directories tree)) 2 (Some (digestOf "root"))
                   pathBuildRoot.
Proof.
  do 2 eexists. split; [vm_compute; reflexivity|].
  eapply (createInputDirectory_stages (answer tree) request
            (fetch (s_directories tree)) (fun d w => eq_refl) 2 3
            (Some (digestOf "root")) pathBuildRoot 0%Z).
  - lia.
  - simpl. repeat constructor.
  - discriminate.
  - vm_compute. reflexivity.
Defined.

Lemma prepareFilesystem_output_parents_witness :
  exists w' t,
    run (answer tree) (prepareFilesystem 3 request (action false) copy) 0%Z
      = Some (None, w', t) /\
    madeParents t = map outputParent (OutputFiles copy).
Proof.
  do 2 eexists. split; [vm_compute; reflexivity|].
  eapply (prepareFilesystem_output_parents (answer tree) 3 request (action false) copy 0%Z).
  vm_compute. reflexivity.
Defined.

Lemma uploadDirectory_lists_witness :
  exists D children' w' t,
    run (answer tree) (uploadDirectory 2 "main" "/build/nodir" true ∅) 0%Z
      = Some (Ok (Some D, children'), w', t) /\
    exists files rest,
      t = Call (ioutil_ReadDir "/build/nodir") (Ok files) :: rest /\
      Forall (fun file => supported file = true) files /\
      map FileNode_Name (Files D) = map FileInfo_Name (List.filter isRegular files) /\
      map DirectoryNode_Name (Directories D) = map FileInfo_Name (List.filter isDir files) /\
      map SymlinkNode_Name (Symlinks D) = map FileInfo_Name (List.filter isSymlink files).
Proof.
  do 4 eexists. split; [vm_compute; reflexivity|].
  eapply (uploadDirectory_lists (answer tree) 2 "main" "/build/nodir" true ∅ 0%Z).
  vm_compute. reflexivity.
Defined.

Lemma uploadDirectory_closed_witness :
  exists root children w' t,
    run (answer tree) (uploadDirectory 2 "main" "/build/nodir" true ∅) 0%Z
      = Some (Ok (Some root, children), w', t) /\
    named children root /\ closedMap children.
Proof.
  do 4 eexists. split; [vm_compute; reflexivity|].
  eapply (uploadDirectory_closed (answer tree) 2 "main" "/build/nodir" true 0%Z).
  vm_compute. reflexivity.
Defined.

Lemma Execute_output_digests_witness :
  exists resp cacheable w' t result,
    run (answer tree) (Execute 3 request) 0%Z = Some (resp, cacheable, w', t) /\
    Result resp = Some result /\
    exists stdoutDigest x1 stderrDigest x2 rest,
      putFiles t = (pathStdout, Ok (stdoutDigest, x1))
                   :: (pathStderr, Ok (stderrDigest, x2)) :: rest /\
      StdoutDigest result = Some stdoutDigest /\
      StderrDigest result = Some stderrDigest.
Proof.
  do 5 eexists. split; [vm_compute; reflexivity|].
  split; [vm_compute; reflexivity|].
  eapply (Execute_output_digests (answer tree) 3 request 0%Z).
  - vm_compute. reflexivity.
  - vm_compute. reflexivity.
Defined.

Lemma uploadTree_puts_once_witness :
  exists digest w' t,
    run (answer tree) (uploadTree 2 "main" "/build/nodir") 0%Z
      = Some (Ok (Some digest), w', t) /\
    exists front tree root,
      t = front ++ [Call (PutTree "main" tree) (Ok digest)] /\
      putTrees t = [tree] /\ Root tree = Some root.
Proof.
  do 3 eexists. split; [vm_compute; reflexivity|].
  eapply (uploadTree_puts_once (answer tree) 2 "main" "/build/nodir" 0%Z
            (Ok (Some _))).
  vm_compute. reflexivity.
Defined.

Lemma Execute_stages_inputs_witness :
  exists resp cacheable w' t,
    run (answer tree) (Execute 3 request) 0%Z = Some (resp, cacheable, w', t) /\
    spawns t <> [] /\
    exists action,
      fetchedActions t = [Ok action] /\
      (finiteTree (fetch (s_directories tree)) 2 (InputRootDigest action) ->
       gotFiles t = inputFiles (fetch (s_directories tree)) 2 (InputRootDigest action)
                      pathBuildRoot /\
       madeDirs t = inputDirs (fetch (s_directories tree)) 2 (InputRootDigest action)
                      pathBuildRoot ++ [(pathTempRoot, 511%Z)]).
Proof.
  do 4 eexists. split; [vm_compute; reflexivity|].
  split; [vm_compute; discriminate|].
  eapply (Execute_stages_inputs (answer tree) request (fetch (s_directories tree))
            (fun d w => eq_refl) 2 3 0%Z).
  - lia.
  - vm_compute. reflexivity.
  - vm_compute. discriminate.
Defined.

End executor_examples.

(** ** joinPathSafe on plain names *)
Module plainpath_examples.
Import path builder plainpath plainpath_facts.

Lemma joinPathSafe_plain_witness :
  joinPathSafe [("/" ++ joinSlash ["build"])%string; joinSlash ["bin"; "tool.sh"]]
  = Ok ("/" ++ joinSlash (["build"] ++ ["bin"; "tool.sh"]))%string.
Proof.
  apply (joinPathSafe_plain ["build"] ["bin"; "tool.sh"]).
  - discriminate.
  - discriminate.
  - repeat constructor; discriminate.
  - repeat constructor; discriminate.
Defined.

End plainpath_examples.

(** ** The v1test executor on its scripted store *)
Module v1test_examples.
Import builder_v1test v1test_facts.

Lemma Execute_v1test_exit_code_witness :
  exists resp w' t,
    run scripted (Execute decodeCommand decodeDirectory errorText (requestFor "true")) stored
      = Some (returned (Ok resp), w', t) /\
    exists action cmd x,
      RequestAction (requestFor "true") = Some action /\
      fetches t = [(InstanceName (requestFor "true"), CommandDigest action);
                   (InstanceName (requestFor "true"), InputRootDigest action)] /\
      spawns t = [(cmd, x)] /\
      Result resp =
        Some {| ExitCode := 123;
                StderrRaw := match x with
                             | Some err => (errorText err ++ newline)%string
                             | None => ("Completed?" ++ newline)%string
                             end |}.
Proof.
  do 3 eexists. split; [vm_compute; reflexivity|].
  eapply (Execute_v1test_exit_code scripted decodeCommand decodeDirectory errorText
            (requestFor "true") stored).
  vm_compute. reflexivity.
Defined.

Lemma Execute_v1test_child_witness :
  exists r w' t cmd x,
    run scripted (Execute decodeCommand decodeDirectory errorText (requestFor "true")) stored
      = Some (r, w', t) /\
    In (cmd, x) (spawns t) /\
    exists command,
      In (gotCommand command) (printed t) /\
      builder.Cmd_Args cmd = hd "" (Arguments command) :: Arguments command /\
      builder.Cmd_Env cmd = childEnv command /\
      builder.Cmd_Dir cmd = "" /\ builder.Cmd_SysProcAttr cmd = None /\
      builder.Cmd_Stdout cmd = None /\ builder.Cmd_Stderr cmd = None.
Proof.
  do 5 eexists. split; [vm_compute; reflexivity|].
  split; [vm_compute; left; reflexivity|].
  eapply (Execute_v1test_child scripted decodeCommand decodeDirectory errorText
            (requestFor "true") stored).
  - vm_compute. reflexivity.
  - vm_compute. left. reflexivity.
Defined.

Lemma Execute_v1test_panics_witness :
  exists reason w' t,
    run scripted (Execute decodeCommand decodeDirectory errorText (requestFor "none")) stored
      = Some (panicked reason, w', t) /\
    spawns t = [] /\
    (RequestAction (requestFor "none") = None \/
     exists command, In (gotCommand command) (printed t) /\ Arguments command = []).
Proof.
  do 3 eexists. split; [vm_compute; reflexivity|].
  eapply (proj2 (Execute_v1test_panics scripted decodeCommand decodeDirectory errorText
                   (requestFor "none") stored)).
  vm_compute. reflexivity.
Defined.

Lemma Execute_v1test_errors_logged_witness :
  exists e w' t,
    run scripted (Execute decodeCommand decodeDirectory errorText (requestFor "absent")) stored
      = Some (returned (Err e), w', t) /\
    spawns t = [] /\
    exists front, printed t = front ++ [failure e].
Proof.
  do 3 eexists. split; [vm_compute; reflexivity|].
  eapply (Execute_v1test_errors_logged scripted decodeCommand decodeDirectory errorText
            (requestFor "absent") stored).
  vm_compute. reflexivity.
Defined.

End v1test_examples.

(** ** The action cache on the memory store *)
Module ac_examples.
Import ac ac_calls.

Lemma GetActionResult_closes_reader_witness :
  exists r w' t,
    run memory (GetActionResult unaryUnmarshal "main"
                  (Some {| Hash := "action"; SizeBytes := 7 |}))
      [("main", "action", [Byte.x00])]
    = Some (r, w', t) /\
    exists rc x,
      t = [Call (BlobAccess_Get "main" (Some {| Hash := "action"; SizeBytes := 7 |})) rc;
           Call (ReadCloser_Close rc) x] /\
      r = match ioutil_ReadAll rc with
          | Err err => Err err
          | Ok data => unaryUnmarshal data
          end.
Proof.
  do 3 eexists. split; [vm_compute; reflexivity|].
  eapply (GetActionResult_closes_reader memory unaryUnmarshal "main"
            (Some {| Hash := "action"; SizeBytes := 7 |})
            [("main", "action", [Byte.x00])]).
  vm_compute. reflexivity.
Defined.

Lemma PutActionResult_sends_witness :
  exists r w' t,
    run memory (PutActionResult unaryMarshal "main"
                  (Some {| Hash := "action"; SizeBytes := 7 |}) exitOne) []
    = Some (r, w', t) /\
    match unaryMarshal exitOne with
    | Err err => r = Some err /\ t = [] /\ w' = []
    | Ok data =>
        t = [Call (BlobAccess_Put "main" (Some {| Hash := "action"; SizeBytes := 7 |})
                     (Z.of_nat (length data)) {| content := data; failure := None |}) r]
    end.
Proof.
  do 3 eexists. split; [vm_compute; reflexivity|].
  eapply (PutActionResult_sends memory unaryMarshal "main"
            (Some {| Hash := "action"; SizeBytes := 7 |}) exitOne []).
  vm_compute. reflexivity.
Defined.

End ac_examples.

(** ** The exposer on the model disk *)
Module exposer_examples.
Import exposer exposer_calls.

(** Exposing a blob that the store does not hold leaves an empty file. *)
Lemma Expose_closes_file_witness :
  exists r w' t,
    run disk (Expose "main" (Some {| Hash := "absent"; SizeBytes := 1 |})
                "/build/new.txt" false) fullDisk
    = Some (r, w', t) /\
    lookup String.eqb "/build/new.txt" (files w') = Some (292%Z, []) /\
    let open :=
      os_OpenFile "/build/new.txt"
        (Z.lor (Z.lor builder.O_WRONLY builder.O_CREATE) builder.O_EXCL) 292%Z in
    ((exists e, t = [Call open (Err e)] /\ r = Some e) \/
     (exists f e x,
        t = [Call open (Ok f);
             Call (BlobAccess_Get "main" (Some {| Hash := "absent"; SizeBytes := 1 |})) (Err e);
             Call (File_Close f) x] /\ r = Some e) \/
     (exists f src n x,
        t = [Call open (Ok f);
             Call (BlobAccess_Get "main" (Some {| Hash := "absent"; SizeBytes := 1 |})) (Ok src);
             Call (io_Copy f src) (n, r); Call (File_Close f) x])).
Proof.
  do 3 eexists. split; [vm_compute; reflexivity|].
  split; [vm_compute; reflexivity|].
  eapply (Expose_closes_file disk "main" (Some {| Hash := "absent"; SizeBytes := 1 |})
            "/build/new.txt" false fullDisk).
  vm_compute. reflexivity.
Defined.

End exposer_examples.

(** ** Uploading the output directory of the scripted world *)
Module outputs_examples.
Import path builder observe calls outputs script scenes outputs_facts termination.

(** The output directory of the scripted world is two levels deep. *)
Lemma tree_finiteDir : finiteDir (onDisk (s_dirs tree)) 2 "/build/nodir".
Proof.
  assert (E0 : onDisk (s_dirs tree) "/build/nodir" =
    Ok [{| FileInfo_Name := "a.txt"; FileInfo_Mode := 420 |};
        {| FileInfo_Name := "d"; FileInfo_Mode := 2147484141 |}])
    by (vm_compute; reflexivity).
  assert (E : onDisk (s_dirs tree) (Join ["/build/nodir"; "d"]) = Ok [])
    by (vm_compute; reflexivity).
  assert (Ea : isDir {| FileInfo_Name := "a.txt"; FileInfo_Mode := 420 |} = false)
    by (vm_compute; reflexivity).
  cbn [finiteDir]. rewrite E0.
  constructor; [rewrite Ea; intros H; discriminate H|].
  constructor; [intros _|constructor].
  cbn [finiteDir FileInfo_Name]. rewrite E. constructor.
Qed.

Lemma uploadDirectory_uploads_witness :
  exists D children' w' t,
    run (answer tree) (uploadDirectory 2 "main" "/build/nodir" true ∅) 0%Z
      = Some (Ok (Some D, children'), w', t) /\
    putPaths t = regularFiles (onDisk (s_dirs tree)) 2 "/build/nodir".
Proof.
  do 4 eexists. split; [vm_compute; reflexivity|].
  eapply (uploadDirectory_uploads (answer tree) (onDisk (s_dirs tree))
            (fun p w => eq_refl) 2 2 "main" "/build/nodir" true ∅ 0%Z).
  - lia.
  - exact tree_finiteDir.
  - vm_compute. reflexivity.
Defined.

Lemma Execute_returns_witness :
  exists resp cacheable w' t,
    run (answer tree) (Execute 3 request) 0%Z = Some (resp, cacheable, w', t).
Proof.
  refine (Execute_returns (answer tree) request (fetch (s_directories tree))
            (onDisk (s_dirs tree)) (fun d w => eq_refl) (fun p w => eq_refl) 2 3
            _ _ _ 0%Z).
  - lia.
  - intros w a H. vm_compute in H. inversion H; subst a. simpl. repeat constructor.
  - intros w digest c H.
    change (fetch (s_commands tree) digest = Ok c) in H. unfold fetch in H.
    change (s_commands tree) with [("command", copy)] in H. cbn [lookup] in H.
    destruct (String.eqb (hashOf digest) "command"); [|discriminate H].
    inversion H; subst c.
    change (OutputDirectories copy) with ["nodir"].
    assert (E : Join [pathBuildRoot; "nodir"] = "/build/nodir") by (vm_compute; reflexivity).
    constructor; [|constructor]. rewrite E. exact tree_finiteDir.
Defined.

End outputs_examples.

(** ** joinPathSafe on an absolute name *)
Module absolute_examples.
Import path builder plainpath absolute_facts.

Lemma joinPathSafe_absolute_name_witness :
  joinPathSafe [("/" ++ joinSlash ["build"])%string; ("/" ++ joinSlash ["etc"; "passwd"])%string]
  = Ok ("/" ++ joinSlash (["build"] ++ ["etc"; "passwd"]))%string.
Proof.
  apply (joinPathSafe_absolute_name ["build"] ["etc"; "passwd"]).
  - discriminate.
  - discriminate.
  - repeat constructor; discriminate.
  - repeat constructor; discriminate.
Defined.

End absolute_examples.
